(** * OmniASR backend: caching, metrics and transcription orchestration

    A shallow embedding of [backend/cache.py], [backend/monitoring.py] and the
    transcription paths of [backend/omni_modal.py], followed by the properties
    of the design document that were checked against it.

    Conventions of the embedding:
    - a Python [str] is a list of code points ([pystr]); [bytes] is a list of
      bytes;
    - a Python [float] is the rational it denotes; every float operation
      rounds its exact result to binary64 (round to nearest, ties to even),
      see [Float64];
    - a Python exception is the left summand of [result];
    - [time.time()], the external engines (audio decoder, VAD, ASR, magic,
      hashlib), the rate limiter and the remote calls of Modal are inputs of
      the functions that call them. *)

From Stdlib Require Import ZArith QArith Qround Qabs List Ascii String Bool Lia Lqa.
From Stdlib Require DecimalString.
From stdpp Require Import base option list sorting gmap strings.

Local Open Scope Z_scope.

(* ===================================================================== *)
(** * Part I: the embedding                                               *)
(* ===================================================================== *)

(** ** Python values shared by the three files *)

Module Py.

(** [str]: a sequence of Unicode code points. *)
Definition pystr : Type := list N.

(** A literal, written as a Rocq string of ASCII characters. *)
Definition str (s : string) : pystr :=
  map N_of_ascii (list_ascii_of_string s).

Definition bytes : Type := list Byte.byte.

(** [str(n)] for an integer: its decimal digits. *)
Definition str_of_int (n : Z) : pystr :=
  str (DecimalString.NilZero.string_of_int (Z.to_int n)).

(** The exceptions the modelled request paths raise or let through.
    [External] is an exception raised inside a collaborator (never an
    [HTTPException]), with its [str(e)]. *)
Inductive exn : Type :=
| HTTPException (status_code : Z) (detail : pystr)
| IndexError
| ZeroDivisionError
| OverflowError (message : pystr)
| External (message : pystr).

(** A call that returns [A] or raises an exception of type [E]. *)
Definition Ok {E A : Type} (a : A) : E + A := inr a.
Definition Raise {E A : Type} (e : E) : E + A := inl e.

Definition result (A : Type) : Type := exn + A.

Definition bind {E A B : Type} (m : E + A) (f : A -> E + B) : E + B :=
  match m with
  | inl e => inl e
  | inr a => f a
  end.

(** [str(e)] *)
Definition str_of_exn (e : exn) : pystr :=
  match e with
  | HTTPException status_code detail =>
      str_of_int status_code ++ str ": " ++ detail
  | IndexError => str "list index out of range"
  | ZeroDivisionError => str "division by zero"
  | OverflowError m => m
  | External m => m
  end.

(** [isinstance(e, HTTPException)] *)
Definition is_http (e : exn) : bool :=
  match e with
  | HTTPException _ _ => true
  | _ => false
  end.

(** [c.isspace()] for one code point: the Unicode White_Space characters
    together with the separators U+001C..U+001F that Python also strips. *)
Definition isspace (c : N) : bool :=
  ((9 <=? c) && (c <=? 13) || (28 <=? c) && (c <=? 32)
   || (c =? 133) || (c =? 160) || (c =? 5760)
   || (8192 <=? c) && (c <=? 8202)
   || (c =? 8232) || (c =? 8233) || (c =? 8239) || (c =? 8287)
   || (c =? 12288))%N.

Fixpoint lstrip (s : pystr) : pystr :=
  match s with
  | [] => []
  | c :: r => if isspace c then lstrip r else s
  end.

Definition rstrip (s : pystr) : pystr := rev (lstrip (rev s)).

(** [s.strip()] *)
Definition strip (s : pystr) : pystr := rstrip (lstrip s).

(** [sep.join(parts)] *)
Fixpoint join (sep : pystr) (parts : list pystr) : pystr :=
  match parts with
  | [] => []
  | [p] => p
  | p :: rest => p ++ sep ++ join sep rest
  end.

(** A slice bound [i] on a sequence of length [len]: a negative bound counts
    from the end, and the result is clamped to [0..len]. *)
Definition slice_index (len i : Z) : Z :=
  if i <? 0 then Z.max 0 (len + i) else Z.min i len.

(** [l[start:]] *)
Definition slice_from {A : Type} (l : list A) (start : Z) : list A :=
  drop (Z.to_nat (slice_index (Z.of_nat (length l)) start)) l.

(** [l[start:stop]] *)
Definition slice {A : Type} (l : list A) (start stop : Z) : list A :=
  let len := Z.of_nat (length l) in
  let lo := slice_index len start in
  let hi := slice_index len stop in
  take (Z.to_nat (hi - lo)) (drop (Z.to_nat lo) l).

(** [l[:stop]] *)
Definition slice_to {A : Type} (l : list A) (stop : Z) : list A :=
  take (Z.to_nat (slice_index (Z.of_nat (length l)) stop)) l.

(** [s.rfind(c)] for one character [c]: the last index of [c], or [-1]. *)
Fixpoint rfind_from (c : N) (s : pystr) (i acc : Z) : Z :=
  match s with
  | [] => acc
  | x :: r => rfind_from c r (i + 1) (if (x =? c)%N then i else acc)
  end.

Definition rfind (c : N) (s : pystr) : Z := rfind_from c s 0 (-1).

(** [os.path.splitext(p)[1]] (posixpath): the extension starts at the last
    dot, if that dot comes after the last slash and after a character of
    the file name that is not a dot. *)
Definition splitext_ext (p : pystr) : pystr :=
  let sepIndex := rfind 47 p in
  let dotIndex := rfind 46 p in
  if sepIndex <? dotIndex then
    if forallb (fun x => (x =? 46)%N)
         (take (Z.to_nat (dotIndex - (sepIndex + 1)))
               (drop (Z.to_nat (sepIndex + 1)) p))
    then []
    else drop (Z.to_nat dotIndex) p
  else [].

(** [s.split(sep)] for one character [sep] *)
Fixpoint split (sep : N) (s : pystr) : list pystr :=
  match s with
  | [] => [[]]
  | x :: r =>
      if (x =? sep)%N then [] :: split sep r
      else match split sep r with
           | h :: t => (x :: h) :: t
           | [] => [[x]]
           end
  end.

(** [x in l] for a list of strings *)
Definition in_list (x : pystr) (l : list pystr) : bool :=
  bool_decide (x ∈ l).

(** [s or default] for an optional string: [None] and the empty string are
    false. *)
Definition or_default (s : option pystr) (default : pystr) : pystr :=
  match s with
  | Some (c :: r) => c :: r
  | _ => default
  end.

End Py.

Notation "'let!' x ':=' m 'in' k" := (Py.bind m (fun x => k))
  (at level 10, x name, m at level 100, k at level 200).

(** ** Python floats: binary64 arithmetic on exact rationals *)

Module Float64.

Definition float : Type := Q.

(** [n / d] rounded to the nearest integer, ties to the even one ([0 < d]). *)
Definition rne_div (n d : Z) : Z :=
  let q := n / d in
  match 2 * (n mod d) ?= d with
  | Lt => q
  | Gt => q + 1
  | Eq => if Z.even q then q else q + 1
  end.

(** For [0 <= n] and [0 < d]: [n / d], counted in units of [2^-1074] (the
    smallest subnormal), rounded to 53 significant bits.  The unit in the
    last place is [2^k]. *)
Definition round_mag (n d : Z) : Z :=
  let k := Z.max 0 (Z.log2 (n / d) - 52) in
  rne_div n (d * 2 ^ k) * 2 ^ k.

(** The binary64 number nearest to [x] (exponent range unbounded above;
    [overflows] tells when the format has no such finite number). *)
Definition b64 (x : Q) : float :=
  let n := Qnum x in
  Qred (Qmake (Z.sgn n * round_mag (Z.abs n * 2 ^ 1074) (Zpos (Qden x)))
              (2 ^ 1074)%positive).

Definition overflows (x : float) : bool :=
  Qle_bool (inject_Z (2 ^ 1024)) (Qabs x).

Definition checked (message : Py.pystr) (x : float) : Py.result float :=
  if overflows x then Py.Raise (Py.OverflowError message) else Py.Ok x.

(** [a / b] on Python integers: the correctly rounded quotient. *)
Definition int_truediv (a b : Z) : Py.result float :=
  if b =? 0 then Py.Raise Py.ZeroDivisionError
  else checked (Py.str "integer division result too large for a float")
               (b64 (Qmake (a * Z.sgn b) (Z.to_pos (Z.abs b)))).

(** [float(a)] *)
Definition of_int (a : Z) : Py.result float :=
  checked (Py.str "int too large to convert to float") (b64 (inject_Z a)).

(** [x - y] on floats (no overflow is possible on the clock readings the
    code subtracts). *)
Definition sub (x y : float) : float := b64 (x - y).

(** [int(a * x)] for an integer [a] and a float [x]: [a] is converted, the
    product is rounded, and the result is truncated toward zero.  An
    infinite product makes [int] raise [OverflowError], as an unconvertible
    [a] does. *)
Definition int_of_mul (a : Z) (x : float) : Py.result Z :=
  let! fa := of_int a in
  let! p := checked (Py.str "cannot convert float infinity to integer")
                    (b64 (fa * x)) in
  Py.Ok (Z.quot (Qnum p) (Zpos (Qden p))).

(** [x] times [10^ndigits], rounded to the nearest integer, ties to even. *)
Definition rne_scaled (x : Q) (ndigits : nat) : Z :=
  rne_div (Qnum x * 10 ^ Z.of_nat ndigits) (Zpos (Qden x)).

(** [round(x, ndigits)] on a float: the exact value of [x] is rounded to
    [ndigits] decimals, ties to even, and the decimal is read back as a
    float. *)
Definition round (x : float) (ndigits : nat) : float :=
  b64 (Qmake (rne_scaled x ndigits) (Z.to_pos (10 ^ Z.of_nat ndigits))).

(** [x > n] for an integer [n], and [x > y]: comparisons are exact. *)
Definition gt_int (x : float) (n : Z) : bool := negb (Qle_bool x (inject_Z n)).
Definition gt (x y : float) : bool := negb (Qle_bool x y).

(** A float that may be infinite: the result of a division. *)
Inductive xfloat : Type :=
| Finite (x : float)
| PosInf
| NegInf.

Definition or_infinity (q : float) : xfloat :=
  if overflows q then (if Qle_bool 0 q then PosInf else NegInf) else Finite q.

(** [x / y] on floats, for [y <> 0]: a quotient too large for the format
    is an infinity. *)
Definition div (x y : float) : xfloat := or_infinity (b64 (x / y)).

(** [x * n] for a float [x] and a small integer [n] (one that is a float
    itself). *)
Definition mul_int (x : float) (n : Z) : xfloat :=
  or_infinity (b64 (x * inject_Z n)).

(** [round(x, ndigits)] on a float that may be infinite: an infinity is
    returned as it is. *)
Definition xround (x : xfloat) (ndigits : nat) : xfloat :=
  match x with
  | Finite v => Finite (round v ndigits)
  | _ => x
  end.

End Float64.

(** ** backend/cache.py *)

(** [collections.OrderedDict]: the items in insertion order, oldest first,
    with at most one item per key. *)
Module OrderedDict.

(** What the dictionary operations raise. *)
Inductive dict_exn : Type :=
| StopIteration
| KeyError (key : Py.pystr).

Definition result (A : Type) : Type := dict_exn + A.

Section Ops.
Context {V : Type}.

Definition t : Type := list (Py.pystr * V).

Definition keys (d : t) : list Py.pystr := map fst d.

(** [d.get(k)], also the test [k in d] *)
Fixpoint lookup (d : t) (k : Py.pystr) : option V :=
  match d with
  | [] => None
  | (k', v) :: r => if decide (k' = k) then Some v else lookup r k
  end.

Definition contains (d : t) (k : Py.pystr) : bool :=
  match lookup d k with
  | Some _ => true
  | None => false
  end.

Fixpoint remove (d : t) (k : Py.pystr) : t :=
  match d with
  | [] => []
  | (k', v) :: r => if decide (k' = k) then r else (k', v) :: remove r k
  end.

(** [d[k]] *)
Definition getitem (d : t) (k : Py.pystr) : result V :=
  match lookup d k with
  | Some v => Py.Ok v
  | None => Py.Raise (KeyError k)
  end.

(** [del d[k]] *)
Definition delitem (d : t) (k : Py.pystr) : result t :=
  if contains d k then Py.Ok (remove d k) else Py.Raise (KeyError k).

(** [d.move_to_end(k)] *)
Definition move_to_end (d : t) (k : Py.pystr) : result t :=
  match lookup d k with
  | Some v => Py.Ok (remove d k ++ [(k, v)])
  | None => Py.Raise (KeyError k)
  end.

(** [d[k] = v]: an existing key keeps its place, a new one goes last. *)
Fixpoint setitem (d : t) (k : Py.pystr) (v : V) : t :=
  match d with
  | [] => [(k, v)]
  | (k', v') :: r =>
      if decide (k' = k) then (k, v) :: r else (k', v') :: setitem r k v
  end.

(** [next(iter(d))] *)
Definition first_key (d : t) : result Py.pystr :=
  match d with
  | [] => Py.Raise StopIteration
  | (k, _) :: _ => Py.Ok k
  end.

(** [len(d)] *)
Definition len (d : t) : Z := Z.of_nat (length d).

End Ops.

Arguments t : clear implicits.

End OrderedDict.

Module Cache.

Import Float64.

Section LRU.
Context {V : Type}.

(** [class LRUCache]: [cache] maps a key to [(value, timestamp)]. *)
Record LRUCache : Type := mkLRU {
  cache : OrderedDict.t (V * float);
  max_size : Z;
  ttl : Z;
  hits : Z;
  misses : Z
}.

(** [LRUCache.__init__] *)
Definition init (max_size ttl : Z) : LRUCache :=
  {| cache := []; max_size := max_size; ttl := ttl; hits := 0; misses := 0 |}.

Definition with_cache (c : LRUCache) (d : OrderedDict.t (V * float)) : LRUCache :=
  {| cache := d; max_size := max_size c; ttl := ttl c;
     hits := hits c; misses := misses c |}.

Definition count_hit (c : LRUCache) : LRUCache :=
  {| cache := cache c; max_size := max_size c; ttl := ttl c;
     hits := hits c + 1; misses := misses c |}.

Definition count_miss (c : LRUCache) : LRUCache :=
  {| cache := cache c; max_size := max_size c; ttl := ttl c;
     hits := hits c; misses := misses c + 1 |}.

(** [_is_expired]: [time.time() - timestamp > self.ttl], with [now] the
    reading of [time.time()]. *)
Definition _is_expired (c : LRUCache) (now timestamp : float) : bool :=
  gt_int (sub now timestamp) (ttl c).

(** [LRUCache.get]; the clock is read only when the key is present. *)
Definition get (c : LRUCache) (key : Py.pystr) (now : float)
  : OrderedDict.result (option V * LRUCache) :=
  if negb (OrderedDict.contains (cache c) key) then
    Py.Ok (None, count_miss c)
  else
    let! entry := OrderedDict.getitem (cache c) key in
    let '(value, timestamp) := entry in
    if _is_expired c now timestamp then
      let! d := OrderedDict.delitem (cache c) key in
      Py.Ok (None, count_miss (with_cache c d))
    else
      let! d := OrderedDict.move_to_end (cache c) key in
      Py.Ok (Some value, count_hit (with_cache c d)).

(** [LRUCache.set] *)
Definition set (c : LRUCache) (key : Py.pystr) (value : V) (now : float)
  : OrderedDict.result LRUCache :=
  let! d :=
    (if OrderedDict.contains (cache c) key then
       OrderedDict.move_to_end (cache c) key
     else if OrderedDict.len (cache c) >=? max_size c then
       let! oldest_key := OrderedDict.first_key (cache c) in
       OrderedDict.delitem (cache c) oldest_key
     else Py.Ok (cache c)) in
  Py.Ok (with_cache c (OrderedDict.setitem d key (value, now))).

(** [LRUCache.delete] *)
Definition delete (c : LRUCache) (key : Py.pystr) : OrderedDict.result LRUCache :=
  if OrderedDict.contains (cache c) key then
    let! d := OrderedDict.delitem (cache c) key in
    Py.Ok (with_cache c d)
  else Py.Ok c.

(** [LRUCache.clear] *)
Definition clear (c : LRUCache) : LRUCache :=
  {| cache := []; max_size := max_size c; ttl := ttl c; hits := 0; misses := 0 |}.

(** The dictionary [get_stats] returns. *)
Record Stats : Type := mkStats {
  stats_size : Z;
  stats_max_size : Z;
  stats_hits : Z;
  stats_misses : Z;
  stats_hit_rate : xfloat;
  stats_ttl : Z
}.

(** [LRUCache.get_stats] *)
Definition get_stats (c : LRUCache) : Py.result Stats :=
  let total_requests := hits c + misses c in
  let! hit_rate :=
    (if total_requests >? 0 then
       let! q := int_truediv (hits c) total_requests in
       Py.Ok (mul_int q 100)
     else Py.Ok (Finite 0%Q)) in
  Py.Ok {| stats_size := OrderedDict.len (cache c);
           stats_max_size := max_size c;
           stats_hits := hits c;
           stats_misses := misses c;
           stats_hit_rate := xround hit_rate 2;
           stats_ttl := ttl c |}.

End LRU.

Arguments LRUCache : clear implicits.

(** [class TranscriptionCache], over a result type [R]; [sha256_hexdigest]
    is [hashlib.sha256(b).hexdigest()]. *)
Section Transcription.
Context {R : Type}.
Variable sha256_hexdigest : Py.bytes -> Py.pystr.

Record TranscriptionCache : Type := mkTC { lru : LRUCache R }.

(** [TranscriptionCache.__init__] *)
Definition tc_init (max_size ttl : Z) : TranscriptionCache :=
  {| lru := init max_size ttl |}.

(** [_generate_key]: [f"{mode}:{language}:{content_hash}"] *)
Definition _generate_key (audio_bytes : Py.bytes) (language mode : Py.pystr)
  : Py.pystr :=
  let content_hash := sha256_hexdigest audio_bytes in
  mode ++ Py.str ":" ++ language ++ Py.str ":" ++ content_hash.

(** [TranscriptionCache.get]: the [if result:] branch only logs. *)
Definition tc_get (tc : TranscriptionCache) (audio_bytes : Py.bytes)
    (language mode : Py.pystr) (now : float)
  : OrderedDict.result (option R * TranscriptionCache) :=
  let key := _generate_key audio_bytes language mode in
  let! r := get (lru tc) key now in
  Py.Ok (fst r, {| lru := snd r |}).

(** [TranscriptionCache.set] *)
Definition tc_set (tc : TranscriptionCache) (audio_bytes : Py.bytes)
    (language mode : Py.pystr) (result : R) (now : float)
  : OrderedDict.result TranscriptionCache :=
  let key := _generate_key audio_bytes language mode in
  let! c := set (lru tc) key result now in
  Py.Ok {| lru := c |}.

End Transcription.

Arguments TranscriptionCache : clear implicits.

(** [class LanguageCache]: one slot for the list of languages. *)
Record LanguageCache : Type := mkLC {
  languages : option (list Py.pystr);
  timestamp : option float;
  lc_ttl : Z
}.

(** [LanguageCache.__init__] *)
Definition lc_init (ttl : Z) : LanguageCache :=
  {| languages := None; timestamp := None; lc_ttl := ttl |}.

(** [LanguageCache.get].  In [self.timestamp and ...] a timestamp that is
    [None] or [0.0] is false, and the clock is not compared. *)
Definition lc_get (lc : LanguageCache) (now : float)
  : option (list Py.pystr) * LanguageCache :=
  match languages lc with
  | None => (None, lc)
  | Some l =>
      let expired :=
        match timestamp lc with
        | Some ts => negb (Qeq_bool ts 0) && gt_int (sub now ts) (lc_ttl lc)
        | None => false
        end in
      if expired then
        (None, {| languages := None; timestamp := None; lc_ttl := lc_ttl lc |})
      else (Some l, lc)
  end.

(** [LanguageCache.set] *)
Definition lc_set (lc : LanguageCache) (l : list Py.pystr) (now : float)
  : LanguageCache :=
  {| languages := Some l; timestamp := Some now; lc_ttl := lc_ttl lc |}.

(** [LanguageCache.clear] *)
Definition lc_clear (lc : LanguageCache) : LanguageCache :=
  {| languages := None; timestamp := None; lc_ttl := lc_ttl lc |}.

(** A call on a cache object, for runs of several calls.  A call that
    raises leaves the object as it was, and the caller goes on. *)
Inductive op (V : Type) : Type :=
| OpGet (key : Py.pystr) (now : float)
| OpSet (key : Py.pystr) (value : V) (now : float)
| OpDelete (key : Py.pystr)
| OpClear.

Arguments OpGet {V}.
Arguments OpSet {V}.
Arguments OpDelete {V}.
Arguments OpClear {V}.

Definition apply {V : Type} (c : LRUCache V) (o : op V) : LRUCache V :=
  match o with
  | OpGet k now =>
      match get c k now with inr (_, c') => c' | inl _ => c end
  | OpSet k v now =>
      match set c k v now with inr c' => c' | inl _ => c end
  | OpDelete k =>
      match delete c k with inr c' => c' | inl _ => c end
  | OpClear => clear c
  end.

Definition run {V : Type} (c : LRUCache V) (ops : list (op V)) : LRUCache V :=
  fold_left apply ops c.

(** Recency bookkeeping for the properties below (not part of the code):
    the key a call touches, namely a [set] that returns or a [get] that
    returns a value, and the position in a run of the last call that touched
    each key. *)
Definition touches {V : Type} (c : LRUCache V) (o : op V) : option Py.pystr :=
  match o with
  | OpGet k now =>
      match get c k now with inr (Some _, _) => Some k | _ => None end
  | OpSet k v now =>
      match set c k v now with inr _ => Some k | inl _ => None end
  | _ => None
  end.

Definition stamp_map : Type := Py.pystr -> option nat.

Definition touch (st : stamp_map) (k : option Py.pystr) (n : nat) : stamp_map :=
  match k with
  | Some k => fun k' => if decide (k' = k) then Some n else st k'
  | None => st
  end.

Fixpoint stamps {V : Type} (c : LRUCache V) (ops : list (op V)) (n : nat)
    (st : stamp_map) : stamp_map :=
  match ops with
  | [] => st
  | o :: r => stamps (apply c o) r (S n) (touch st (touches c o) n)
  end.

Definition last_touch {V : Type} (c : LRUCache V) (ops : list (op V)) : stamp_map :=
  stamps c ops 0%nat (fun _ => None).

(** [k1] was last touched strictly before [k2]. *)
Definition older (st : stamp_map) (k1 k2 : Py.pystr) : Prop :=
  match st k1, st k2 with
  | Some i, Some j => (i < j)%nat
  | _, _ => False
  end.

(** The keys of the dictionary after one call, with the key it touched:
    the cases a proof about a call goes through. *)
Inductive step_shape {V : Type} (c : LRUCache V)
  : op V -> LRUCache V -> option Py.pystr -> Prop :=
| shape_same o c' :
    OrderedDict.keys (cache c') = OrderedDict.keys (cache c) ->
    step_shape c o c' None
| shape_removed o c' k :
    OrderedDict.keys (cache c')
    = OrderedDict.keys (OrderedDict.remove (cache c) k) ->
    step_shape c o c' None
| shape_cleared c' :
    cache c' = [] ->
    step_shape c OpClear c' None
| shape_moved o c' k :
    k ∈ OrderedDict.keys (cache c) ->
    OrderedDict.keys (cache c')
    = OrderedDict.keys (OrderedDict.remove (cache c) k) ++ [k] ->
    step_shape c o c' (Some k)
| shape_evicted v now c' k k0 e0 d :
    k ∉ OrderedDict.keys (cache c) ->
    cache c = (k0, e0) :: d ->
    max_size c <= OrderedDict.len (cache c) ->
    cache c' = d ++ [(k, (v, now))] ->
    step_shape c (OpSet k v now) c' (Some k)
| shape_added v now c' k :
    k ∉ OrderedDict.keys (cache c) ->
    OrderedDict.len (cache c) < max_size c ->
    cache c' = cache c ++ [(k, (v, now))] ->
    step_shape c (OpSet k v now) c' (Some k).

(** The order of the dictionary is the order of last touch: no key twice,
    every earlier key touched before every later one, all before call [n]. *)
Definition recency_inv (ks : list Py.pystr) (st : stamp_map) (n : nat) : Prop :=
  NoDup ks /\
  StronglySorted (older st) ks /\
  Forall (fun k => exists i, st k = Some i /\ (i < n)%nat) ks.

End Cache.

(** ** backend/monitoring.py *)

Module Monitoring.

Import Float64.

(** The three dictionaries appended to [self.metrics]. *)
Inductive metric : Type :=
| TranscriptionMetric (timestamp request_id language : Py.pystr)
    (audio_duration processing_time : float) (segments_count : Z)
    (mode : Py.pystr) (success : bool) (error : option Py.pystr) (rtf : xfloat)
| RequestMetric (timestamp endpoint method : Py.pystr) (status_code : Z)
    (duration : float)
| ErrorMetric (timestamp error_type error_message : Py.pystr)
    (request_id : option Py.pystr).

(** [class MetricsCollector]; the two [defaultdict]s are finite maps whose
    missing keys read as [[]] and [0]. *)
Record MetricsCollector : Type := mkMetrics {
  metrics : gmap Py.pystr (list metric);
  counters : gmap Py.pystr Z;
  start_time : float
}.

(** [MetricsCollector.__init__] *)
Definition init (now : float) : MetricsCollector :=
  {| metrics := ∅; counters := ∅; start_time := now |}.

(** [self.metrics[kind].append(m)] *)
Definition append_metric (mc : MetricsCollector) (kind : Py.pystr) (m : metric)
  : MetricsCollector :=
  {| metrics := <[kind := default [] (metrics mc !! kind) ++ [m]]> (metrics mc);
     counters := counters mc;
     start_time := start_time mc |}.

(** [self.counters[name] += 1] *)
Definition increment (mc : MetricsCollector) (name : Py.pystr) : MetricsCollector :=
  {| metrics := metrics mc;
     counters := <[name := default 0 (counters mc !! name) + 1]> (counters mc);
     start_time := start_time mc |}.

(** [record_transcription]; [timestamp] is [datetime.utcnow().isoformat()]. *)
Definition record_transcription (mc : MetricsCollector) (timestamp : Py.pystr)
    (request_id language : Py.pystr) (audio_duration processing_time : float)
    (segments_count : Z) (mode : Py.pystr) (success : bool)
    (error : option Py.pystr) : MetricsCollector :=
  let rtf := if gt_int audio_duration 0
             then div processing_time audio_duration
             else Finite 0%Q in
  let m := TranscriptionMetric timestamp request_id language audio_duration
             processing_time segments_count mode success error rtf in
  let mc := append_metric mc (Py.str "transcriptions") m in
  let mc := increment mc (Py.str "transcriptions_" ++ mode) in
  if success then increment mc (Py.str "transcriptions_success")
  else increment mc (Py.str "transcriptions_failed").

(** [record_request] *)
Definition record_request (mc : MetricsCollector) (timestamp : Py.pystr)
    (endpoint method : Py.pystr) (status_code : Z) (duration : float)
  : MetricsCollector :=
  let m := RequestMetric timestamp endpoint method status_code duration in
  let mc := append_metric mc (Py.str "requests") m in
  let mc := increment mc (Py.str "requests_" ++ endpoint) in
  increment mc (Py.str "status_" ++ Py.str_of_int status_code).

(** [record_error] *)
Definition record_error (mc : MetricsCollector) (timestamp : Py.pystr)
    (error_type error_message : Py.pystr) (request_id : option Py.pystr)
  : MetricsCollector :=
  let m := ErrorMetric timestamp error_type error_message request_id in
  let mc := append_metric mc (Py.str "errors") m in
  increment mc (Py.str "errors_" ++ error_type).

(** [get_recent_metrics]: [self.metrics.get(metric_type, [])[-limit:]] *)
Definition get_recent_metrics (mc : MetricsCollector) (metric_type : Py.pystr)
    (limit : Z) : list metric :=
  Py.slice_from (default [] (metrics mc !! metric_type)) (- limit).

(** Reading a counter and the list of one kind, for the properties below:
    [self.counters[name]] and [self.metrics[kind]] without the insertion a
    [defaultdict] makes. *)
Definition counter (mc : MetricsCollector) (name : Py.pystr) : Z :=
  default 0 (counters mc !! name).

Definition recorded (mc : MetricsCollector) (kind : Py.pystr) : list metric :=
  default [] (metrics mc !! kind).

(** [reset] *)
Definition reset (mc : MetricsCollector) (now : float) : MetricsCollector :=
  {| metrics := ∅; counters := ∅; start_time := now |}.

End Monitoring.

(** ** backend/omni_modal.py *)

Module Omni.

Import Float64.

(** [class Segment], the dictionaries of ["segments"]. *)
Record Segment : Type := mkSegment {
  seg_start : float;
  seg_end : float;
  seg_text : Py.pystr
}.

(** The dictionary both transcription paths return
    ([class TranscriptionResponse]). *)
Record TranscriptionResult : Type := mkResult {
  transcription : Py.pystr;
  language : Py.pystr;
  processing_time : float;
  audio_duration : float;
  segments_count : Z;
  segments : list Segment;
  request_id : Py.pystr
}.


(** One dictionary of the VAD's answer: sample indices at 16 kHz. *)
Record SpeechTimestamp : Type := mkTs { ts_start : Z; ts_end : Z }.

(** One dictionary of [chunk_metadata]. *)
Record ChunkMeta : Type := mkMeta { md_start : float; md_end : float }.

(** [MAX_FILE_SIZE] and [ALLOWED_MIME_TYPES] *)
Definition MAX_FILE_SIZE : Z := 100 * 1024 * 1024.

Definition ALLOWED_MIME_TYPES : list Py.pystr :=
  map Py.str ["audio/mpeg"; "audio/mp3"; "audio/wav"; "audio/wave";
              "audio/x-wav"; "audio/mp4"; "audio/webm"; "audio/ogg";
              "video/mp4"; "video/webm"]%string.

Definition ALLOWED_EXTENSIONS : list Py.pystr :=
  map Py.str [".mp3"; ".wav"; ".mp4"; ".webm"; ".ogg"; ".m4a"; ".flac"]%string.

(** [validate_file_size] *)
Definition validate_file_size (file_size : Z) : Py.result unit :=
  if file_size >? MAX_FILE_SIZE then
    Py.Raise (Py.HTTPException 413
                (Py.str "File too large. Maximum size is 100MB"))
  else if file_size =? 0 then
    Py.Raise (Py.HTTPException 400 (Py.str "Empty file uploaded"))
  else Py.Ok tt.

Section Model.

(** The state of everything outside the process, the type of one audio
    frame, and the waveform the VAD reads. *)
Context {World sample wav : Type}.

(** A temporary file handed to a collaborator by its path: the upload
    written under the suffix of its file name, or a chunk written as WAV.
    Creating, writing and removing these files is taken to succeed. *)
Inductive audio_input : Type :=
| TempFile (suffix : Py.pystr) (content : Py.bytes)
| ChunkFile (chunk_data : list sample) (samplerate : Z).

(** The collaborators.  A call may change the world and either returns or
    raises an exception with the given [str(e)].  [str_lower] and
    [str_of_float] are Python's [str.lower] and [str] on a float;
    [getenv_API_KEYS] is [os.getenv("API_KEYS")] when the module is loaded;
    [limiter_hit] is the check slowapi makes for [@limiter.limit(limit)],
    which raises [RateLimitExceeded] when the limit is used up;
    [modal_remote] is Modal handing a [.remote(...)] call to a container of
    [OmniASRModel], which can fail before the method runs. *)
Record Collaborators : Type := mkCollaborators {
  getenv_API_KEYS : option Py.pystr;
  limiter_hit : World -> Py.pystr -> World * (Py.pystr + unit);
  modal_remote : World -> World * (Py.pystr + unit);
  time_time : World -> float;
  sha256_hexdigest : Py.bytes -> Py.pystr;
  str_lower : Py.pystr -> Py.pystr;
  str_of_float : float -> Py.pystr;
  magic_from_buffer : Py.bytes -> Py.pystr + Py.pystr;
  supported_languages : list Py.pystr;
  librosa_get_duration : World -> audio_input -> World * (Py.pystr + float);
  read_audio : World -> audio_input -> World * (Py.pystr + wav);
  get_speech_timestamps :
    World -> wav -> World * (Py.pystr + list SpeechTimestamp);
  sf_read : World -> audio_input -> World * (Py.pystr + (list sample * Z));
  pipeline_transcribe :
    World -> list audio_input -> list Py.pystr -> option Z ->
    World * (Py.pystr + list Py.pystr)
}.

Variable E : Collaborators.

(** Code that reads and changes the world and may raise. *)
Definition M (A : Type) : Type := World -> World * Py.result A.

Definition ret {A : Type} (a : A) : M A := fun w => (w, Py.Ok a).

Definition lift {A : Type} (r : Py.result A) : M A := fun w => (w, r).

Definition mbind {A B : Type} (m : M A) (f : A -> M B) : M B :=
  fun w =>
    match m w with
    | (w', inl e) => (w', inl e)
    | (w', inr a) => f a w'
    end.

(** A call of a collaborator. *)
Definition call {A : Type} (c : World -> World * (Py.pystr + A)) : M A :=
  fun w =>
    match c w with
    | (w', inl message) => (w', Py.Raise (Py.External message))
    | (w', inr a) => (w', Py.Ok a)
    end.

(** [time.time()] *)
Definition clock : M float := fun w => (w, Py.Ok (time_time E w)).

(** [try: m  except Exception as e: raise h(e)] *)
Definition try_except {A : Type} (m : M A) (h : Py.exn -> Py.exn) : M A :=
  fun w =>
    match m w with
    | (w', inl e) => (w', inl (h e))
    | (w', inr a) => (w', inr a)
    end.

Notation "'do!' x ':=' m 'in' k" := (mbind m (fun x => k))
  (at level 10, x name, m at level 100, k at level 200).

(** [API_KEYS]: the comma-separated items of the environment variable, as
    a set; empty when the variable is unset or empty. *)
Definition API_KEYS : gset Py.pystr :=
  match getenv_API_KEYS E with
  | Some (c :: r) => list_to_set (Py.split 44 (c :: r))
  | _ => ∅
  end.

(** [verify_api_key], on the request's [X-API-Key] header. *)
Definition verify_api_key (x_api_key : option Py.pystr) : Py.result bool :=
  if bool_decide (API_KEYS = ∅) || (size API_KEYS =? 0)%nat
     || ((size API_KEYS =? 1)%nat && bool_decide ([] ∈ API_KEYS))
  then Py.Ok true
  else
    match x_api_key with
    | None | Some [] =>
        Py.Raise (Py.HTTPException 401
                    (Py.str "API key required. Provide X-API-Key header."))
    | Some key =>
        if bool_decide (key ∉ API_KEYS) then
          Py.Raise (Py.HTTPException 403 (Py.str "Invalid API key"))
        else Py.Ok true
    end.

(** What the framework runs before the body of a route declared with
    [dependencies=[Depends(verify_api_key)]] and [@limiter.limit(limit)]:
    the dependency first, then the limiter's check, whose
    [RateLimitExceeded] the application answers with a 429. *)
Definition route {A : Type} (limit : Py.pystr) (x_api_key : option Py.pystr)
    (body : M A) : M A :=
  do! _ := lift (verify_api_key x_api_key) in
  do! _ := call (fun w => limiter_hit E w limit) in
  body.

(** [method.remote(...)] on the model: the call is handed to a container,
    which can fail with an exception of Modal; then the method runs there
    and its result or its exception comes back to the caller. *)
Definition remote {A : Type} (method : M A) : M A :=
  do! _ := call (modal_remote E) in
  method.

(** [generate_request_id]: 16 hex digits of the content hash, a dash, and
    the last 8 decimal digits of the clock in milliseconds. *)
Definition generate_request_id (content : Py.bytes) : M Py.pystr :=
  let content_hash := Py.slice_to (sha256_hexdigest E content) 16 in
  do! now := clock in
  do! millis := lift (int_of_mul 1000 now) in
  let timestamp := Py.slice_from (Py.str_of_int millis) (-8) in
  ret (content_hash ++ Py.str "-" ++ timestamp).

(** [validate_file_type].  The [HTTPException] raised for a MIME type that
    is not allowed is raised inside the [try] and so caught by its
    [except Exception], like a failure of [magic]: both fall back to the
    check of the extension. *)
Definition validate_file_type (file_bytes : Py.bytes) (filename : Py.pystr)
  : Py.result unit :=
  let detected : Py.result unit :=
    match magic_from_buffer E file_bytes with
    | inl message => Py.Raise (Py.External message)
    | inr mime =>
        if negb (Py.in_list mime ALLOWED_MIME_TYPES) then
          Py.Raise (Py.HTTPException 400
            (Py.str "Invalid file type: " ++ mime ++ Py.str ". Allowed types: "
             ++ Py.join (Py.str ", ") ALLOWED_MIME_TYPES))
        else Py.Ok tt
    end in
  match detected with
  | inr tt => Py.Ok tt
  | inl _ =>
      let ext := str_lower E (Py.splitext_ext filename) in
      if negb (Py.in_list ext ALLOWED_EXTENSIONS) then
        Py.Raise (Py.HTTPException 400
                    (Py.str "Invalid file extension: " ++ ext))
      else Py.Ok tt
  end.




(** [OmniASRModel.validate_language] *)
Definition validate_language (language : Py.pystr) : bool :=
  Py.in_list language (supported_languages E).

Definition invalid_audio (e : Py.exn) : Py.exn :=
  Py.HTTPException 400 (Py.str "Invalid audio file: " ++ Py.str_of_exn e).

Definition transcription_failed (e : Py.exn) : Py.exn :=
  Py.HTTPException 500 (Py.str "Transcription failed: " ++ Py.str_of_exn e).

(** [transcriptions[0]] *)
Definition first_text (transcriptions : list Py.pystr) : Py.result Py.pystr :=
  match transcriptions with
  | [] => Py.Raise Py.IndexError
  | t :: _ => Py.Ok t
  end.

(** [OmniASRModel.transcribe]: the whole file in one engine call. *)
Definition transcribe (audio_bytes : Py.bytes) (filename language request_id : Py.pystr)
  : M TranscriptionResult :=
  let tmp := TempFile (Py.splitext_ext filename) audio_bytes in
  do! duration := try_except (call (fun w => librosa_get_duration E w tmp)) invalid_audio in
  do! start := clock in
  do! answer :=
    try_except
      (do! transcriptions :=
         call (fun w => pipeline_transcribe E w [tmp] [language] None) in
       do! stop := clock in
       ret (transcriptions, sub stop start))
      transcription_failed in
  let '(transcriptions, process_time) := answer in
  do! text := lift (first_text transcriptions) in
  ret {| transcription := text;
         language := language;
         processing_time := round process_time 3;
         audio_duration := round duration 2;
         segments_count := 1;
         segments := [ {| seg_start := 0%Q; seg_end := round duration 2;
                          seg_text := text |} ];
         request_id := request_id |}.

(** One turn of the loop over [speech_timestamps]: the times of the chunk
    in seconds, and the slice of [data] written to the chunk file. *)
Definition cut_chunk (data : list sample) (samplerate : Z) (ts : SpeechTimestamp)
  : Py.result (audio_input * ChunkMeta) :=
  let! start_sec := int_truediv (ts_start ts) 16000 in
  let! end_sec := int_truediv (ts_end ts) 16000 in
  let! ratio := int_truediv samplerate 16000 in
  let! start_sample := int_of_mul (ts_start ts) ratio in
  let! end_sample := int_of_mul (ts_end ts) ratio in
  let chunk_data := Py.slice data start_sample end_sample in
  Py.Ok (ChunkFile chunk_data samplerate,
         {| md_start := start_sec; md_end := end_sec |}).

(** The loop, with [chunk_paths] and [chunk_metadata] as accumulators. *)
Fixpoint cut_chunks (data : list sample) (samplerate : Z)
    (speech_timestamps : list SpeechTimestamp)
    (chunk_paths : list audio_input) (chunk_metadata : list ChunkMeta)
  : Py.result (list audio_input * list ChunkMeta) :=
  match speech_timestamps with
  | [] => Py.Ok (chunk_paths, chunk_metadata)
  | ts :: rest =>
      let! c := cut_chunk data samplerate ts in
      cut_chunks data samplerate rest
        (chunk_paths ++ [fst c]) (chunk_metadata ++ [snd c])
  end.

(** The loop over [enumerate(chunk_results)], with [detailed_segments] and
    [full_text_parts] as accumulators; [chunk_metadata[i]] raises when [i]
    is out of range. *)
Fixpoint combine_results (chunk_metadata : list ChunkMeta) (i : nat)
    (chunk_results : list Py.pystr)
    (detailed_segments : list Segment) (full_text_parts : list Py.pystr)
  : Py.result (list Segment * list Py.pystr) :=
  match chunk_results with
  | [] => Py.Ok (detailed_segments, full_text_parts)
  | text :: rest =>
      let text := Py.strip text in
      match text with
      | [] => combine_results chunk_metadata (S i) rest
                detailed_segments full_text_parts
      | _ :: _ =>
          match chunk_metadata !! i with
          | None => Py.Raise Py.IndexError
          | Some md =>
              combine_results chunk_metadata (S i) rest
                (detailed_segments ++
                   [ {| seg_start := round (md_start md) 3;
                        seg_end := round (md_end md) 3;
                        seg_text := text |} ])
                (full_text_parts ++ [text])
          end
      end
  end.

(** [OmniASRModel.transcribe_large]: VAD chunks in one batched engine call,
    or the whole file when the VAD finds no speech. *)
Definition transcribe_large (audio_bytes : Py.bytes)
    (filename language request_id : Py.pystr) : M TranscriptionResult :=
  let main := TempFile (Py.splitext_ext filename) audio_bytes in
  do! wav := try_except (call (fun w => read_audio E w main)) invalid_audio in
  do! speech_timestamps := call (fun w => get_speech_timestamps E w wav) in
  match speech_timestamps with
  | [] => transcribe audio_bytes filename language request_id
  | _ :: _ =>
      do! decoded := call (fun w => sf_read E w main) in
      let '(data, samplerate) := decoded in
      do! chunks := lift (cut_chunks data samplerate speech_timestamps [] []) in
      let '(chunk_paths, chunk_metadata) := chunks in
      do! start_time := clock in
      do! answer :=
        try_except
          (do! chunk_results :=
             call (fun w => pipeline_transcribe E w chunk_paths
                              (repeat language (length chunk_paths)) (Some 4)) in
           do! stop := clock in
           ret (chunk_results, sub stop start_time))
          transcription_failed in
      let '(chunk_results, processing_time) := answer in
      do! combined :=
        lift (combine_results chunk_metadata 0 chunk_results [] []) in
      let '(detailed_segments, full_text_parts) := combined in
      let full_transcription := Py.join (Py.str " ") full_text_parts in
      do! total_duration :=
        lift (int_truediv (Z.of_nat (length data)) samplerate) in
      ret {| transcription := full_transcription;
             language := language;
             processing_time := round processing_time 3;
             audio_duration := round total_duration 2;
             segments_count := Z.of_nat (length detailed_segments);
             segments := detailed_segments;
             request_id := request_id |}
  end.

(** The first lines of both POST endpoints: the request id, the checks of
    the size and of the type of the upload, and the language, which the
    model is asked about in a remote call outside any [try]. *)
Definition validate_request (content : Py.bytes) (filename : option Py.pystr)
    (language : Py.pystr) : M Py.pystr :=
  do! request_id := generate_request_id content in
  do! _ := lift (validate_file_size (Z.of_nat (length content))) in
  do! _ := lift (validate_file_type content
                   (Py.or_default filename (Py.str "audio"))) in
  do! is_valid := remote (ret (validate_language language)) in
  if negb is_valid then
    lift (Py.Raise (Py.HTTPException 400
      (Py.str "Unsupported language: " ++ language ++
       Py.str ". Use /languages endpoint to get supported languages.")))
  else ret request_id.

(** [except HTTPException: raise] and
    [except Exception as e: raise HTTPException(500, ...)] *)
Definition reraise_http (e : Py.exn) : Py.exn :=
  if Py.is_http e then e else transcription_failed e.

(** The endpoint [POST /transcribe]. *)
Definition transcribe_endpoint (x_api_key : option Py.pystr)
    (content : Py.bytes) (filename : option Py.pystr) (language : Py.pystr)
  : M TranscriptionResult :=
  route (Py.str "20/minute") x_api_key
    (do! request_id := validate_request content filename language in
     try_except
       (do! result :=
          remote (transcribe content
                    (Py.or_default filename (Py.str "audio.wav"))
                    language request_id) in
        if gt (audio_duration result) 45%Q then
          lift (Py.Raise (Py.HTTPException 400
            (Py.str "File too long (" ++
             str_of_float E (audio_duration result) ++
             Py.str "s). Please use /transcribe_large for files > 40s.")))
        else ret result)
       reraise_http).

(** The endpoint [POST /transcribe_large] ([transcribe_large_file]). *)
Definition transcribe_large_file (x_api_key : option Py.pystr)
    (content : Py.bytes) (filename : option Py.pystr) (language : Py.pystr)
  : M TranscriptionResult :=
  route (Py.str "10/minute") x_api_key
    (do! request_id := validate_request content filename language in
     try_except
       (remote (transcribe_large content
                  (Py.or_default filename (Py.str "audio.wav"))
                  language request_id))
       reraise_http).

End Model.

Arguments audio_input : clear implicits.
Arguments Collaborators : clear implicits.

(** *** What the properties below say about a result *)

(** The metadata the loop computes for one VAD span. *)
Definition meta_of (ts : SpeechTimestamp) : ChunkMeta :=
  {| md_start := b64 (ts_start ts # 16000);
     md_end := b64 (ts_end ts # 16000) |}.

(** "Stripped of surrounding whitespace", said without [strip]: [t] is
    [raw] without a run of whitespace at either end, and [t] neither starts
    nor ends with whitespace. *)
Definition stripped_of (raw t : Py.pystr) : Prop :=
  exists l r : Py.pystr,
    raw = l ++ t ++ r /\
    Forall (fun c => Py.isspace c = true) l /\
    Forall (fun c => Py.isspace c = true) r /\
    (forall c, head t = Some c -> Py.isspace c = false) /\
    (forall c, last t = Some c -> Py.isspace c = false).

(** A text of whitespace only: one that strips to nothing. *)
Definition blank (raw : Py.pystr) : bool := forallb Py.isspace raw.

(** The chunks whose text is not blank, each with the text as the engine
    returned it. *)
Definition spoken (chunk_metadata : list ChunkMeta)
    (chunk_results : list Py.pystr) : list (ChunkMeta * Py.pystr) :=
  filter (fun p => blank (snd p) = false) (zip chunk_metadata chunk_results).

(** The chunks whose stripped text is not empty, each with that text. *)
Definition retained (chunk_metadata : list ChunkMeta)
    (chunk_results : list Py.pystr) : list (ChunkMeta * Py.pystr) :=
  filter (fun p => snd p <> []) (zip chunk_metadata (map Py.strip chunk_results)).

(** The segment of a retained chunk. *)
Definition segment_of (p : ChunkMeta * Py.pystr) : Segment :=
  {| seg_start := round (md_start (fst p)) 3;
     seg_end := round (md_end (fst p)) 3;
     seg_text := snd p |}.

(** Segments in ascending order of [start]. *)
Definition segments_ordered (segs : list Segment) : Prop :=
  StronglySorted (fun a b => (seg_start a <= seg_start b)%Q) segs.

(** Every segment ends after it starts. *)
Definition segments_positive (segs : list Segment) : Prop :=
  Forall (fun s => (seg_start s < seg_end s)%Q) segs.

(** No segment ends before it starts. *)
Definition segments_nonnegative (segs : list Segment) : Prop :=
  Forall (fun s => (seg_start s <= seg_end s)%Q) segs.

Definition count_matches (r : TranscriptionResult) : Prop :=
  segments_count r = Z.of_nat (length (segments r)).

Definition text_is_joined (r : TranscriptionResult) : Prop :=
  transcription r = Py.join (Py.str " ") (map seg_text (segments r)).


(** What the VAD is relied on for: spans in ascending order of their start,
    none ending before it starts. *)
Definition vad_contract (tss : list SpeechTimestamp) : Prop :=
  StronglySorted (fun a b => ts_start a <= ts_start b) tss /\
  Forall (fun t => ts_start t <= ts_end t) tss.

(** The collaborators that change the world, for a log of their calls. *)
Inductive collaborator : Type :=
| Limiter | Remote | Duration | ReadAudio | Vad | SfRead | Engine.

(** [log] reads off the world the calls made so far, oldest first: every
    call of a collaborator adds its name, whether it returns or raises. *)
Record logged {World sample wav : Type} (E : Collaborators World sample wav)
    (log : World -> list collaborator) : Prop := mkLogged {
  log_limiter : forall w limit,
    log (fst (limiter_hit E w limit)) = log w ++ [Limiter];
  log_remote : forall w,
    log (fst (modal_remote E w)) = log w ++ [Remote];
  log_duration : forall w f,
    log (fst (librosa_get_duration E w f)) = log w ++ [Duration];
  log_read_audio : forall w f,
    log (fst (read_audio E w f)) = log w ++ [ReadAudio];
  log_vad : forall w wv,
    log (fst (get_speech_timestamps E w wv)) = log w ++ [Vad];
  log_sf_read : forall w f,
    log (fst (sf_read E w f)) = log w ++ [SfRead];
  log_engine : forall w paths langs batch_size,
    log (fst (pipeline_transcribe E w paths langs batch_size))
    = log w ++ [Engine]
}.

End Omni.

(** ** Collaborators to run the model on small inputs

    The world is the number of engine calls made so far and the clock shows
    that number in seconds; a frame is a number and the waveform carries no
    data.  The decoder reports [duration] and [frames] frames at
    [samplerate], the VAD reports [spans], and the engine answers [texts]. *)

Module Fixture.

Import Omni.

Definition collaborators (duration : Float64.float)
    (spans : list SpeechTimestamp) (frames : nat) (samplerate : Z)
    (texts : list Py.pystr) : Collaborators nat nat unit :=
  {| getenv_API_KEYS := None;
     limiter_hit := fun w _ => (w, inr tt);
     modal_remote := fun w => (w, inr tt);
     time_time := fun w => inject_Z (Z.of_nat w);
     sha256_hexdigest := fun _ => Py.str "9f86d081884c7d659a2feaa0c55ad015";
     str_lower := fun s => s;
     str_of_float := fun _ => Py.str "0.0";
     magic_from_buffer := fun _ => inr (Py.str "audio/wav");
     supported_languages := [Py.str "eng_Latn"; Py.str "arb_Arab"];
     librosa_get_duration := fun w _ => (w, inr duration);
     read_audio := fun w _ => (w, inr tt);
     get_speech_timestamps := fun w _ => (S w, inr spans);
     sf_read := fun w _ => (w, inr (seq 0 frames, samplerate));
     pipeline_transcribe := fun w _ _ _ => (S w, inr texts) |}.

(** The same collaborators over a world that is the log of the calls made;
    the clock shows the length of the log in seconds, and [keys] is the
    value of the environment variable [API_KEYS]. *)
Definition logging (keys : option Py.pystr) (duration : Float64.float)
    (spans : list SpeechTimestamp) (frames : nat) (samplerate : Z)
    (texts : list Py.pystr) : Collaborators (list collaborator) nat unit :=
  {| getenv_API_KEYS := keys;
     limiter_hit := fun w _ => (w ++ [Limiter], inr tt);
     modal_remote := fun w => (w ++ [Remote], inr tt);
     time_time := fun w => inject_Z (Z.of_nat (length w));
     sha256_hexdigest := fun _ => Py.str "9f86d081884c7d659a2feaa0c55ad015";
     str_lower := fun s => s;
     str_of_float := fun _ => Py.str "0.0";
     magic_from_buffer := fun _ => inr (Py.str "audio/wav");
     supported_languages := [Py.str "eng_Latn"; Py.str "arb_Arab"];
     librosa_get_duration := fun w _ => (w ++ [Duration], inr duration);
     read_audio := fun w _ => (w ++ [ReadAudio], inr tt);
     get_speech_timestamps := fun w _ => (w ++ [Vad], inr spans);
     sf_read := fun w _ => (w ++ [SfRead], inr (seq 0 frames, samplerate));
     pipeline_transcribe := fun w _ _ _ => (w ++ [Engine], inr texts) |}.


End Fixture.

(* ===================================================================== *)
(** * Part II: properties                                                 *)
(* ===================================================================== *)

Module OrderedDictFacts.
Import OrderedDict.

Section Facts.
Context {V : Type}.
Implicit Types (d : OrderedDict.t V) (k : Py.pystr) (v : V).

Lemma contains_true d k : contains d k = true <-> exists v, lookup d k = Some v.
Proof.
  unfold contains. destruct (lookup d k) as [v|]; split; eauto.
  - intros H. discriminate H.
  - intros [v Hv]. discriminate Hv.
Qed.

Lemma contains_false d k : contains d k = false <-> lookup d k = None.
Proof. unfold contains. destruct (lookup d k); split; congruence. Qed.

Lemma lookup_None_keys d k : lookup d k = None <-> k ∉ keys d.
Proof.
  induction d as [|[k' v'] d IH]; simpl.
  - split; [intros _; apply not_elem_of_nil | done].
  - case_decide as Hk; subst.
    + split; [done | intros H; exfalso; apply H; left].
    + rewrite IH, not_elem_of_cons. intuition congruence.
Qed.

Lemma contains_keys d k : contains d k = true <-> k ∈ keys d.
Proof.
  destruct (contains d k) eqn:E.
  - split; [intros _ | done].
    destruct (decide (k ∈ keys d)) as [|Hn]; [done|].
    apply lookup_None_keys, contains_false in Hn. congruence.
  - split; [done | intros Hin].
    apply contains_false, lookup_None_keys in E. done.
Qed.

Lemma length_remove d k :
  contains d k = true -> S (length (remove d k)) = length d.
Proof.
  induction d as [|[k' v'] d IH]; simpl; [done|].
  unfold contains; simpl. case_decide; [done|].
  intros Hc. simpl. f_equal. apply IH. exact Hc.
Qed.

Lemma remove_absent d k : contains d k = false -> remove d k = d.
Proof.
  induction d as [|[k' v'] d IH]; simpl; [done|].
  unfold contains; simpl. case_decide; [done|].
  intros Hc. f_equal. apply IH. exact Hc.
Qed.

Lemma keys_remove_subset d k k' : k' ∈ keys (remove d k) -> k' ∈ keys d.
Proof.
  induction d as [|[k0 v0] d IH]; simpl; [done|].
  case_decide; simpl.
  - intros H'; by right.
  - rewrite !elem_of_cons. intuition.
Qed.

Lemma keys_remove_NoDup d k : NoDup (keys d) -> NoDup (keys (remove d k)).
Proof.
  induction d as [|[k0 v0] d IH]; simpl; [done|].
  rewrite NoDup_cons. intros [Hn Hd]. case_decide; [done|].
  simpl. apply NoDup_cons. split; [|auto].
  intros Hin. apply Hn. eapply keys_remove_subset; eauto.
Qed.

Lemma keys_remove_gone d k : NoDup (keys d) -> k ∉ keys (remove d k).
Proof.
  induction d as [|[k0 v0] d IH]; simpl; [intros _; apply not_elem_of_nil|].
  rewrite NoDup_cons. intros [Hn Hd]. case_decide; subst; [done|].
  simpl. rewrite not_elem_of_cons. split; [congruence | auto].
Qed.

Lemma lookup_remove_ne d k k' : k' <> k -> lookup (remove d k) k' = lookup d k'.
Proof.
  intros Hne. induction d as [|[k0 v0] d IH]; simpl; [done|].
  case_decide; subst; simpl.
  - case_decide; [congruence | done].
  - case_decide; [done | exact IH].
Qed.

Lemma setitem_absent d k v : contains d k = false -> setitem d k v = d ++ [(k, v)].
Proof.
  induction d as [|[k' v'] d IH]; simpl; [done|].
  unfold contains; simpl. case_decide; [done|].
  intros Hc. f_equal. apply IH. exact Hc.
Qed.

Lemma keys_setitem_present d k v : contains d k = true -> keys (setitem d k v) = keys d.
Proof.
  induction d as [|[k' v'] d IH]; simpl; [done|].
  unfold contains; simpl. case_decide; subst; [done|].
  intros Hc. simpl. f_equal. apply IH. exact Hc.
Qed.

Lemma length_setitem_present d k v :
  contains d k = true -> length (setitem d k v) = length d.
Proof.
  intros H. rewrite <- (length_map fst (setitem d k v)), <- (length_map fst d).
  f_equal. by apply keys_setitem_present.
Qed.

Lemma lookup_setitem_eq d k v : lookup (setitem d k v) k = Some v.
Proof.
  induction d as [|[k' v'] d IH]; simpl.
  - case_decide; done.
  - case_decide; subst; simpl; case_decide; done.
Qed.

Lemma lookup_setitem_ne d k k' v : k' <> k -> lookup (setitem d k v) k' = lookup d k'.
Proof.
  intros Hne. induction d as [|[k0 v0] d IH]; simpl.
  - case_decide; [congruence | done].
  - case_decide; subst; simpl; case_decide; congruence.
Qed.

Lemma lookup_app_last d k v : lookup (d ++ [(k, v)]) k = Some v \/ exists v', lookup d k = Some v'.
Proof.
  induction d as [|[k0 v0] d IH]; simpl.
  - left. case_decide; done.
  - case_decide; [right; eauto | exact IH].
Qed.

Lemma contains_app_last d k v : contains (d ++ [(k, v)]) k = true.
Proof.
  apply contains_keys. unfold keys. rewrite map_app. simpl.
  apply elem_of_app. right. left.
Qed.

Lemma lookup_app_absent d k v :
  contains d k = false -> lookup (d ++ [(k, v)]) k = Some v.
Proof.
  intros H. rewrite <- setitem_absent by done. apply lookup_setitem_eq.
Qed.

Lemma lookup_app_ne d k k' v : k' <> k -> lookup (d ++ [(k, v)]) k' = lookup d k'.
Proof.
  intros Hne. induction d as [|[k0 v0] d IH]; simpl.
  - case_decide; [congruence | done].
  - case_decide; [done | exact IH].
Qed.

Lemma setitem_moved d k v0 v :
  NoDup (keys d) ->
  setitem (remove d k ++ [(k, v0)]) k v = remove d k ++ [(k, v)].
Proof.
  intros Hnd. pose proof (keys_remove_gone d k Hnd) as Hgone.
  revert Hgone. generalize (remove d k). intros l Hl.
  induction l as [|[k0 w0] l IH]; simpl.
  - case_decide; done.
  - simpl in Hl. rewrite not_elem_of_cons in Hl. destruct Hl as [Hne Hl].
    case_decide; [congruence|]. f_equal. by apply IH.
Qed.

End Facts.
End OrderedDictFacts.

Module CacheFacts.
Import OrderedDict OrderedDictFacts Cache Float64.

Section Facts.
Context {V : Type}.
Implicit Types (c : LRUCache V) (k key : Py.pystr) (v : V) (now : float).

(** *** The cases of [set] *)

Lemma set_present c k v now e :
  lookup (cache c) k = Some e ->
  set c k v now =
  Py.Ok (with_cache c (setitem (remove (cache c) k ++ [(k, e)]) k (v, now))).
Proof.
  intros Hl. unfold set, move_to_end, contains. rewrite Hl. reflexivity.
Qed.

Lemma set_evict c k v now k0 e0 d :
  lookup (cache c) k = None ->
  cache c = (k0, e0) :: d ->
  max_size c <= len (cache c) ->
  set c k v now = Py.Ok (with_cache c (d ++ [(k, (v, now))])).
Proof.
  intros Hl Hc Hfull. unfold set, contains. rewrite Hl.
  rewrite Z.geb_leb. destruct (Z.leb_spec (max_size c) (len (cache c))); [|lia].
  rewrite Hc in *. simpl. unfold delitem, contains. simpl.
  rewrite !decide_True by done. simpl.
  rewrite setitem_absent; [done|].
  apply contains_false. simpl in Hl.
  case_decide; [done | exact Hl].
Qed.

Lemma set_room c k v now :
  lookup (cache c) k = None ->
  len (cache c) < max_size c ->
  set c k v now = Py.Ok (with_cache c (cache c ++ [(k, (v, now))])).
Proof.
  intros Hl Hroom. unfold set, contains. rewrite Hl.
  rewrite Z.geb_leb. destruct (Z.leb_spec (max_size c) (len (cache c))); [lia|].
  simpl. rewrite setitem_absent; [done|]. by apply contains_false.
Qed.

Lemma set_empty_full c k v now :
  cache c = [] -> max_size c <= 0 ->
  set c k v now = Py.Raise OrderedDict.StopIteration.
Proof.
  intros Hc Hm. unfold set, contains. rewrite Hc. simpl.
  rewrite Z.geb_leb. destruct (Z.leb_spec (max_size c) (len (@nil (Py.pystr * (V * float))))) as [|Hlt]; [done|].
  unfold len in Hlt. simpl in Hlt. lia.
Qed.

(** *** The cases of [get] *)

Lemma get_absent c k now :
  lookup (cache c) k = None -> get c k now = Py.Ok (None, count_miss c).
Proof. intros Hl. unfold get, contains. rewrite Hl. reflexivity. Qed.

Lemma get_expired c k now v ts :
  lookup (cache c) k = Some (v, ts) ->
  _is_expired c now ts = true ->
  get c k now = Py.Ok (None, count_miss (with_cache c (remove (cache c) k))).
Proof.
  intros Hl He. unfold get, getitem, delitem, contains. rewrite Hl. simpl.
  rewrite He. reflexivity.
Qed.

Lemma get_hit c k now v ts :
  lookup (cache c) k = Some (v, ts) ->
  _is_expired c now ts = false ->
  get c k now =
  Py.Ok (Some v, count_hit (with_cache c (remove (cache c) k ++ [(k, (v, ts))]))).
Proof.
  intros Hl He. unfold get, getitem, move_to_end, contains. rewrite Hl. simpl.
  rewrite He. reflexivity.
Qed.

Lemma delete_present c k e :
  lookup (cache c) k = Some e ->
  delete c k = Py.Ok (with_cache c (remove (cache c) k)).
Proof. intros Hl. unfold delete, delitem, contains. rewrite Hl. reflexivity. Qed.

Lemma delete_absent c k :
  lookup (cache c) k = None -> delete c k = Py.Ok c.
Proof. intros Hl. unfold delete, contains. rewrite Hl. reflexivity. Qed.

Lemma cache_cases c :
  cache c = [] \/ exists k0 e0 d, cache c = (k0, e0) :: d.
Proof. destruct (cache c) as [|[k0 e0] d]; eauto. Qed.

Lemma len_nil_full c : cache c = [] -> max_size c <= len (cache c) -> max_size c <= 0.
Proof. intros ->. unfold len. simpl. lia. Qed.

Lemma keys_app (d1 d2 : OrderedDict.t (V * float)) :
  keys (d1 ++ d2) = keys d1 ++ keys d2.
Proof. apply map_app. Qed.

Lemma lookup_Some_keys (d : OrderedDict.t (V * float)) k e :
  lookup d k = Some e -> k ∈ keys d.
Proof.
  intros Hl. apply contains_keys, contains_true. eauto.
Qed.

Lemma apply_max_size c o : max_size (apply c o) = max_size c.
Proof.
  destruct o as [k now|k v now|k|]; simpl; [| | |done].
  - destruct (lookup (cache c) k) as [[v ts]|] eqn:Hl.
    + destruct (_is_expired c now ts) eqn:He.
      * by rewrite (get_expired _ _ _ _ _ Hl He).
      * by rewrite (get_hit _ _ _ _ _ Hl He).
    + by rewrite (get_absent _ _ _ Hl).
  - destruct (lookup (cache c) k) as [e|] eqn:Hl.
    + by rewrite (set_present _ _ v now _ Hl).
    + destruct (Z_lt_le_dec (len (cache c)) (max_size c)) as [Hlt|Hge].
      * by rewrite (set_room _ _ v now Hl Hlt).
      * destruct (cache_cases c) as [Hc|(k0 & e0 & d & Hc)].
        -- by rewrite set_empty_full by eauto using len_nil_full.
        -- by rewrite (set_evict _ _ v now _ _ _ Hl Hc Hge).
  - destruct (lookup (cache c) k) as [e|] eqn:Hl.
    + by rewrite (delete_present _ _ _ Hl).
    + by rewrite (delete_absent _ _ Hl).
Qed.

Lemma set_raises_unchanged c k v now e :
  set c k v now = inl e -> cache c = [] /\ max_size c <= 0 /\ e = OrderedDict.StopIteration.
Proof.
  destruct (lookup (cache c) k) as [e'|] eqn:Hl.
  - by rewrite (set_present _ _ v now _ Hl).
  - destruct (Z_lt_le_dec (len (cache c)) (max_size c)) as [Hlt|Hge].
    + by rewrite (set_room _ _ v now Hl Hlt).
    + destruct (cache_cases c) as [Hc|(k0 & e0 & d & Hc)].
      * rewrite set_empty_full by eauto using len_nil_full.
        intros [= <-]. eauto using len_nil_full.
      * by rewrite (set_evict _ _ v now _ _ _ Hl Hc Hge).
Qed.

Lemma apply_shape c o : step_shape c o (apply c o) (touches c o).
Proof.
  destruct o as [k now|k v now|k|]; simpl.
  - destruct (lookup (cache c) k) as [[v ts]|] eqn:Hl.
    + destruct (_is_expired c now ts) eqn:He.
      * rewrite (get_expired _ _ _ _ _ Hl He). by eapply shape_removed.
      * rewrite (get_hit _ _ _ _ _ Hl He).
        apply shape_moved; [by eapply lookup_Some_keys|].
        simpl. by rewrite keys_app.
    + rewrite (get_absent _ _ _ Hl). by apply shape_same.
  - destruct (lookup (cache c) k) as [e|] eqn:Hl.
    + rewrite (set_present _ _ v now _ Hl).
      apply shape_moved; [by eapply lookup_Some_keys|].
      simpl. rewrite keys_setitem_present by apply contains_app_last.
      by rewrite keys_app.
    + assert (Hk : k ∉ keys (cache c)) by by apply lookup_None_keys.
      destruct (Z_lt_le_dec (len (cache c)) (max_size c)) as [Hlt|Hge].
      * rewrite (set_room _ _ v now Hl Hlt). by apply shape_added.
      * destruct (cache_cases c) as [Hc|(k0 & e0 & d & Hc)].
        -- rewrite set_empty_full by eauto using len_nil_full.
           by apply shape_same.
        -- rewrite (set_evict _ _ v now _ _ _ Hl Hc Hge).
           eapply shape_evicted; eauto.
  - destruct (lookup (cache c) k) as [e|] eqn:Hl.
    + rewrite (delete_present _ _ _ Hl). by eapply shape_removed.
    + rewrite (delete_absent _ _ Hl). by apply shape_same.
  - by apply shape_cleared.
Qed.

(** *** The size bound *)

Lemma length_keys (d : OrderedDict.t (V * float)) : length (keys d) = length d.
Proof. apply length_map. Qed.

Lemma len_keys (d : OrderedDict.t (V * float)) : len d = Z.of_nat (length (keys d)).
Proof. unfold len. by rewrite length_keys. Qed.

Lemma length_remove_le (d : OrderedDict.t (V * float)) k :
  (length (remove d k) <= length d)%nat.
Proof.
  destruct (contains d k) eqn:E.
  - apply length_remove in E. lia.
  - by rewrite remove_absent.
Qed.

Lemma apply_size c o :
  len (cache c) <= max_size c -> len (cache (apply c o)) <= max_size (apply c o).
Proof.
  intros Hsz. rewrite apply_max_size.
  destruct (apply_shape c o) as
    [o c' He|o c' k He|c' He|o c' k Hin He|v now c' k k0 e0 d Hn Hc Hf He
    |v now c' k Hn Hlt He]; rewrite ?len_keys in *.
  - by rewrite He.
  - rewrite He, length_keys. pose proof (length_remove_le (cache c) k).
    rewrite length_keys in Hsz. lia.
  - rewrite He. simpl. lia.
  - rewrite He, length_app, length_keys. simpl.
    apply contains_keys, length_remove in Hin.
    rewrite length_keys in Hsz. lia.
  - rewrite He, Hc in *. rewrite keys_app, length_app in *. simpl in *. lia.
  - rewrite He, keys_app, length_app. simpl. lia.
Qed.

Lemma run_size c ops :
  len (cache c) <= max_size c ->
  len (cache (run c ops)) <= max_size c /\ max_size (run c ops) = max_size c.
Proof.
  revert c. induction ops as [|o ops IH]; intros c Hsz; simpl; [done|].
  destruct (IH (apply c o) (apply_size c o Hsz)) as [H1 H2].
  rewrite apply_max_size in *. done.
Qed.

(** *** The recency order *)

Lemma keys_remove_sublist (d : OrderedDict.t (V * float)) k :
  keys (remove d k) `sublist_of` keys d.
Proof.
  induction d as [|[k0 e0] d IH]; simpl; [done|].
  case_decide; simpl.
  - by apply sublist_cons.
  - by apply sublist_skip.
Qed.

Lemma StronglySorted_sublist_of {A} (R : A -> A -> Prop) (l1 l2 : list A) :
  l1 `sublist_of` l2 -> StronglySorted R l2 -> StronglySorted R l1.
Proof.
  induction 1 as [|x l1 l2 Hs IH|x l1 l2 Hs IH]; [done| |].
  - rewrite !StronglySorted_cons. intros [Hf Hss]. split; [|auto].
    rewrite Forall_forall in *. intros y Hy. apply Hf.
    by eapply elem_of_sublist.
  - rewrite StronglySorted_cons. intros [_ Hss]. auto.
Qed.

Lemma StronglySorted_impl_elem_of {A} (R R' : A -> A -> Prop) (l : list A) :
  StronglySorted R l ->
  (forall x y, x ∈ l -> y ∈ l -> R x y -> R' x y) ->
  StronglySorted R' l.
Proof.
  induction 1 as [|x l Hl IH Hf]; intros Himp; constructor.
  - apply IH. intros a b Ha Hb. apply Himp; by right.
  - rewrite Forall_forall in *. intros y Hy.
    apply Himp; [by left | by right | by apply Hf].
Qed.

Lemma recency_sublist ks' ks st n :
  ks' `sublist_of` ks -> recency_inv ks st n -> recency_inv ks' st n.
Proof.
  intros Hs (Hnd & Hso & Hb). repeat split.
  - by eapply sublist_NoDup.
  - by eapply StronglySorted_sublist_of.
  - rewrite Forall_forall in *. intros k Hk. apply Hb.
    by eapply elem_of_sublist.
Qed.

Lemma recency_touch_append ks st n k :
  recency_inv ks st n -> k ∉ ks ->
  recency_inv (ks ++ [k]) (touch st (Some k) n) (S n).
Proof.
  intros (Hnd & Hso & Hb) Hk. rewrite Forall_forall in Hb.
  assert (Hst : forall k', k' ∈ ks -> touch st (Some k) n k' = st k').
  { intros k' Hk'. simpl. rewrite decide_False; [done|]. by intros ->. }
  assert (Hkk : touch st (Some k) n k = Some n).
  { simpl. by rewrite decide_True. }
  repeat split.
  - apply NoDup_app. repeat split; [done| |apply NoDup_singleton].
    intros x Hx Hx'. apply list_elem_of_singleton in Hx'. by subst.
  - apply StronglySorted_app. repeat split.
    + intros x1 x2 Hx1 Hx2. apply list_elem_of_singleton in Hx2. subst x2.
      unfold older. rewrite Hst, Hkk by done.
      destruct (Hb x1 Hx1) as (i & -> & Hi). done.
    + eapply StronglySorted_impl_elem_of; [exact Hso|].
      intros x y Hx Hy. unfold older. by rewrite !Hst.
    + repeat constructor.
  - rewrite Forall_forall. intros x Hx. apply elem_of_app in Hx as [Hx|Hx].
    + rewrite Hst by done. destruct (Hb x Hx) as (i & Hi & Hlt). eauto with lia.
    + apply list_elem_of_singleton in Hx. subst. eauto with lia.
Qed.

Lemma recency_mono ks st n : recency_inv ks st n -> recency_inv ks st (S n).
Proof.
  intros (Hnd & Hso & Hb). repeat split; [done..|].
  eapply Forall_impl; [exact Hb|]. intros k (i & Hi & Hlt). eauto with lia.
Qed.

Lemma apply_recency c o st n :
  recency_inv (keys (cache c)) st n ->
  recency_inv (keys (cache (apply c o))) (touch st (touches c o) n) (S n).
Proof.
  intros Hinv.
  destruct (apply_shape c o) as
    [o c' He|o c' k He|c' He|o c' k Hin He|v now c' k k0 e0 d Hn Hc Hf He
    |v now c' k Hn Hlt He]; simpl touch.
  - rewrite He. by apply recency_mono.
  - rewrite He. apply recency_mono.
    eapply recency_sublist; [apply keys_remove_sublist | done].
  - rewrite He. repeat split; constructor.
  - rewrite He. apply (recency_touch_append _ st n k).
    + eapply recency_sublist; [apply keys_remove_sublist | done].
    + apply keys_remove_gone. apply Hinv.
  - rewrite He, keys_app. simpl. apply (recency_touch_append _ st n k).
    + eapply recency_sublist; [|exact Hinv]. rewrite Hc. simpl.
      by apply sublist_cons.
    + rewrite Hc in Hn. simpl in Hn. by apply not_elem_of_cons in Hn as [_ ?].
  - rewrite He, keys_app. simpl. by apply (recency_touch_append _ st n k).
Qed.

Lemma run_recency ops c st n :
  recency_inv (keys (cache c)) st n ->
  recency_inv (keys (cache (run c ops))) (stamps c ops n st) (n + length ops).
Proof.
  revert c st n. induction ops as [|o ops IH]; intros c st n Hinv; simpl.
  - by rewrite Nat.add_0_r.
  - rewrite <- Nat.add_succ_comm. apply IH. by apply apply_recency.
Qed.

Lemma NoDup_snoc {A} (l : list A) (x : A) : NoDup l -> x ∉ l -> NoDup (l ++ [x]).
Proof.
  intros Hnd Hx. apply NoDup_app. repeat split; [done| |apply NoDup_singleton].
  intros y Hy Hy'. apply list_elem_of_singleton in Hy'. by subst.
Qed.

Lemma apply_NoDup c o :
  NoDup (keys (cache c)) -> NoDup (keys (cache (apply c o))).
Proof.
  intros Hnd.
  destruct (apply_shape c o) as
    [o c' He|o c' k He|c' He|o c' k Hin He|v now c' k k0 e0 d Hn Hc Hf He
    |v now c' k Hn Hlt He]; rewrite He; rewrite ?keys_app; simpl.
  - done.
  - by apply keys_remove_NoDup.
  - constructor.
  - apply NoDup_snoc; [by apply keys_remove_NoDup | by apply keys_remove_gone].
  - rewrite Hc in *. simpl in *. apply NoDup_cons in Hnd as [_ Hnd].
    apply not_elem_of_cons in Hn as [_ Hn]. by apply NoDup_snoc.
  - by apply NoDup_snoc.
Qed.

Lemma run_NoDup c ops :
  NoDup (keys (cache c)) -> NoDup (keys (cache (run c ops))).
Proof.
  revert c. induction ops as [|o ops IH]; intros c Hnd; simpl; [done|].
  apply IH. by apply apply_NoDup.
Qed.

Lemma set_NoDup c k v now c' :
  NoDup (keys (cache c)) -> set c k v now = Py.Ok c' -> NoDup (keys (cache c')).
Proof.
  intros Hnd Hs. pose proof (apply_NoDup c (OpSet k v now) Hnd) as H.
  simpl in H. unfold Py.Ok in Hs. by rewrite Hs in H.
Qed.

(** *** Most recently used *)

Lemma get_hit_inv c k now v c' :
  get c k now = Py.Ok (Some v, c') ->
  exists ts, lookup (cache c) k = Some (v, ts) /\ _is_expired c now ts = false /\
    c' = count_hit (with_cache c (remove (cache c) k ++ [(k, (v, ts))])).
Proof.
  destruct (lookup (cache c) k) as [[v0 ts]|] eqn:Hl.
  - destruct (_is_expired c now ts) eqn:He.
    + rewrite (get_expired _ _ _ _ _ Hl He). intros [=].
    + rewrite (get_hit _ _ _ _ _ Hl He). intros [= <- <-]. eauto.
  - rewrite (get_absent _ _ _ Hl). intros [=].
Qed.

Lemma get_marks_mru c k now v c' :
  get c k now = Py.Ok (Some v, c') -> last (keys (cache c')) = Some k.
Proof.
  intros (ts & _ & _ & ->)%get_hit_inv. simpl. rewrite keys_app. apply last_snoc.
Qed.

Lemma set_marks_mru c k v now c' :
  set c k v now = Py.Ok c' -> last (keys (cache c')) = Some k.
Proof.
  intros Hs. pose proof (apply_shape c (OpSet k v now)) as Hsh.
  simpl in Hsh. unfold Py.Ok in Hs. rewrite Hs in Hsh.
  inversion Hsh as
    [ | | |o c1 k1 Hin He|v1 now1 c1 k1 k0 e0 d Hn Hc Hf He
    |v1 now1 c1 k1 Hn Hlt He]; subst;
    rewrite He; rewrite ?keys_app; simpl; apply last_snoc.
Qed.

Lemma set_stores c k v now c' :
  set c k v now = Py.Ok c' -> lookup (cache c') k = Some (v, now).
Proof.
  destruct (lookup (cache c) k) as [e|] eqn:Hl.
  - rewrite (set_present _ _ v now _ Hl). intros [= <-]. simpl.
    apply lookup_setitem_eq.
  - destruct (Z_lt_le_dec (len (cache c)) (max_size c)) as [Hlt|Hge].
    + rewrite (set_room _ _ v now Hl Hlt). intros [= <-]. simpl.
      apply lookup_app_absent. by apply contains_false.
    + destruct (cache_cases c) as [Hc|(k0 & e0 & d & Hc)].
      * by rewrite set_empty_full by eauto using len_nil_full.
      * rewrite (set_evict _ _ v now _ _ _ Hl Hc Hge). intros [= <-]. simpl.
        apply lookup_app_absent. apply contains_false.
        rewrite Hc in Hl. simpl in Hl. by case_decide.
Qed.

Lemma run_cons c o ops : run c (o :: ops) = run (apply c o) ops.
Proof. reflexivity. Qed.

Lemma apply_set_ok c k v now c' :
  set c k v now = Py.Ok c' -> apply c (OpSet k v now) = c'.
Proof. intros H. simpl. unfold Py.Ok in H. by rewrite H. Qed.

Lemma apply_get_ok c k now r c' :
  get c k now = Py.Ok (r, c') -> apply c (OpGet k now) = c'.
Proof. intros H. simpl. unfold Py.Ok in H. by rewrite H. Qed.

Lemma init_recency (m t : Z) :
  recency_inv (keys (cache (@init V m t))) (fun _ => None) 0.
Proof. repeat split; constructor. Qed.

(** Eviction on a full cache removes the head of the dictionary, which the
    recency order makes the least recently touched key. *)
Lemma set_full_evicts_oldest c st n k v now :
  recency_inv (keys (cache c)) st n ->
  k ∉ keys (cache c) ->
  len (cache c) = max_size c ->
  1 <= max_size c ->
  exists oldest rest c',
    keys (cache c) = oldest :: rest /\
    set c k v now = Py.Ok c' /\
    keys (cache c') = rest ++ [k] /\
    Forall (older st oldest) rest.
Proof.
  intros (Hnd & Hso & Hb) Hk Hfull Hm.
  destruct (cache_cases c) as [Hc|(k0 & e0 & d & Hc)].
  - rewrite Hc in Hfull. unfold len in Hfull. simpl in Hfull. lia.
  - exists k0, (keys d), (with_cache c (d ++ [(k, (v, now))])).
    rewrite Hc in Hso, Hk |- *. simpl in *.
    apply StronglySorted_cons in Hso as [Hf _].
    repeat split; [|by rewrite keys_app|done].
    apply set_evict with (k0 := k0) (e0 := e0); [|done|lia].
    apply lookup_None_keys. by rewrite Hc.
Qed.

End Facts.

(** C3. For every run of calls on a cache created with a non-negative
    [max_size]: the dictionary never holds more than [max_size] entries; its
    order is the order of last touch; a [get] that returns a value and a
    [set] leave their key last (most recently used); a [set] of a new key on
    a full cache removes exactly the first key, which every other stored key
    was touched after; and with [max_size = 2] the calls [set k1; set k2;
    get k1; set k3] leave exactly [k1] and [k3], in that order. *)
Theorem lru_size_recency_eviction {V : Type} (m t : Z) (ops : list (op V)) :
  0 <= m ->
  let c := run (init m t) ops in
  let st := last_touch (init m t) ops in
  (len (cache c) <= m /\ max_size c = m) /\
  recency_inv (keys (cache c)) st (length ops) /\
  (forall k now v c', get c k now = Py.Ok (Some v, c') ->
     last (keys (cache c')) = Some k) /\
  (forall k v now c', set c k v now = Py.Ok c' ->
     last (keys (cache c')) = Some k) /\
  (forall k v now,
     k ∉ keys (cache c) -> len (cache c) = m -> 1 <= m ->
     exists oldest rest c',
       keys (cache c) = oldest :: rest /\
       set c k v now = Py.Ok c' /\
       keys (cache c') = rest ++ [k] /\
       Forall (older st oldest) rest) /\
  (forall k1 k2 k3 (v1 v2 v3 : V) n1 n2 n3 n4,
     k1 <> k2 -> k1 <> k3 -> k2 <> k3 ->
     _is_expired (@init V 2 t) n3 n1 = false ->
     keys (cache (run (init 2 t)
       [OpSet k1 v1 n1; OpSet k2 v2 n2; OpGet k1 n3; OpSet k3 v3 n4]))
     = [k1; k3]).
Proof.
  intros Hm c st.
  assert (Hsz : len (cache c) <= m /\ max_size c = m).
  { apply (run_size (init m t) ops). unfold len. simpl. lia. }
  assert (Hrec : recency_inv (keys (cache c)) st (length ops)).
  { apply (run_recency ops (init m t) (fun _ => None) 0%nat), init_recency. }
  split; [exact Hsz|]. split; [exact Hrec|].
  split; [intros k now v c'; apply get_marks_mru|].
  split; [intros k v now c'; apply set_marks_mru|].
  split.
  - intros k v now Hk Hfull Hm1.
    apply (set_full_evicts_oldest c st (length ops)); try done; lia.
  - intros k1 k2 k3 v1 v2 v3 n1 n2 n3 n4 H12 H13 H23 Hexp.
    set (c1 := with_cache (init 2 t) [(k1, (v1, n1))]).
    set (c2 := with_cache c1 [(k1, (v1, n1)); (k2, (v2, n2))]).
    set (c3 := count_hit (with_cache c2 [(k2, (v2, n2)); (k1, (v1, n1))])).
    assert (E1 : set (init 2 t) k1 v1 n1 = Py.Ok c1) by reflexivity.
    assert (E2 : set c1 k2 v2 n2 = Py.Ok c2).
    { apply (set_room c1); [|done]. simpl. by rewrite decide_False. }
    assert (E3 : get c2 k1 n3 = Py.Ok (Some v1, c3)).
    { rewrite (get_hit c2 k1 n3 v1 n1).
      - unfold c3. simpl. by rewrite decide_True.
      - simpl. by rewrite decide_True.
      - exact Hexp. }
    assert (E4 : set c3 k3 v3 n4
                 = Py.Ok (with_cache c3 ([(k1, (v1, n1))] ++ [(k3, (v3, n4))]))).
    { apply (set_evict c3 k3 v3 n4 k2 (v2, n2)); [|done|done].
      simpl. by rewrite !decide_False. }
    rewrite !run_cons.
    rewrite (apply_set_ok _ _ _ _ _ E1), (apply_set_ok _ _ _ _ _ E2).
    rewrite (apply_get_ok _ _ _ _ _ E3), (apply_set_ok _ _ _ _ _ E4).
    reflexivity.
Qed.

Lemma lru_size_recency_eviction_witness :
  let c := run (init 2 3600) [OpSet (Py.str "k1") 1%nat 0%Q;
                               OpSet (Py.str "k2") 2%nat 1%Q;
                               OpGet (Py.str "k1") 2%Q] in
  len (cache c) <= 2 /\ keys (cache c) = [Py.str "k2"; Py.str "k1"].
Proof.
  pose proof (lru_size_recency_eviction (V := nat) 2 3600
    [OpSet (Py.str "k1") 1%nat 0%Q; OpSet (Py.str "k2") 2%nat 1%Q;
     OpGet (Py.str "k1") 2%Q] ltac:(lia)) as H.
  destruct H as [[H _] _].
  split; [exact H | vm_compute; reflexivity].
Defined.

(** C4. After [TranscriptionCache.set] has stored [r] under the key of
    [(audio, language, mode)] at time [t0], and for as long as the dictionary
    still holds that entry (whatever calls came in between): a [get] whose
    computed age [now - t0] does not exceed the TTL returns [r], counts a
    hit and moves the key last; a [get] whose age exceeds the TTL removes
    the entry, counts a miss and returns nothing. *)
Theorem transcription_cache_get_after_set {R : Type}
    (sha256_hexdigest : Py.bytes -> Py.pystr)
    (tc tc1 : TranscriptionCache R) (audio : Py.bytes) (language mode : Py.pystr)
    (r : R) (t0 : float) :
  NoDup (keys (cache (lru tc))) ->
  tc_set sha256_hexdigest tc audio language mode r t0 = Py.Ok tc1 ->
  let key := _generate_key sha256_hexdigest audio language mode in
  lookup (cache (lru tc1)) key = Some (r, t0) /\
  forall (ops : list (op R)) (now : float),
    let c2 := run (lru tc1) ops in
    lookup (cache c2) key = Some (r, t0) ->
    ((sub now t0 <= inject_Z (ttl c2))%Q ->
       exists c3,
         tc_get sha256_hexdigest (mkTC c2) audio language mode now
         = Py.Ok (Some r, mkTC c3) /\
         hits c3 = hits c2 + 1 /\ misses c3 = misses c2 /\
         lookup (cache c3) key = Some (r, t0) /\
         last (keys (cache c3)) = Some key) /\
    ((inject_Z (ttl c2) < sub now t0)%Q ->
       exists c3,
         tc_get sha256_hexdigest (mkTC c2) audio language mode now
         = Py.Ok (None, mkTC c3) /\
         hits c3 = hits c2 /\ misses c3 = misses c2 + 1 /\
         lookup (cache c3) key = None /\
         cache c3 = remove (cache c2) key).
Proof.
  intros Hnd Hset key.
  unfold tc_set in Hset. fold key in Hset.
  destruct (set (lru tc) key r t0) as [e|c1] eqn:Hs; [discriminate Hset|].
  simpl in Hset. injection Hset as <-. simpl lru.
  pose proof (set_NoDup _ _ _ _ _ Hnd Hs) as Hnd1.
  split; [by eapply set_stores|].
  intros ops now c2 Hl.
  pose proof (run_NoDup c1 ops Hnd1) as Hnd2. fold c2 in Hnd2.
  split.
  - intros Hage.
    assert (He : _is_expired c2 now t0 = false).
    { unfold _is_expired, gt_int. apply negb_false_iff.
      by apply Qle_bool_iff. }
    exists (count_hit (with_cache c2 (remove (cache c2) key ++ [(key, (r, t0))]))).
    unfold tc_get. cbn [lru]. fold key. rewrite (get_hit c2 key now r t0 Hl He).
    simpl. repeat split.
    + apply lookup_app_absent, contains_false, lookup_None_keys.
      by apply keys_remove_gone.
    + rewrite keys_app. apply last_snoc.
  - intros Hage.
    assert (He : _is_expired c2 now t0 = true).
    { unfold _is_expired, gt_int. apply negb_true_iff.
      destruct (Qle_bool (sub now t0) (inject_Z (ttl c2))) eqn:E; [|done].
      apply Qle_bool_iff in E. exfalso. eapply Qlt_not_le; eauto. }
    exists (count_miss (with_cache c2 (remove (cache c2) key))).
    unfold tc_get. cbn [lru]. fold key. rewrite (get_expired c2 key now r t0 Hl He).
    simpl. repeat split.
    apply lookup_None_keys. by apply keys_remove_gone.
Qed.

Lemma transcription_cache_get_after_set_witness :
  let sha := fun _ : Py.bytes => Py.str "e3b0c442" in
  let tc1 := mkTC (mkLRU [(Py.str "large:eng_Latn:e3b0c442", (7%nat, 10%Q))]
                         50 3600 0 0) in
  lookup (cache (lru tc1)) (Py.str "large:eng_Latn:e3b0c442") = Some (7%nat, 10%Q).
Proof.
  intros sha tc1.
  exact (proj1 (transcription_cache_get_after_set (R := nat) sha
           (tc_init 50 3600) tc1 [] (Py.str "eng_Latn") (Py.str "large")
           7%nat 10%Q (NoDup_nil_2) eq_refl)).
Defined.

(** C10. With [max_size >= 1] a [set] always returns: the key then holds
    the new value, and the dictionary either had the key (no entry is
    removed), or had room (the key is added), or was full (exactly the
    first entry is removed and the key is added).  On a cache created with
    [max_size = 0] every [set] raises [StopIteration], whatever calls came
    before, and stores nothing. *)
Theorem set_succeeds_unless_zero_capacity {V : Type} :
  (forall (c : LRUCache V) k v now,
     1 <= max_size c ->
     exists c',
       set c k v now = Py.Ok c' /\
       lookup (cache c') k = Some (v, now) /\
       (((k ∈ keys (cache c)) /\
         keys (cache c') = keys (remove (cache c) k) ++ [k]) \/
        ((k ∉ keys (cache c)) /\ cache c' = cache c ++ [(k, (v, now))]) \/
        ((k ∉ keys (cache c)) /\
         exists k0 e0 d, cache c = (k0, e0) :: d /\
                         cache c' = d ++ [(k, (v, now))]))) /\
  (forall (ttl : Z) (ops : list (op V)) k v now,
     set (run (init 0 ttl) ops) k v now = Py.Raise OrderedDict.StopIteration /\
     cache (run (init 0 ttl) ops) = []).
Proof.
  split.
  - intros c k v now Hm.
    destruct (set c k v now) as [e|c'] eqn:Hs.
    { apply set_raises_unchanged in Hs. lia. }
    exists c'. split; [done|]. split; [by eapply set_stores|].
    pose proof (apply_shape c (OpSet k v now)) as Hsh.
    simpl in Hsh. rewrite Hs in Hsh.
    inversion Hsh as
      [ | | |o c1 k1 Hin He|v1 now1 c1 k1 k0 e0 d Hn Hc Hf He
      |v1 now1 c1 k1 Hn Hlt He]; subst; eauto 10.
  - intros ttl ops k v now.
    assert (Hc : cache (run (@init V 0 ttl) ops) = []).
    { destruct (run_size (@init V 0 ttl) ops) as [Hsz _]; [done|].
      unfold len in Hsz. simpl in Hsz.
      destruct (cache (run (init 0 ttl) ops)); [done | simpl in Hsz; lia]. }
    split; [|exact Hc].
    apply set_empty_full; [exact Hc|].
    destruct (run_size (@init V 0 ttl) ops) as [_ ->]; done.
Qed.

Lemma set_succeeds_unless_zero_capacity_witness :
  exists c', set (init 1 3600) (Py.str "a") 5%nat 0%Q = Py.Ok c' /\
             lookup (cache c') (Py.str "a") = Some (5%nat, 0%Q).
Proof.
  destruct (proj1 (set_succeeds_unless_zero_capacity (V := nat))
              (init 1 3600) (Py.str "a") 5%nat 0%Q ltac:(simpl; lia))
    as (c' & H1 & H2 & _).
  exists c'. split; [exact H1 | exact H2].
Defined.

End CacheFacts.

Module Float64Facts.
Import Float64.

(** *** Rounding to the nearest integer *)

Lemma div_le_cross n d n' d' :
  0 < d -> 0 < d' -> n * d' <= n' * d -> n / d <= n' / d'.
Proof.
  intros Hd Hd' Hle. apply Z.div_le_lower_bound; [done|].
  pose proof (Z.mul_div_le n d Hd) as Hf.
  assert (Hdd : d * (d' * (n / d)) <= d * n') by nia.
  by apply Z.mul_le_mono_pos_l in Hdd.
Qed.

Lemma rne_div_bounds n d :
  0 < d -> n / d <= rne_div n d <= n / d + 1.
Proof.
  intros Hd. unfold rne_div.
  destruct (2 * (n mod d) ?= d); [destruct (Z.even (n / d))|..]; lia.
Qed.

Lemma rne_div_mono n d n' d' :
  0 < d -> 0 < d' -> n * d' <= n' * d -> rne_div n d <= rne_div n' d'.
Proof.
  intros Hd Hd' Hle.
  pose proof (div_le_cross n d n' d' Hd Hd' Hle) as Hf.
  pose proof (rne_div_bounds n d Hd) as Hb.
  pose proof (rne_div_bounds n' d' Hd') as Hb'.
  destruct (Z.eq_dec (n / d) (n' / d')) as [Heq|Hne]; [|lia].
  pose proof (Z.div_mod n d ltac:(lia)) as Hn.
  pose proof (Z.div_mod n' d' ltac:(lia)) as Hn'.
  pose proof (Z.mod_pos_bound n d Hd) as Hr.
  pose proof (Z.mod_pos_bound n' d' Hd') as Hr'.
  assert (Hrr : (n mod d) * d' <= (n' mod d') * d) by nia.
  unfold rne_div. rewrite <- Heq.
  destruct (Z.compare_spec (2 * (n mod d)) d) as [E|E|E];
    destruct (Z.compare_spec (2 * (n' mod d')) d') as [E'|E'|E'];
    try destruct (Z.even (n / d)); try lia; exfalso; nia.
Qed.

Lemma rne_div_exact q d : 0 < d -> rne_div (q * d) d = q.
Proof.
  intros Hd. unfold rne_div.
  rewrite Z.mod_mul, Z.div_mul by lia.
  destruct (Z.compare_spec (2 * 0) d); lia.
Qed.

(** *** Rounding to 53 significant bits *)

Lemma ulp_exponent_mono a b :
  a <= b -> Z.max 0 (Z.log2 a - 52) <= Z.max 0 (Z.log2 b - 52).
Proof. intros H. pose proof (Z.log2_le_mono a b H). lia. Qed.

(** Below the next binade: the rounded significand is at most [2^53]. *)
Lemma round_mag_upper n d :
  0 <= n -> 0 < d ->
  let k := Z.max 0 (Z.log2 (n / d) - 52) in
  round_mag n d <= 2 ^ (53 + k).
Proof.
  intros Hn Hd k. unfold round_mag. fold k.
  assert (Hk : 0 <= k) by lia.
  assert (Hp : 0 < 2 ^ k) by (apply Z.pow_pos_nonneg; lia).
  assert (HF : n / d < 2 ^ (53 + k)).
  { assert (0 <= n / d) by (apply Z.div_pos; lia).
    destruct (Z.eq_dec (n / d) 0) as [->|Hnz].
    - apply Z.pow_pos_nonneg; lia.
    - pose proof (Z.log2_spec (n / d) ltac:(lia)) as [_ Hlt].
      eapply Z.lt_le_trans; [exact Hlt|].
      apply Z.pow_le_mono_r; lia. }
  assert (Hnd : n < d * 2 ^ (53 + k)).
  { pose proof (Z.div_mod n d ltac:(lia)).
    pose proof (Z.mod_pos_bound n d Hd). nia. }
  rewrite Z.pow_add_r by lia.
  apply Z.mul_le_mono_nonneg_r; [lia|].
  rewrite <- (rne_div_exact (2 ^ 53) (d * 2 ^ k)) by nia.
  apply rne_div_mono; try nia.
  rewrite Z.pow_add_r in Hnd by lia. nia.
Qed.

(** In a binade above the subnormals: the rounded significand is at least
    [2^52]. *)
Lemma round_mag_lower n d :
  0 <= n -> 0 < d ->
  let k := Z.max 0 (Z.log2 (n / d) - 52) in
  0 < k -> 2 ^ (52 + k) <= round_mag n d.
Proof.
  intros Hn Hd k Hk. unfold round_mag. fold k.
  assert (Hp : 0 < 2 ^ k) by (apply Z.pow_pos_nonneg; lia).
  assert (Hlog : Z.log2 (n / d) = 52 + k) by lia.
  assert (HFpos : 0 < n / d).
  { destruct (Z_lt_le_dec 0 (n / d)) as [|Hle]; [done|].
    rewrite (Z.log2_nonpos _ Hle) in Hlog. lia. }
  pose proof (Z.log2_spec (n / d) HFpos) as [HF _]. rewrite Hlog in HF.
  assert (Hnd : d * 2 ^ (52 + k) <= n).
  { pose proof (Z.mul_div_le n d Hd). nia. }
  rewrite Z.pow_add_r by lia.
  apply Z.mul_le_mono_nonneg_r; [lia|].
  rewrite <- (rne_div_exact (2 ^ 52) (d * 2 ^ k)) at 1 by nia.
  apply rne_div_mono; try nia.
  rewrite Z.pow_add_r in Hnd by lia. nia.
Qed.

Lemma round_mag_mono n d n' d' :
  0 <= n -> 0 < d -> 0 < d' -> n * d' <= n' * d ->
  round_mag n d <= round_mag n' d'.
Proof.
  intros Hn Hd Hd' Hle.
  assert (Hn' : 0 <= n') by nia.
  pose proof (div_le_cross n d n' d' Hd Hd' Hle) as HF.
  pose proof (ulp_exponent_mono _ _ HF) as Hk.
  destruct (Z.eq_dec (Z.max 0 (Z.log2 (n / d) - 52))
                     (Z.max 0 (Z.log2 (n' / d') - 52))) as [Heq|Hne].
  - unfold round_mag. rewrite <- Heq.
    set (k := Z.max 0 (Z.log2 (n / d) - 52)).
    assert (Hp : 0 < 2 ^ k) by (apply Z.pow_pos_nonneg; lia).
    apply Z.mul_le_mono_nonneg_r; [lia|].
    apply rne_div_mono; nia.
  - pose proof (round_mag_upper n d Hn Hd) as Hu.
    pose proof (round_mag_lower n' d' Hn' Hd') as Hl.
    simpl in Hu, Hl.
    etransitivity; [exact Hu|]. etransitivity; [|apply Hl; lia].
    apply Z.pow_le_mono_r; lia.
Qed.

Lemma round_mag_nonneg n d : 0 <= n -> 0 < d -> 0 <= round_mag n d.
Proof.
  intros Hn Hd.
  assert (H0 : round_mag 0 1 = 0) by reflexivity.
  rewrite <- H0. apply round_mag_mono; lia.
Qed.

(** *** [b64] is monotone and odd *)

Lemma Qmake_le_same (a b : Z) (p : positive) : a <= b -> (a # p <= b # p)%Q.
Proof. intros H. unfold Qle. simpl. nia. Qed.

Lemma b64_value x :
  (b64 x == Z.sgn (Qnum x) *
            round_mag (Z.abs (Qnum x) * 2 ^ 1074) (Zpos (Qden x))
            # (2 ^ 1074)%positive)%Q.
Proof. unfold b64. apply Qred_correct. Qed.

Lemma b64_nonneg x : (0 <= x)%Q -> (0 <= b64 x)%Q.
Proof.
  intros Hx. rewrite b64_value.
  assert (Hn : 0 <= Qnum x) by (unfold Qle in Hx; simpl in Hx; lia).
  assert (Hp : 0 < 2 ^ 1074) by (apply Z.pow_pos_nonneg; lia).
  pose proof (round_mag_nonneg (Z.abs (Qnum x) * 2 ^ 1074) (Zpos (Qden x))
                ltac:(nia) ltac:(lia)) as Hr.
  revert Hr. generalize (round_mag (Z.abs (Qnum x) * 2 ^ 1074) (Z.pos (Qden x))).
  generalize (2 ^ 1074)%positive. intros P r Hr.
  unfold Qle. simpl. rewrite Z.mul_1_r.
  apply Z.mul_nonneg_nonneg; [|exact Hr].
  destruct (Qnum x); simpl; lia.
Qed.

Lemma b64_mono_nonneg x y : (0 <= x)%Q -> (x <= y)%Q -> (b64 x <= b64 y)%Q.
Proof.
  intros Hx Hxy. rewrite !b64_value.
  assert (Hp : 0 < 2 ^ 1074) by (apply Z.pow_pos_nonneg; lia).
  assert (Hn : 0 <= Qnum x) by (unfold Qle in Hx; simpl in Hx; lia).
  assert (Hn' : 0 <= Qnum y).
  { assert (Hy : (0 <= y)%Q) by (eapply Qle_trans; eauto).
    unfold Qle in Hy. simpl in Hy. lia. }
  apply Qmake_le_same.
  unfold Qle in Hxy.
  rewrite !Z.abs_eq by done.
  revert Hp. generalize (2 ^ 1074). intros S HS.
  destruct (Z.eq_dec (Qnum x) 0) as [E0|Hnz].
  - rewrite E0. simpl Z.sgn. rewrite Z.mul_0_l.
    apply Z.mul_nonneg_nonneg; [destruct (Qnum y); simpl; lia|].
    apply round_mag_nonneg; nia.
  - assert (Hy0 : 0 < Qnum y).
    { destruct (Z_lt_le_dec 0 (Qnum y)) as [|Hle]; [done|].
      assert (Qnum y = 0) by lia. nia. }
    rewrite !Z.sgn_pos by lia. rewrite !Z.mul_1_l.
    apply round_mag_mono; try nia.
Qed.

Lemma b64_opp x : (b64 (- x) == - b64 x)%Q.
Proof.
  rewrite !b64_value. unfold Qopp. cbn [Qnum Qden].
  rewrite Z.sgn_opp, Z.abs_opp.
  generalize (round_mag (Z.abs (Qnum x) * 2 ^ 1074) (Z.pos (Qden x))).
  generalize (2 ^ 1074)%positive. intros P r.
  unfold Qeq. cbn [Qnum Qden]. lia.
Qed.

Lemma b64_mono x y : (x <= y)%Q -> (b64 x <= b64 y)%Q.
Proof.
  intros Hxy.
  destruct (Qlt_le_dec x 0) as [Hx|Hx]; [|by apply b64_mono_nonneg].
  destruct (Qlt_le_dec y 0) as [Hy|Hy].
  - assert (H : (b64 (- y) <= b64 (- x))%Q).
    { apply b64_mono_nonneg; lra. }
    rewrite !b64_opp in H. lra.
  - assert (H1 : (0 <= b64 (- x))%Q) by (apply b64_nonneg; lra).
    rewrite b64_opp in H1.
    pose proof (b64_nonneg y Hy). lra.
Qed.

(** [b64] does not depend on how its argument is written. *)
Lemma b64_proper x y : (x == y)%Q -> b64 x = b64 y.
Proof.
  intros Heq. unfold b64. apply Qred_complete.
  pose proof (b64_value x) as Hx. pose proof (b64_value y) as Hy.
  rewrite <- Hx, <- Hy.
  apply Qle_antisym; apply b64_mono; lra.
Qed.

Lemma b64_zero : b64 0 = 0%Q.
Proof. vm_compute. reflexivity. Qed.

(** *** [round] is monotone *)

Lemma rne_scaled_mono x y nd :
  (x <= y)%Q -> rne_scaled x nd <= rne_scaled y nd.
Proof.
  intros Hxy. unfold rne_scaled, Qle in *.
  assert (Hp : 0 < 10 ^ Z.of_nat nd) by (apply Z.pow_pos_nonneg; lia).
  apply rne_div_mono; try lia. nia.
Qed.

Lemma round_mono x y nd : (x <= y)%Q -> (round x nd <= round y nd)%Q.
Proof.
  intros Hxy. unfold round. apply b64_mono, Qmake_le_same.
  by apply rne_scaled_mono.
Qed.

Lemma round_zero nd : round 0%Q nd = 0%Q.
Proof.
  unfold round, rne_scaled. simpl Qnum. simpl Qden.
  rewrite Z.mul_0_l. change (rne_div 0 1) with 0.
  rewrite <- b64_zero. apply b64_proper. reflexivity.
Qed.

Lemma round_nonneg x nd : (0 <= x)%Q -> (0 <= round x nd)%Q.
Proof. intros Hx. rewrite <- (round_zero nd). by apply round_mono. Qed.

End Float64Facts.

Module OmniFacts.
Import Float64 Float64Facts Omni.

Section Facts.
Context {World sample wav : Type}.
Variable E : Collaborators World sample wav.

Abbreviation M := (@Omni.M World).
Implicit Types (w : World).

(** *** Inversion of the monad's operations *)

Lemma mbind_inv {A B} (m : M A) (f : A -> M B) w w' b :
  mbind m f w = (w', inr b) ->
  exists w1 a, m w = (w1, inr a) /\ f a w1 = (w', inr b).
Proof.
  unfold mbind. destruct (m w) as [w1 [e|a]]; [intros [=]|]. eauto.
Qed.

Lemma try_except_inv {A} (m : M A) h w w' a :
  try_except m h w = (w', inr a) -> m w = (w', inr a).
Proof.
  unfold try_except. destruct (m w) as [w1 [e|a']]; intros [=]; by subst.
Qed.

Lemma call_inv {A} (c : World -> World * (Py.pystr + A)) w w' a :
  call c w = (w', inr a) -> c w = (w', inr a).
Proof.
  unfold call. destruct (c w) as [w1 [e|a']]; intros [=]; by subst.
Qed.

Lemma lift_inv {A} (r : Py.result A) w w' a :
  lift r w = (w', inr a) -> w' = w /\ r = Py.Ok a.
Proof. unfold lift. intros [=]; by subst. Qed.

Lemma clock_inv w w' t :
  clock E w = (w', inr t) -> w' = w /\ t = time_time E w.
Proof. unfold clock. intros [=]; by subst. Qed.

Lemma ret_inv {A} (a : A) w w' a' :
  ret a w = (w', inr a') -> w' = w /\ a' = a.
Proof. unfold ret. intros [=]; by subst. Qed.

(** *** Running the monad's operations forward *)

Lemma mbind_ok {A B} (m : M A) (f : A -> M B) w w1 a :
  m w = (w1, inr a) -> mbind m f w = f a w1.
Proof. intros H. unfold mbind. by rewrite H. Qed.

Lemma mbind_raise {A B} (m : M A) (f : A -> M B) w w1 e :
  m w = (w1, inl e) -> mbind m f w = (w1, inl e).
Proof. intros H. unfold mbind. by rewrite H. Qed.

Lemma try_except_ok {A} (m : M A) h w w1 a :
  m w = (w1, inr a) -> try_except m h w = (w1, inr a).
Proof. intros H. unfold try_except. by rewrite H. Qed.

Lemma try_except_raise {A} (m : M A) h w w1 e :
  m w = (w1, inl e) -> try_except m h w = (w1, inl (h e)).
Proof. intros H. unfold try_except. by rewrite H. Qed.

Lemma call_ok {A} (c : World -> World * (Py.pystr + A)) w w1 a :
  c w = (w1, inr a) -> call c w = (w1, inr a).
Proof. intros H. unfold call. by rewrite H. Qed.

Lemma call_raise {A} (c : World -> World * (Py.pystr + A)) w w1 msg :
  c w = (w1, inl msg) -> call c w = (w1, inl (Py.External msg)).
Proof. intros H. unfold call. by rewrite H. Qed.

Lemma lift_ok {A} (r : Py.result A) w a :
  r = Py.Ok a -> lift r w = (w, inr a).
Proof. by intros ->. Qed.

(** *** The whole-file path *)

Lemma transcribe_inv audio filename lang rid w w' r :
  transcribe E audio filename lang rid w = (w', inr r) ->
  let tmp := TempFile (Py.splitext_ext filename) audio in
  exists w1 duration texts text,
    librosa_get_duration E w tmp = (w1, inr duration) /\
    pipeline_transcribe E w1 [tmp] [lang] None = (w', inr texts) /\
    first_text texts = Py.Ok text /\
    r = {| transcription := text;
           language := lang;
           processing_time := round (sub (time_time E w') (time_time E w1)) 3;
           audio_duration := round duration 2;
           segments_count := 1;
           segments := [ {| seg_start := 0%Q; seg_end := round duration 2;
                            seg_text := text |} ];
           request_id := rid |}.
Proof.
  intros H tmp. unfold transcribe in H. fold tmp in H.
  apply mbind_inv in H as (w1 & duration & Hd & H).
  apply try_except_inv, call_inv in Hd.
  apply mbind_inv in H as (w2 & start & Hs & H).
  apply clock_inv in Hs as [-> ->].
  apply mbind_inv in H as (w3 & [texts pt] & Ha & H).
  apply try_except_inv in Ha.
  apply mbind_inv in Ha as (w4 & texts' & Hp & Ha).
  apply call_inv in Hp.
  apply mbind_inv in Ha as (w5 & stop & Hc & Ha).
  apply clock_inv in Hc as [-> ->].
  apply ret_inv in Ha as [-> [= -> ->]]. rename texts' into texts.
  apply mbind_inv in H as (w6 & text & Ht & H).
  apply lift_inv in Ht as [-> Ht].
  apply ret_inv in H as [-> ->].
  exists w1, duration, texts, text. done.
Qed.

(** *** The chunked path *)

Lemma int_truediv_16000 a f :
  int_truediv a 16000 = Py.Ok f -> f = b64 (a # 16000).
Proof.
  unfold int_truediv, checked. simpl (16000 =? 0).
  change (Z.sgn 16000) with 1. change (Z.to_pos (Z.abs 16000)) with 16000%positive.
  rewrite Z.mul_1_r.
  destruct (overflows _); [intros [=]|]. by intros [= <-].
Qed.

Lemma cut_chunk_meta (data : list sample) sr ts c :
  cut_chunk data sr ts = Py.Ok c -> snd c = meta_of ts.
Proof.
  unfold cut_chunk, Py.bind.
  destruct (int_truediv (ts_start ts) 16000) as [|s] eqn:Hs; [intros [=]|].
  destruct (int_truediv (ts_end ts) 16000) as [|e] eqn:He; [intros [=]|].
  destruct (int_truediv sr 16000) as [|ratio]; [intros [=]|].
  destruct (int_of_mul (ts_start ts) ratio) as [|a]; [intros [=]|].
  destruct (int_of_mul (ts_end ts) ratio) as [|b]; [intros [=]|].
  intros [= <-]. simpl. unfold meta_of.
  by rewrite (int_truediv_16000 _ _ Hs), (int_truediv_16000 _ _ He).
Qed.

Lemma cut_chunks_meta (data : list sample) sr tss paths metas paths' metas' :
  cut_chunks data sr tss paths metas = Py.Ok (paths', metas') ->
  metas' = metas ++ map meta_of tss /\
  length paths' = (length paths + length tss)%nat.
Proof.
  revert paths metas. induction tss as [|ts tss IH]; intros paths metas; simpl.
  - intros [= <- <-]. by rewrite app_nil_r, Nat.add_0_r.
  - unfold Py.bind at 1.
    destruct (cut_chunk data sr ts) as [|c] eqn:Hc; [intros [=]|].
    intros H. apply IH in H as [-> ->].
    rewrite (cut_chunk_meta _ _ _ _ Hc), <- app_assoc, length_app. simpl.
    split; [done | lia].
Qed.

Lemma combine_results_spec metas i texts segs parts :
  (length texts <= length (drop i metas))%nat ->
  combine_results metas i texts segs parts =
  Py.Ok (segs ++ map segment_of (retained (drop i metas) texts),
         parts ++ map snd (retained (drop i metas) texts)).
Proof.
  revert i segs parts. induction texts as [|t texts IH]; intros i segs parts Hlen.
  - simpl. unfold retained. simpl. destruct (drop i metas); simpl;
      by rewrite !app_nil_r.
  - destruct (metas !! i) as [md|] eqn:Hmd.
    2:{ apply lookup_ge_None in Hmd. rewrite length_drop in Hlen.
        simpl in Hlen. lia. }
    assert (Hdrop : drop i metas = md :: drop (S i) metas).
    { by apply drop_S. }
    rewrite Hdrop in Hlen |- *. simpl in Hlen.
    simpl combine_results. unfold retained. simpl map. simpl zip.
    rewrite filter_cons. simpl snd.
    destruct (Py.strip t) as [|c s] eqn:Hst.
    + rewrite decide_False by (intros H; by apply H).
      apply IH. lia.
    + rewrite decide_True by done. rewrite Hmd.
      rewrite IH by lia. unfold retained. simpl.
      by rewrite <- !app_assoc.
Qed.

Lemma combine_results_ok metas i texts segs parts segs' parts' :
  combine_results metas i texts segs parts = Py.Ok (segs', parts') ->
  segs' = segs ++ map segment_of (retained (drop i metas) texts) /\
  parts' = parts ++ map snd (retained (drop i metas) texts).
Proof.
  revert i segs parts. induction texts as [|t texts IH]; intros i segs parts.
  - simpl. intros [= <- <-]. unfold retained. simpl.
    destruct (drop i metas); simpl; by rewrite !app_nil_r.
  - simpl combine_results. unfold retained. simpl map.
    destruct (metas !! i) as [md|] eqn:Hmd.
    + rewrite (drop_S _ _ _ Hmd). simpl zip. rewrite filter_cons. simpl snd.
      destruct (Py.strip t) as [|c s] eqn:Hst.
      * rewrite decide_False by (intros H; by apply H). apply IH.
      * rewrite decide_True by done. intros H. apply IH in H as [-> ->].
        unfold retained. simpl. by rewrite <- !app_assoc.
    + assert (Hd : drop i metas = []).
      { apply drop_ge. by apply lookup_ge_None. }
      assert (Hd' : drop (S i) metas = []).
      { apply drop_ge. apply lookup_ge_None in Hmd. lia. }
      rewrite Hd. simpl.
      destruct (Py.strip t) as [|c s] eqn:Hst; [|intros [=]].
      intros H. apply IH in H. rewrite Hd' in H. exact H.
Qed.

Lemma transcribe_large_inv audio filename lang rid w w' r :
  transcribe_large E audio filename lang rid w = (w', inr r) ->
  let main := TempFile (Py.splitext_ext filename) audio in
  exists w1 wv w2 tss,
    read_audio E w main = (w1, inr wv) /\
    get_speech_timestamps E w1 wv = (w2, inr tss) /\
    ((tss = [] /\ transcribe E audio filename lang rid w2 = (w', inr r)) \/
     (tss <> [] /\
      exists w3 data sr paths texts total,
        sf_read E w2 main = (w3, inr (data, sr)) /\
        cut_chunks data sr tss [] [] = Py.Ok (paths, map meta_of tss) /\
        length paths = length tss /\
        pipeline_transcribe E w3 paths (repeat lang (length paths)) (Some 4)
        = (w', inr texts) /\
        combine_results (map meta_of tss) 0 texts [] []
        = Py.Ok (segments r, map seg_text (segments r)) /\
        int_truediv (Z.of_nat (length data)) sr = Py.Ok total /\
        r = {| transcription := Py.join (Py.str " ") (map seg_text (segments r));
               language := lang;
               processing_time :=
                 round (sub (time_time E w') (time_time E w3)) 3;
               audio_duration := round total 2;
               segments_count := Z.of_nat (length (segments r));
               segments := segments r;
               request_id := rid |})).
Proof.
  intros H main. unfold transcribe_large in H. fold main in H.
  apply mbind_inv in H as (w1 & wv & Hr & H).
  apply try_except_inv, call_inv in Hr.
  apply mbind_inv in H as (w2 & tss & Hv & H).
  apply call_inv in Hv.
  exists w1, wv, w2, tss. split; [done|]. split; [done|].
  destruct tss as [|ts tss]; [left; done|]. right. split; [done|].
  apply mbind_inv in H as (w3 & [data sr] & Hd & H).
  apply call_inv in Hd.
  apply mbind_inv in H as (w4 & [paths metas] & Hc & H).
  apply lift_inv in Hc as [-> Hc].
  apply mbind_inv in H as (w5 & start & Hs & H).
  apply clock_inv in Hs as [-> ->].
  apply mbind_inv in H as (w6 & [texts pt] & Ha & H).
  apply try_except_inv in Ha.
  apply mbind_inv in Ha as (w7 & texts' & Hp & Ha).
  apply call_inv in Hp.
  apply mbind_inv in Ha as (w8 & stop & Hk & Ha).
  apply clock_inv in Hk as [-> ->].
  apply ret_inv in Ha as [-> [= -> ->]].
  apply mbind_inv in H as (w9 & [segs parts] & Hcomb & H).
  apply lift_inv in Hcomb as [-> Hcomb].
  apply mbind_inv in H as (w10 & total & Ht & H).
  apply lift_inv in Ht as [-> Ht].
  apply ret_inv in H as [-> ->].
  pose proof (cut_chunks_meta _ _ _ _ _ _ _ Hc) as [Hm Hl].
  simpl app in Hm. subst metas. simpl in Hl.
  exists w3, data, sr, paths, texts', total. simpl segments.
  assert (Hparts : parts = map seg_text segs).
  { apply combine_results_ok in Hcomb as [-> ->]. simpl.
    by rewrite map_map. }
  subst parts. repeat split; done.
Qed.

End Facts.
End OmniFacts.

Module EndpointFacts.
Import Float64 Float64Facts Omni OmniFacts.

Section Facts.
Context {World sample wav : Type}.
Variable E : Collaborators World sample wav.
Implicit Types (w : World).

(** *** How a raised exception came about *)





(** *** The request id *)

Lemma generate_request_id_world content w w' out :
  generate_request_id E content w = (w', out) -> w' = w.
Proof.
  unfold generate_request_id, mbind, clock, lift, ret, Py.Ok.
  cbv beta iota.
  destruct (int_of_mul 1000 (time_time E w)); intros H;
    apply (f_equal fst) in H; exact (eq_sym H).
Qed.




(** *** The guards of a route *)


Lemma route_ok {A} limit key (body : M A) w w1 b :
  verify_api_key E key = Py.Ok b ->
  limiter_hit E w limit = (w1, inr tt) ->
  route E limit key body w = body w1.
Proof.
  intros Hk Hl. unfold route.
  rewrite (mbind_ok _ _ w w b) by (by apply lift_ok).
  by rewrite (mbind_ok _ _ w w1 tt) by (by apply call_ok).
Qed.

Lemma route_inv {A} limit key (body : M A) w w' a :
  route E limit key body w = (w', inr a) ->
  exists b w1,
    verify_api_key E key = Py.Ok b /\
    limiter_hit E w limit = (w1, inr tt) /\
    body w1 = (w', inr a).
Proof.
  unfold route. intros H.
  apply mbind_inv in H as (w0 & b & Hk & H).
  apply lift_inv in Hk as [-> Hk].
  apply mbind_inv in H as (w1 & [] & Hl & H).
  apply call_inv in Hl. eauto.
Qed.


(** *** Remote calls *)

Lemma remote_ok {A} (method : M A) w w1 :
  modal_remote E w = (w1, inr tt) -> remote E method w = method w1.
Proof.
  intros H. unfold remote.
  by rewrite (mbind_ok _ _ w w1 tt) by (by apply call_ok).
Qed.


Lemma remote_inv {A} (method : M A) w w' a :
  remote E method w = (w', inr a) ->
  exists w1, modal_remote E w = (w1, inr tt) /\ method w1 = (w', inr a).
Proof.
  unfold remote. intros H.
  apply mbind_inv in H as (w1 & [] & Hc & H). apply call_inv in Hc. eauto.
Qed.


(** *** The first lines of the POST endpoints *)

Lemma validate_request_inv content filename lang w w' rid :
  validate_request E content filename lang w = (w', inr rid) ->
  generate_request_id E content w = (w, inr rid) /\
  validate_file_size (Z.of_nat (length content)) = Py.Ok tt /\
  validate_file_type E content (Py.or_default filename (Py.str "audio"))
  = Py.Ok tt /\
  modal_remote E w = (w', inr tt) /\
  validate_language E lang = true.
Proof.
  unfold validate_request. intros H.
  apply mbind_inv in H as (w1 & rid' & Hid & H).
  pose proof (generate_request_id_world _ _ _ _ Hid) as ->.
  apply mbind_inv in H as (w2 & [] & Hs & H). apply lift_inv in Hs as [-> Hs].
  apply mbind_inv in H as (w3 & [] & Ht & H). apply lift_inv in Ht as [-> Ht].
  apply mbind_inv in H as (w4 & valid & Hr & H).
  apply remote_inv in Hr as (w5 & Hr & Hv). apply ret_inv in Hv as [-> ->].
  destruct (validate_language E lang) eqn:Hl; cbn [negb] in H.
  - apply ret_inv in H as [-> ->]. repeat split; assumption.
  - unfold lift in H. by injection H.
Qed.

Lemma validate_request_ok content filename lang w w1 rid :
  generate_request_id E content w = (w, inr rid) ->
  validate_file_size (Z.of_nat (length content)) = Py.Ok tt ->
  validate_file_type E content (Py.or_default filename (Py.str "audio"))
  = Py.Ok tt ->
  modal_remote E w = (w1, inr tt) ->
  validate_language E lang = true ->
  validate_request E content filename lang w = (w1, inr rid).
Proof.
  intros Hid Hs Ht Hr Hl. unfold validate_request.
  rewrite (mbind_ok _ _ _ _ _ Hid).
  rewrite (mbind_ok _ _ w w tt) by (by apply lift_ok).
  rewrite (mbind_ok _ _ w w tt) by (by apply lift_ok).
  rewrite (mbind_ok _ _ w w1 true).
  2:{ rewrite (remote_ok _ _ _ Hr). unfold ret. by rewrite Hl. }
  reflexivity.
Qed.

End Facts.
End EndpointFacts.

Module OmniProperties.
Import Float64 Float64Facts Omni OmniFacts EndpointFacts.

Section Ordering.

Lemma meta_of_start_mono a b :
  ts_start a <= ts_start b -> (md_start (meta_of a) <= md_start (meta_of b))%Q.
Proof. intros H. simpl. by apply b64_mono, Qmake_le_same. Qed.

Lemma meta_of_nonneg t :
  ts_start t <= ts_end t -> (md_start (meta_of t) <= md_end (meta_of t))%Q.
Proof. intros H. simpl. by apply b64_mono, Qmake_le_same. Qed.

Lemma StronglySorted_map {A B} (R : A -> A -> Prop) (R' : B -> B -> Prop)
    (f : A -> B) (l : list A) :
  (forall x y, R x y -> R' (f x) (f y)) ->
  StronglySorted R l -> StronglySorted R' (map f l).
Proof.
  intros Hf. induction 1 as [|x l Hl IH Hx]; simpl; constructor; [done|].
  apply Forall_forall. intros y Hy. rewrite Forall_forall in Hx.
  apply list_elem_of_fmap in Hy as (z & -> & Hz). by apply Hf, Hx.
Qed.

Lemma retained_fst_sublist metas texts :
  map fst (retained metas texts) `sublist_of` metas.
Proof.
  unfold retained. generalize (map Py.strip texts). intros xs.
  revert xs. induction metas as [|m metas IH]; intros [|x xs]; simpl;
    try apply sublist_nil_l.
  rewrite filter_cons. case_decide; simpl.
  - apply sublist_skip, IH.
  - apply sublist_cons, IH.
Qed.

Lemma retained_nonempty metas texts :
  Forall (fun p => snd p <> []) (retained metas texts).
Proof.
  unfold retained. apply Forall_forall. intros p Hp.
  by apply list_elem_of_filter in Hp as [Hp _].
Qed.

Lemma segments_of_retained_ordered tss texts :
  vad_contract tss ->
  segments_ordered (map segment_of (retained (map meta_of tss) texts)) /\
  segments_nonnegative (map segment_of (retained (map meta_of tss) texts)).
Proof.
  intros [Hso Hnn].
  set (kept := retained (map meta_of tss) texts).
  pose proof (retained_fst_sublist (map meta_of tss) texts) as Hsub.
  fold kept in Hsub.
  assert (Hms : StronglySorted (fun a b => (md_start a <= md_start b)%Q)
                  (map meta_of tss)).
  { eapply StronglySorted_map; [|exact Hso]. apply meta_of_start_mono. }
  assert (Hmn : Forall (fun m => (md_start m <= md_end m)%Q) (map meta_of tss)).
  { apply Forall_fmap. eapply Forall_impl; [exact Hnn|].
    intros t Ht. by apply meta_of_nonneg. }
  split.
  - unfold segments_ordered.
    assert (Hk : StronglySorted (fun a b => (md_start a <= md_start b)%Q)
                   (map fst kept)).
    { eapply CacheFacts.StronglySorted_sublist_of; eauto. }
    clear -Hk. induction kept as [|p kept IH]; simpl; [constructor|].
    simpl in Hk. apply StronglySorted_cons in Hk as [Hf Hk].
    constructor; [by apply IH|].
    apply Forall_forall. intros s Hs. rewrite Forall_forall in Hf.
    apply list_elem_of_fmap in Hs as (q & -> & Hq). simpl.
    apply round_mono, Hf. apply list_elem_of_fmap. eauto.
  - unfold segments_nonnegative. apply Forall_fmap, Forall_forall.
    intros p Hp. simpl. apply round_mono.
    rewrite Forall_forall in Hmn. apply Hmn.
    eapply elem_of_sublist; [|exact Hsub].
    apply list_elem_of_fmap. eauto.
Qed.

End Ordering.

Section Stripping.

Lemma lstrip_prefix s :
  exists l, s = l ++ Py.lstrip s /\ Forall (fun c => Py.isspace c = true) l.
Proof.
  induction s as [|c s (l & Hs & Hl)]; [by exists []|]. simpl.
  destruct (Py.isspace c) eqn:Hc.
  - exists (c :: l). split; [by rewrite Hs at 1|by constructor].
  - by exists [].
Qed.

Lemma lstrip_head s c : head (Py.lstrip s) = Some c -> Py.isspace c = false.
Proof.
  induction s as [|x s IH]; simpl; [done|].
  destruct (Py.isspace x) eqn:Hx; [done|]. simpl. by intros [= <-].
Qed.

Lemma lstrip_nil s : Py.lstrip s = [] <-> blank s = true.
Proof.
  unfold blank. induction s as [|x s IH]; simpl; [done|].
  destruct (Py.isspace x); simpl; [done|]. split; discriminate.
Qed.

Lemma last_rev (s : Py.pystr) : last (rev s) = head s.
Proof. destruct s as [|x s]; [done|]. simpl. by rewrite last_snoc. Qed.

Lemma rstrip_suffix s :
  exists r, s = Py.rstrip s ++ r /\ Forall (fun c => Py.isspace c = true) r.
Proof.
  unfold Py.rstrip. destruct (lstrip_prefix (rev s)) as (l & Hs & Hl).
  exists (rev l). split.
  - rewrite <- rev_app_distr, <- Hs. by rewrite rev_involutive.
  - apply Forall_forall. intros c Hc. rewrite Forall_forall in Hl.
    apply Hl, list_elem_of_In, (proj2 (in_rev l c)).
    by apply list_elem_of_In.
Qed.

Lemma rstrip_last s c : last (Py.rstrip s) = Some c -> Py.isspace c = false.
Proof. unfold Py.rstrip. rewrite last_rev. apply lstrip_head. Qed.

Lemma rstrip_head s c : head (Py.rstrip s) = Some c -> head s = Some c.
Proof.
  destruct (rstrip_suffix s) as (r & Hs & _).
  destruct (Py.rstrip s) as [|x t]; [done|]. simpl. intros [= <-].
  by rewrite Hs.
Qed.

Lemma forallb_isspace_app (a b : Py.pystr) :
  forallb Py.isspace (a ++ b) = forallb Py.isspace a && forallb Py.isspace b.
Proof. apply forallb_app. Qed.

Lemma Forall_isspace_blank (l : Py.pystr) :
  Forall (fun c => Py.isspace c = true) l -> blank l = true.
Proof. intros H. unfold blank. apply forallb_forall. intros c Hc.
  rewrite Forall_forall in H. by apply H, list_elem_of_In. Qed.

(** [strip] removes the whitespace at both ends and nothing else. *)
Lemma strip_stripped_of s : stripped_of s (Py.strip s).
Proof.
  unfold Py.strip. destruct (lstrip_prefix s) as (l & Hs & Hl).
  destruct (rstrip_suffix (Py.lstrip s)) as (r & Hr & Hrs).
  exists l, r. repeat split; try done.
  - by rewrite <- Hr.
  - intros c Hc. by apply rstrip_head, lstrip_head in Hc.
  - apply rstrip_last.
Qed.

(** A text strips to nothing exactly when it is blank. *)
Lemma strip_nil s : Py.strip s = [] <-> blank s = true.
Proof.
  unfold Py.strip. destruct (lstrip_prefix s) as (l & Hs & Hl).
  destruct (rstrip_suffix (Py.lstrip s)) as (r & Hr & Hrs).
  split.
  - intros H. rewrite H in Hr. simpl in Hr.
    rewrite Hs, Hr. unfold blank. rewrite forallb_isspace_app.
    apply andb_true_iff. split; by apply Forall_isspace_blank.
  - intros H. apply lstrip_nil in H. by rewrite H.
Qed.

Lemma retained_spoken metas texts :
  retained metas texts
  = map (fun p => (fst p, Py.strip (snd p))) (spoken metas texts).
Proof.
  unfold retained, spoken. revert texts.
  induction metas as [|m metas IH]; intros [|t texts]; simpl; try done.
  rewrite !filter_cons. simpl.
  destruct (blank t) eqn:Hb.
  - rewrite decide_False by (intros H; by apply H, strip_nil).
    rewrite decide_False by done. apply IH.
  - rewrite decide_True.
    2:{ intros H. apply strip_nil in H. congruence. }
    rewrite decide_True by done. simpl. by rewrite IH.
Qed.

End Stripping.

Section Paths.
Context {World sample wav : Type}.
Variable E : Collaborators World sample wav.

(** C2. When the decoder reads the file and the VAD then returns no span,
    the chunked path is the whole-file path, run from the state of the
    world the VAD left: the same result (transcription, language,
    processing time, audio duration, one segment, request id) or the same
    exception. *)
Theorem transcribe_large_falls_back (audio : Py.bytes)
    (filename lang rid : Py.pystr) (w w1 w2 : World) (wv : wav) :
  read_audio E w (TempFile (Py.splitext_ext filename) audio) = (w1, inr wv) ->
  get_speech_timestamps E w1 wv = (w2, inr []) ->
  transcribe_large E audio filename lang rid w
  = transcribe E audio filename lang rid w2.
Proof.
  intros Hr Hv. unfold transcribe_large.
  rewrite (mbind_ok _ _ w w1 wv) by (apply try_except_ok, call_ok, Hr).
  rewrite (mbind_ok _ _ w1 w2 []) by (apply call_ok, Hv).
  reflexivity.
Qed.

(** What the chunked path returns when every collaborator answers and the
    engine returns at most one text per chunk. *)
Lemma transcribe_large_chunked (audio : Py.bytes)
    (filename lang rid : Py.pystr) (w w1 w2 w3 w4 : World) (wv : wav)
    (tss : list SpeechTimestamp) (data : list sample) (sr : Z)
    (paths : list (audio_input sample)) (metas : list ChunkMeta)
    (texts : list Py.pystr) (total : float) :
  read_audio E w (TempFile (Py.splitext_ext filename) audio) = (w1, inr wv) ->
  get_speech_timestamps E w1 wv = (w2, inr tss) ->
  tss <> [] ->
  sf_read E w2 (TempFile (Py.splitext_ext filename) audio)
  = (w3, inr (data, sr)) ->
  cut_chunks data sr tss [] [] = Py.Ok (paths, metas) ->
  pipeline_transcribe E w3 paths (repeat lang (length paths)) (Some 4)
  = (w4, inr texts) ->
  (length texts <= length paths)%nat ->
  int_truediv (Z.of_nat (length data)) sr = Py.Ok total ->
  let kept := retained metas texts in
  transcribe_large E audio filename lang rid w
  = (w4, inr {| transcription := Py.join (Py.str " ") (map snd kept);
                language := lang;
                processing_time :=
                  round (sub (time_time E w4) (time_time E w3)) 3;
                audio_duration := round total 2;
                segments_count := Z.of_nat (length kept);
                segments := map segment_of kept;
                request_id := rid |}).
Proof.
  intros Hr Hv Hne Hd Hc Hp Hlen Ht kept.
  pose proof (cut_chunks_meta _ _ _ _ _ _ _ Hc) as [Hm Hl].
  simpl in Hm, Hl.
  unfold transcribe_large.
  rewrite (mbind_ok _ _ w w1 wv) by (apply try_except_ok, call_ok, Hr).
  rewrite (mbind_ok _ _ w1 w2 tss) by (apply call_ok, Hv).
  destruct tss as [|ts tss']; [done|].
  rewrite (mbind_ok _ _ w2 w3 (data, sr)) by (apply call_ok, Hd).
  rewrite (mbind_ok _ _ w3 w3 (paths, metas)) by (by apply lift_ok).
  rewrite (mbind_ok _ _ w3 w3 (time_time E w3)) by reflexivity.
  rewrite (mbind_ok _ _ w3 w4
             (texts, sub (time_time E w4) (time_time E w3))).
  2:{ apply try_except_ok.
      rewrite (mbind_ok _ _ w3 w4 texts) by (apply call_ok, Hp).
      by rewrite (mbind_ok _ _ w4 w4 (time_time E w4)). }
  rewrite (mbind_ok _ _ w4 w4 (map segment_of kept, map snd kept)).
  2:{ apply lift_ok. rewrite combine_results_spec.
      - by rewrite drop_0.
      - rewrite drop_0, Hm, length_map. lia. }
  rewrite (mbind_ok _ _ w4 w4 total) by (by apply lift_ok).
  unfold ret. by rewrite length_map.
Qed.

(** C7, as the code keeps it.  On the chunked path, when the engine
    returns one text per chunk (or fewer texts than chunks, which then
    stand for the first chunks), the result has one segment for every
    chunk whose text is not blank, in the order of the chunks, and none for
    the others: the text of the segment is the engine's text without the
    whitespace at its two ends (and is not empty), and its times are those
    of its chunk rounded to three decimals.  The transcription is the
    segment texts joined by one space and [segments_count] is the number of
    chunks kept. *)
Theorem chunked_path_drops_empty_texts (audio : Py.bytes)
    (filename lang rid : Py.pystr) (w w1 w2 w3 w4 : World) (wv : wav)
    (tss : list SpeechTimestamp) (data : list sample) (sr : Z)
    (paths : list (audio_input sample)) (metas : list ChunkMeta)
    (texts : list Py.pystr) (total : float) :
  read_audio E w (TempFile (Py.splitext_ext filename) audio) = (w1, inr wv) ->
  get_speech_timestamps E w1 wv = (w2, inr tss) ->
  tss <> [] ->
  sf_read E w2 (TempFile (Py.splitext_ext filename) audio)
  = (w3, inr (data, sr)) ->
  cut_chunks data sr tss [] [] = Py.Ok (paths, metas) ->
  pipeline_transcribe E w3 paths (repeat lang (length paths)) (Some 4)
  = (w4, inr texts) ->
  (length texts <= length paths)%nat ->
  int_truediv (Z.of_nat (length data)) sr = Py.Ok total ->
  let kept := spoken metas texts in
  exists r,
    transcribe_large E audio filename lang rid w = (w4, inr r) /\
    Forall2 (fun p s =>
               stripped_of (snd p) (seg_text s) /\
               seg_text s <> [] /\
               seg_start s = round (md_start (fst p)) 3 /\
               seg_end s = round (md_end (fst p)) 3)
            kept (segments r) /\
    transcription r = Py.join (Py.str " ") (map seg_text (segments r)) /\
    segments_count r = Z.of_nat (length kept) /\
    map fst kept `sublist_of` metas /\
    language r = lang /\
    request_id r = rid /\
    audio_duration r = round total 2 /\
    processing_time r = round (sub (time_time E w4) (time_time E w3)) 3.
Proof.
  intros Hr Hv Hne Hd Hc Hp Hlen Ht kept.
  eexists. split.
  { by eapply transcribe_large_chunked. }
  rewrite retained_spoken. fold kept. cbn [segments transcription
    segments_count language request_id audio_duration processing_time].
  repeat split.
  - rewrite <- list_fmap_compose. apply Forall2_fmap_r, Forall_Forall2_diag.
    apply Forall_forall. intros [md t] Hk. simpl.
    apply list_elem_of_filter in Hk as [Hb _]. simpl in Hb.
    repeat split; try done.
    + apply strip_stripped_of.
    + intros Hs. apply strip_nil in Hs. congruence.
  - by rewrite !map_map.
  - by rewrite length_map.
  - unfold kept, spoken. clear. revert texts.
    induction metas as [|m metas IH]; intros [|t texts]; simpl;
      try apply sublist_nil_l.
    rewrite filter_cons. case_decide; simpl.
    + apply sublist_skip, IH.
    + apply sublist_cons, IH.
Qed.

(** What holds of every result.  Given a decoder that reports no negative
    duration and a VAD that keeps its contract, every result of either
    path has its segments in ascending order of [start], no segment ending
    before it starts, [segments_count] equal to the number of segments, and
    the transcription equal to the segment texts joined by one space. *)
Theorem results_are_well_formed :
  (forall w f w' d, librosa_get_duration E w f = (w', inr d) -> (0 <= d)%Q) ->
  (forall w wv w' tss,
     get_speech_timestamps E w wv = (w', inr tss) -> vad_contract tss) ->
  forall (path : Py.bytes -> Py.pystr -> Py.pystr -> Py.pystr ->
                 M TranscriptionResult),
    path = transcribe E \/ path = transcribe_large E ->
    forall audio filename lang rid w w' r,
      path audio filename lang rid w = (w', inr r) ->
      segments_ordered (segments r) /\
      segments_nonnegative (segments r) /\
      count_matches r /\
      text_is_joined r.
Proof.
  intros Hdur Hvad.
  assert (Hwhole : forall audio filename lang rid w w' r,
             transcribe E audio filename lang rid w = (w', inr r) ->
             segments_ordered (segments r) /\
             segments_nonnegative (segments r) /\
             count_matches r /\ text_is_joined r).
  { intros audio filename lang rid w w' r H.
    apply transcribe_inv in H as (w1 & d & texts & text & Hd & _ & _ & ->).
    apply Hdur in Hd.
    unfold segments_ordered, segments_nonnegative, count_matches,
      text_is_joined. simpl.
    repeat split; repeat constructor. simpl. by apply round_nonneg. }
  intros path [->| ->] audio filename lang rid w w' r H; [by eapply Hwhole|].
  apply transcribe_large_inv in H
    as (w1 & wv & w2 & tss & _ & Hv & [[_ H]|[_ H]]); [by eapply Hwhole|].
  destruct H as (w3 & data & sr & paths & texts & total
                 & _ & _ & _ & _ & Hcomb & _ & Hr).
  apply Hvad in Hv.
  apply combine_results_ok in Hcomb as [Hsegs _].
  simpl in Hsegs. rewrite drop_0 in Hsegs.
  destruct (segments_of_retained_ordered tss texts Hv) as [Ho Hn].
  rewrite <- Hsegs in Ho, Hn.
  unfold count_matches, text_is_joined.
  repeat split; [done|done|by rewrite Hr|by rewrite Hr].
Qed.

Lemma round_small_is_zero d : (0 <= d)%Q -> (d <= 1 # 200)%Q -> round d 2 = 0%Q.
Proof.
  intros H0 H1.
  assert (Hk : rne_scaled d 2 = 0).
  { pose proof (rne_scaled_mono _ _ 2 H0) as Ha.
    pose proof (rne_scaled_mono _ _ 2 H1) as Hb.
    change (rne_scaled 0 2) with 0 in Ha.
    change (rne_scaled (1 # 200) 2) with 0 in Hb. lia. }
  unfold round. rewrite Hk. vm_compute. reflexivity.
Qed.

(** C5 fails on the whole-file path.  For every upload whose decoded
    duration is at most 5 ms, once the engine answers, [transcribe]
    returns a result whose single segment starts and ends at 0.0: [end >
    start] does not hold, although a test of the repository states it of
    every segment. *)
Theorem short_clip_gives_segment_without_length (audio : Py.bytes)
    (filename lang rid : Py.pystr) (w w1 w2 : World) (d : float)
    (text : Py.pystr) (rest : list Py.pystr) :
  let tmp := TempFile (Py.splitext_ext filename) audio in
  librosa_get_duration E w tmp = (w1, inr d) ->
  (0 <= d)%Q -> (d <= 1 # 200)%Q ->
  pipeline_transcribe E w1 [tmp] [lang] None = (w2, inr (text :: rest)) ->
  exists r,
    transcribe E audio filename lang rid w = (w2, inr r) /\
    segments r = [ {| seg_start := 0%Q; seg_end := 0%Q; seg_text := text |} ] /\
    audio_duration r = 0%Q /\
    ~ segments_positive (segments r).
Proof.
  intros tmp Hd H0 H1 Hp. eexists. split.
  { unfold transcribe. fold tmp.
    rewrite (mbind_ok _ _ w w1 d) by (by apply try_except_ok, call_ok).
    rewrite (mbind_ok _ _ w1 w1 (time_time E w1)) by reflexivity.
    rewrite (mbind_ok _ _ w1 w2
               (text :: rest, sub (time_time E w2) (time_time E w1))).
    2:{ apply try_except_ok.
        rewrite (mbind_ok _ _ w1 w2 (text :: rest)) by (by apply call_ok).
        by rewrite (mbind_ok _ _ w2 w2 (time_time E w2)). }
    reflexivity. }
  cbn [segments audio_duration]. rewrite (round_small_is_zero d H0 H1).
  split; [done|]. split; [done|].
  intros H. apply Forall_cons in H as [H _]. cbn [seg_start seg_end] in H.
  by apply Qlt_irrefl in H.
Qed.

Section Logged.
Variable log : World -> list collaborator.
Hypothesis Hlog : logged E log.

Lemma logged_limiter w limit w' out :
  limiter_hit E w limit = (w', out) -> log w' = log w ++ [Limiter].
Proof. intros H. by rewrite <- (log_limiter E log Hlog w limit), H. Qed.

Lemma logged_remote w w' out :
  modal_remote E w = (w', out) -> log w' = log w ++ [Remote].
Proof. intros H. by rewrite <- (log_remote E log Hlog w), H. Qed.

Lemma logged_duration w f w' out :
  librosa_get_duration E w f = (w', out) -> log w' = log w ++ [Duration].
Proof. intros H. by rewrite <- (log_duration E log Hlog w f), H. Qed.

Lemma logged_read_audio w f w' out :
  read_audio E w f = (w', out) -> log w' = log w ++ [ReadAudio].
Proof. intros H. by rewrite <- (log_read_audio E log Hlog w f), H. Qed.

Lemma logged_vad w wv w' out :
  get_speech_timestamps E w wv = (w', out) -> log w' = log w ++ [Vad].
Proof. intros H. by rewrite <- (log_vad E log Hlog w wv), H. Qed.

Lemma logged_sf_read w f w' out :
  sf_read E w f = (w', out) -> log w' = log w ++ [SfRead].
Proof. intros H. by rewrite <- (log_sf_read E log Hlog w f), H. Qed.

Lemma logged_engine w paths langs bs w' out :
  pipeline_transcribe E w paths langs bs = (w', out) ->
  log w' = log w ++ [Engine].
Proof. intros H. by rewrite <- (log_engine E log Hlog w paths langs bs), H. Qed.

End Logged.

(** C1, as the code behaves.  [transcribe_large_file] has no cache on its
    way: whatever was answered or stored before, a request that is
    answered with a result has made, during that very request and in this
    order, the limiter's check, the remote call that validates the
    language, the remote call of [transcribe_large], the decoding for the
    VAD, the VAD, and then either the duration probe and one engine call
    (no speech found) or the reading of the frames and one engine call
    (chunked); and the result is the one [transcribe_large] computed in
    that remote call. *)
Theorem every_answer_runs_vad_and_engine (log : World -> list collaborator)
    (x_api_key : option Py.pystr) (content : Py.bytes)
    (filename : option Py.pystr) (lang : Py.pystr) (w w' : World)
    (r : TranscriptionResult) :
  logged E log ->
  transcribe_large_file E x_api_key content filename lang w = (w', inr r) ->
  (exists w3 rid,
     log w3 = log w ++ [Limiter; Remote; Remote] /\
     transcribe_large E content (Py.or_default filename (Py.str "audio.wav"))
       lang rid w3 = (w', inr r)) /\
  (log w' = log w ++ [Limiter; Remote; Remote; ReadAudio; Vad; Duration; Engine] \/
   log w' = log w ++ [Limiter; Remote; Remote; ReadAudio; Vad; SfRead; Engine]).
Proof.
  intros Hlog H. unfold transcribe_large_file in H.
  apply route_inv in H as (b & w1 & _ & Hlim & H).
  apply mbind_inv in H as (w2 & rid & Hval & H).
  apply validate_request_inv in Hval as (_ & _ & _ & Hrem1 & _).
  apply try_except_inv, remote_inv in H as (w3 & Hrem2 & H).
  apply (logged_limiter log Hlog) in Hlim.
  apply (logged_remote log Hlog) in Hrem1, Hrem2.
  split.
  { exists w3, rid. split; [|exact H].
    rewrite Hrem2, Hrem1, Hlim. by rewrite <- !app_assoc. }
  apply transcribe_large_inv in H as (w4 & wv & w5 & tss & Hra & Hvad & H).
  apply (logged_read_audio log Hlog) in Hra.
  apply (logged_vad log Hlog) in Hvad.
  destruct H as [[_ H]|[_ H]].
  - left. apply transcribe_inv in H as (w6 & d & texts & text & Hd & Hp & _).
    apply (logged_duration log Hlog) in Hd.
    apply (logged_engine log Hlog) in Hp.
    rewrite Hp, Hd, Hvad, Hra, Hrem2, Hrem1, Hlim.
    by rewrite <- !app_assoc.
  - right. destruct H as (w6 & data & sr & paths & texts & total
                          & Hsf & _ & _ & Hp & _).
    apply (logged_sf_read log Hlog) in Hsf.
    apply (logged_engine log Hlog) in Hp.
    rewrite Hp, Hsf, Hvad, Hra, Hrem2, Hrem1, Hlim.
    by rewrite <- !app_assoc.
Qed.

End Paths.

(** *** Runs on the fixture *)

Lemma transcribe_large_falls_back_witness :
  let E := Fixture.collaborators 5%Q [] 80 16 [Py.str "hello world"] in
  transcribe_large E [Byte.x52] (Py.str "a.wav") (Py.str "eng_Latn")
    (Py.str "id") 0%nat
  = transcribe E [Byte.x52] (Py.str "a.wav") (Py.str "eng_Latn")
      (Py.str "id") 1%nat.
Proof.
  intros E.
  exact (transcribe_large_falls_back E [Byte.x52] (Py.str "a.wav")
           (Py.str "eng_Latn") (Py.str "id") 0%nat 0%nat 1%nat tt
           eq_refl eq_refl).
Defined.

Lemma chunked_path_drops_empty_texts_witness :
  let E := Fixture.collaborators 4%Q
             [mkTs 0 8000; mkTs 24000 40000; mkTs 48000 56000] 56 16
             [Py.str "  hi "; [32; 9; 10]%N; Py.str "bye" ++ [10%N]] in
  exists w r,
    transcribe_large E [Byte.x52] (Py.str "a.wav") (Py.str "eng_Latn")
      (Py.str "id") 0%nat = (w, inr r) /\
    transcription r = Py.str "hi bye" /\
    segments_count r = 2 /\
    map (fun s => (seg_start s, seg_end s, seg_text s)) (segments r)
    = [(0%Q, 1 # 2, Py.str "hi"); (3%Q, 7 # 2, Py.str "bye")] /\
    map (fun ts => (md_start (meta_of ts), md_end (meta_of ts)))
        [mkTs 0 8000; mkTs 48000 56000]
    = [(0%Q, 1 # 2); (3%Q, 7 # 2)].
Proof.
  intros E.
  destruct (chunked_path_drops_empty_texts E [Byte.x52] (Py.str "a.wav")
              (Py.str "eng_Latn") (Py.str "id") 0%nat 0%nat 1%nat 1%nat 2%nat
              tt [mkTs 0 8000; mkTs 24000 40000; mkTs 48000 56000]
              (seq 0 56) 16
              [ChunkFile (Py.slice (seq 0 56) 0 8) 16;
               ChunkFile (Py.slice (seq 0 56) 24 40) 16;
               ChunkFile (Py.slice (seq 0 56) 48 56) 16]
              (map meta_of [mkTs 0 8000; mkTs 24000 40000; mkTs 48000 56000])
              [Py.str "  hi "; [32; 9; 10]%N; Py.str "bye" ++ [10%N]]
              (7 # 2)%Q)
    as (r & Hrun & _).
  - reflexivity.
  - reflexivity.
  - discriminate.
  - reflexivity.
  - vm_compute. reflexivity.
  - reflexivity.
  - reflexivity.
  - vm_compute. reflexivity.
  - exists 2%nat, r. split; [exact Hrun|].
    assert (Hr : { r' | transcribe_large E [Byte.x52] (Py.str "a.wav")
                          (Py.str "eng_Latn") (Py.str "id") 0%nat
                        = (2%nat, inr r') /\
                        transcription r' = Py.str "hi bye" /\
                        segments_count r' = 2 /\
                        map (fun s => (seg_start s, seg_end s, seg_text s))
                            (segments r')
                        = [(0%Q, 1 # 2, Py.str "hi");
                           (3%Q, 7 # 2, Py.str "bye")] /\
                        map (fun ts => (md_start (meta_of ts),
                                        md_end (meta_of ts)))
                            [mkTs 0 8000; mkTs 48000 56000]
                        = [(0%Q, 1 # 2); (3%Q, 7 # 2)] }).
    { eexists. split; [vm_compute; reflexivity|]. vm_compute. repeat split. }
    destruct Hr as (r' & Hrun' & Hfacts).
    rewrite Hrun in Hrun'. injection Hrun' as ->. exact Hfacts.
Defined.

Lemma results_are_well_formed_witness :
  let E := Fixture.collaborators 4%Q
             [mkTs 0 8000; mkTs 24000 40000] 56 16
             [Py.str "hi"; Py.str "bye"] in
  exists w r,
    transcribe_large E [Byte.x52] (Py.str "a.wav") (Py.str "eng_Latn")
      (Py.str "id") 0%nat = (w, inr r) /\
    segments_ordered (segments r) /\ segments_nonnegative (segments r) /\
    count_matches r /\ text_is_joined r.
Proof.
  intros E.
  assert (Hrun : { out | transcribe_large E [Byte.x52] (Py.str "a.wav")
                           (Py.str "eng_Latn") (Py.str "id") 0%nat
                         = (fst out, inr (snd out)) }).
  { eexists (_, _). vm_compute. reflexivity. }
  destruct Hrun as [[w r] Hrun]. simpl in Hrun.
  exists w, r. split; [exact Hrun|].
  apply (results_are_well_formed E) with (path := transcribe_large E)
    (audio := [Byte.x52]) (filename := Py.str "a.wav")
    (lang := Py.str "eng_Latn") (rid := Py.str "id") (w := 0%nat) (w' := w).
  - intros ? ? ? ? [= _ <-]. done.
  - intros ? ? ? ? [= _ <-]. split; repeat constructor; simpl; lia.
  - by right.
  - exact Hrun.
Defined.

Lemma short_clip_gives_segment_without_length_witness :
  let E := Fixture.collaborators (1 # 256) [] 125 32000 [Py.str "hello"] in
  exists r,
    transcribe E [Byte.x52] (Py.str "clip.wav") (Py.str "eng_Latn")
      (Py.str "id") 0%nat = (1%nat, inr r) /\
    segments r = [ {| seg_start := 0%Q; seg_end := 0%Q;
                      seg_text := Py.str "hello" |} ] /\
    audio_duration r = 0%Q /\
    ~ segments_positive (segments r).
Proof.
  intros E.
  refine (short_clip_gives_segment_without_length E [Byte.x52]
            (Py.str "clip.wav") (Py.str "eng_Latn") (Py.str "id")
            0%nat 0%nat 1%nat (1 # 256) (Py.str "hello") [] _ _ _ _).
  - reflexivity.
  - unfold Qle. simpl. lia.
  - unfold Qle. simpl. lia.
  - reflexivity.
Defined.

(** C7 as stated fails in its last part: a retained chunk does not keep
    its times unchanged.  The chunk of the span from sample 8 to sample 24
    has the times 0.0005 and 0.0015 (as floats); its segment has them
    rounded to three decimals, 0.001 and 0.002. *)
Lemma segment_times_are_rounded :
  let E := Fixture.collaborators 1%Q [mkTs 8 24] 100 16000 [Py.str "hi"] in
  exists c w r s,
    cut_chunk (seq 0 100) 16000 (mkTs 8 24) = Py.Ok c /\
    transcribe_large E [Byte.x52] (Py.str "a.wav") (Py.str "eng_Latn")
      (Py.str "id") 0%nat = (w, inr r) /\
    segments r = [s] /\
    md_start (snd c) = b64 (5 # 10000) /\ md_end (snd c) = b64 (15 # 10000) /\
    seg_start s = b64 (1 # 1000) /\ seg_end s = b64 (2 # 1000) /\
    seg_text s = Py.str "hi" /\
    ~ (seg_start s == md_start (snd c))%Q /\
    ~ (seg_end s == md_end (snd c))%Q.
Proof.
  intros E. eexists _, _, _, _.
  split; [vm_compute; reflexivity|].
  split; [vm_compute; reflexivity|].
  split; [reflexivity|].
  split; [vm_compute; reflexivity|].
  split; [vm_compute; reflexivity|].
  split; [vm_compute; reflexivity|].
  split; [vm_compute; reflexivity|].
  split; [reflexivity|].
  split; intros H; vm_compute in H; discriminate H.
Qed.

(** C1 as stated fails: with a live entry in the transcription cache for
    the very upload, language and mode, the endpoint still runs the VAD and
    the engine and returns their fresh result, not the cached one. *)
Lemma cached_result_is_not_served :
  let E := Fixture.logging None 1%Q [mkTs 0 8000] 16 16 [Py.str "fresh"] in
  let cached := {| transcription := Py.str "cached";
                   language := Py.str "eng_Latn";
                   processing_time := 0%Q; audio_duration := 1%Q;
                   segments_count := 0; segments := [];
                   request_id := Py.str "old" |} in
  let mode := Py.str "large" in
  exists tc tc' r,
    Cache.tc_set (sha256_hexdigest E) (Cache.tc_init 50 3600) [Byte.x52]
      (Py.str "eng_Latn") mode cached 0%Q = Py.Ok tc /\
    Cache.tc_get (sha256_hexdigest E) tc [Byte.x52] (Py.str "eng_Latn") mode 0%Q
    = Py.Ok (Some cached, tc') /\
    transcribe_large_file E None [Byte.x52] (Some (Py.str "a.wav"))
      (Py.str "eng_Latn") []
    = ([Limiter; Remote; Remote; ReadAudio; Vad; SfRead; Engine], inr r) /\
    r <> cached /\
    transcription r = Py.str "fresh".
Proof.
  intros E cached mode. eexists _, _, _.
  split; [vm_compute; reflexivity|].
  split; [vm_compute; reflexivity|].
  split; [vm_compute; reflexivity|].
  split; [intros [=]|reflexivity].
Qed.

Lemma every_answer_runs_vad_and_engine_witness :
  let E := Fixture.logging None 5%Q [] 16 16 [Py.str "hello"] in
  exists w' r,
    transcribe_large_file E None [Byte.x52] (Some (Py.str "a.wav"))
      (Py.str "eng_Latn") [] = (w', inr r) /\
    (w' = [Limiter; Remote; Remote; ReadAudio; Vad; Duration; Engine] \/
     w' = [Limiter; Remote; Remote; ReadAudio; Vad; SfRead; Engine]).
Proof.
  intros E.
  assert (Hrun : { out | transcribe_large_file E None [Byte.x52]
                           (Some (Py.str "a.wav")) (Py.str "eng_Latn") []
                         = (fst out, inr (snd out)) }).
  { eexists (_, _). vm_compute. reflexivity. }
  destruct Hrun as [[w' r] Hrun]. simpl in Hrun.
  exists w', r. split; [exact Hrun|].
  refine (proj2 (every_answer_runs_vad_and_engine E (fun w => w) None
                   [Byte.x52] (Some (Py.str "a.wav")) (Py.str "eng_Latn")
                   [] w' r _ Hrun)).
  by constructor.
Defined.

End OmniProperties.

Module SegmentationProperties.
Import Float64 Float64Facts Omni OmniFacts.

(** Scenario 2 of the design document: at a native rate of 44100 Hz the
    spans (0, 8000) and (24000, 40000) are cut at frames 0, 22050, 66150
    and 110250, and carry the times 0.0, 0.5, 1.5 and 2.5. *)
Lemma cut_chunk_at_44100 {sample : Type} (data : list sample) :
  cut_chunk data 44100 (mkTs 0 8000)
  = Py.Ok (ChunkFile (Py.slice data 0 22050) 44100, mkMeta 0%Q (1 # 2)) /\
  cut_chunk data 44100 (mkTs 24000 40000)
  = Py.Ok (ChunkFile (Py.slice data 66150 110250) 44100,
           mkMeta (3 # 2) (5 # 2)).
Proof.
  assert (Hr : int_truediv 44100 16000 = Py.Ok (b64 (44100 # 16000)))
    by (vm_compute; reflexivity).
  assert (H0 : int_truediv 0 16000 = Py.Ok 0%Q) by (vm_compute; reflexivity).
  assert (H1 : int_truediv 8000 16000 = Py.Ok (1 # 2)) by (vm_compute; reflexivity).
  assert (H2 : int_truediv 24000 16000 = Py.Ok (3 # 2)) by (vm_compute; reflexivity).
  assert (H3 : int_truediv 40000 16000 = Py.Ok (5 # 2)) by (vm_compute; reflexivity).
  assert (M0 : int_of_mul 0 (b64 (44100 # 16000)) = Py.Ok 0)
    by (vm_compute; reflexivity).
  assert (M1 : int_of_mul 8000 (b64 (44100 # 16000)) = Py.Ok 22050)
    by (vm_compute; reflexivity).
  assert (M2 : int_of_mul 24000 (b64 (44100 # 16000)) = Py.Ok 66150)
    by (vm_compute; reflexivity).
  assert (M3 : int_of_mul 40000 (b64 (44100 # 16000)) = Py.Ok 110250)
    by (vm_compute; reflexivity).
  unfold cut_chunk. cbn [ts_start ts_end].
  rewrite Hr, H0, H1, H2, H3. cbn [Py.bind Py.Ok].
  rewrite M0, M1, M2, M3. split; reflexivity.
Qed.

(** C6 at a native rate of 37800 Hz: the span (400, 800) is cut at frames
    944 and 1889, one frame before [floor(400 * 37800 / 16000) = 945] and
    [floor(800 * 37800 / 16000) = 1890]; the times of the chunk are those
    of the span divided by 16000. *)
Theorem cut_chunk_at_37800 {sample : Type} (data : list sample) :
  cut_chunk data 37800 (mkTs 400 800)
  = Py.Ok (ChunkFile (Py.slice data 944 1889) 37800, meta_of (mkTs 400 800)) /\
  400 * 37800 / 16000 = 945 /\
  800 * 37800 / 16000 = 1890.
Proof.
  split; [|split; reflexivity].
  assert (Hr : int_truediv 37800 16000 = Py.Ok (b64 (37800 # 16000)))
    by (vm_compute; reflexivity).
  assert (H1 : int_truediv 400 16000 = Py.Ok (b64 (400 # 16000)))
    by (vm_compute; reflexivity).
  assert (H2 : int_truediv 800 16000 = Py.Ok (b64 (800 # 16000)))
    by (vm_compute; reflexivity).
  assert (M1 : int_of_mul 400 (b64 (37800 # 16000)) = Py.Ok 944)
    by (vm_compute; reflexivity).
  assert (M2 : int_of_mul 800 (b64 (37800 # 16000)) = Py.Ok 1889)
    by (vm_compute; reflexivity).
  unfold cut_chunk. cbn [ts_start ts_end].
  rewrite Hr, H1, H2. cbn [Py.bind Py.Ok].
  rewrite M1, M2. reflexivity.
Qed.

End SegmentationProperties.

Module MonitoringProperties.
Import Monitoring.

Lemma slice_from_neg_zero {A} (l : list A) : Py.slice_from l (- 0) = l.
Proof. unfold Py.slice_from, Py.slice_index. simpl. by rewrite Z.min_l by lia. Qed.

(** C8 at limit 0: the slice [[-0:]] is the whole list, so
    [get_recent_metrics] returns every record of the kind, and at least one
    once a request has been recorded. *)
Theorem get_recent_metrics_zero_returns_all (mc : MetricsCollector)
    (metric_type : Py.pystr) :
  get_recent_metrics mc metric_type 0 = default [] (metrics mc !! metric_type) /\
  forall timestamp endpoint method status_code duration,
    get_recent_metrics
      (record_request mc timestamp endpoint method status_code duration)
      (Py.str "requests") 0
    = default [] (metrics mc !! Py.str "requests") ++
      [RequestMetric timestamp endpoint method status_code duration].
Proof.
  split.
  - unfold get_recent_metrics. apply slice_from_neg_zero.
  - intros. unfold get_recent_metrics. rewrite slice_from_neg_zero.
    unfold record_request, increment, append_metric. cbn [metrics].
    by rewrite lookup_insert_eq.
Qed.

End MonitoringProperties.

Module CacheExtras.
Import OrderedDict OrderedDictFacts Cache CacheFacts Float64 Float64Facts.

Section Extras.
Context {V : Type}.
Implicit Types (c : LRUCache V) (k key : Py.pystr) (v : V) (now : float).

(** [LRUCache.get] never raises, counts every call as exactly one hit or
    one miss, and on a key that is not stored returns [None] and leaves the
    dictionary as it was. *)
Theorem get_counts_once c k now :
  exists r c',
    get c k now = Py.Ok (r, c') /\
    max_size c' = max_size c /\ ttl c' = ttl c /\
    (r = None -> hits c' = hits c /\ misses c' = misses c + 1) /\
    (r <> None -> hits c' = hits c + 1 /\ misses c' = misses c) /\
    (lookup (cache c) k = None -> r = None /\ cache c' = cache c).
Proof.
  destruct (lookup (cache c) k) as [[v ts]|] eqn:Hl.
  - destruct (_is_expired c now ts) eqn:He.
    + rewrite (get_expired _ _ _ _ _ Hl He). eexists _, _.
      split; [done|]. simpl. repeat split; done.
    + rewrite (get_hit _ _ _ _ _ Hl He). eexists _, _.
      split; [done|]. simpl. repeat split; done.
  - rewrite (get_absent _ _ _ Hl). eexists _, _.
    split; [done|]. simpl. repeat split; done.
Qed.

(** [LRUCache.delete] never raises and changes nothing but the entry of its
    key: afterwards the key is not stored, every other key holds what it
    held, and the counters are untouched; on a key that is not stored it
    changes nothing at all. *)
Theorem delete_removes_only_its_key c k :
  NoDup (keys (cache c)) ->
  exists c',
    delete c k = Py.Ok c' /\
    lookup (cache c') k = None /\
    (forall k', k' <> k -> lookup (cache c') k' = lookup (cache c) k') /\
    hits c' = hits c /\ misses c' = misses c /\
    (lookup (cache c) k = None -> c' = c).
Proof.
  intros Hnd. destruct (lookup (cache c) k) as [e|] eqn:Hl.
  - rewrite (delete_present _ _ _ Hl). eexists. split; [done|]. simpl.
    repeat split; try done.
    + apply lookup_None_keys. by apply keys_remove_gone.
    + intros k' Hne. by apply lookup_remove_ne.
  - rewrite (delete_absent _ _ Hl). eexists. split; [done|].
    repeat split; done.
Qed.

Lemma lookup_tail_ne (d : OrderedDict.t (V * float)) k0 e0 k' :
  k' <> k0 -> lookup ((k0, e0) :: d) k' = lookup d k'.
Proof. intros Hne. simpl. by rewrite decide_False. Qed.

(** A [set] that returns changes the entry of its own key and, when it
    evicts, removes the first key of the dictionary; every other key holds
    what it held. *)
Theorem set_keeps_other_entries c k v now c' :
  set c k v now = Py.Ok c' ->
  forall k',
    k' <> k ->
    lookup (cache c') k' = lookup (cache c) k' \/
    (first_key (cache c) = Py.Ok k' /\
     lookup (cache c) k = None /\ max_size c <= len (cache c)).
Proof.
  intros Hs k' Hne.
  destruct (lookup (cache c) k) as [e|] eqn:Hl.
  - rewrite (set_present _ _ v now _ Hl) in Hs. injection Hs as <-. simpl.
    left. rewrite lookup_setitem_ne, lookup_app_ne, lookup_remove_ne; done.
  - destruct (Z_lt_le_dec (len (cache c)) (max_size c)) as [Hlt|Hge].
    + rewrite (set_room _ _ v now Hl Hlt) in Hs. injection Hs as <-. simpl.
      left. by rewrite lookup_app_ne.
    + destruct (cache_cases c) as [Hc|(k0 & e0 & d & Hc)].
      * rewrite set_empty_full in Hs by eauto using len_nil_full. done.
      * rewrite (set_evict _ _ v now _ _ _ Hl Hc Hge) in Hs.
        injection Hs as <-. simpl.
        destruct (decide (k' = k0)) as [->|Hk0].
        -- right. rewrite Hc at 1. done.
        -- left. rewrite Hc, lookup_app_ne, lookup_tail_ne; done.
Qed.

(** The counters of a cache only grow from zero. *)
Lemma apply_counters c o :
  0 <= hits c -> 0 <= misses c ->
  0 <= hits (apply c o) /\ 0 <= misses (apply c o).
Proof.
  intros Hh Hm. destruct o as [k now|k v now|k|]; simpl; [| | |lia].
  - destruct (lookup (cache c) k) as [[v ts]|] eqn:Hl.
    + destruct (_is_expired c now ts) eqn:He.
      * rewrite (get_expired _ _ _ _ _ Hl He). unfold Py.Ok. simpl. lia.
      * rewrite (get_hit _ _ _ _ _ Hl He). unfold Py.Ok. simpl. lia.
    + rewrite (get_absent _ _ _ Hl). unfold Py.Ok. simpl. lia.
  - destruct (set c k v now) as [e|c'] eqn:Hs; [done|].
    pose proof (set_stores _ _ _ _ _ Hs) as _.
    destruct (lookup (cache c) k) as [e|] eqn:Hl.
    + rewrite (set_present _ _ v now _ Hl) in Hs. by injection Hs as <-.
    + destruct (Z_lt_le_dec (len (cache c)) (max_size c)) as [Hlt|Hge].
      * rewrite (set_room _ _ v now Hl Hlt) in Hs. by injection Hs as <-.
      * destruct (cache_cases c) as [Hc|(k0 & e0 & d & Hc)].
        -- rewrite set_empty_full in Hs by eauto using len_nil_full. done.
        -- rewrite (set_evict _ _ v now _ _ _ Hl Hc Hge) in Hs.
           by injection Hs as <-.
  - destruct (lookup (cache c) k) as [e|] eqn:Hl.
    + by rewrite (delete_present _ _ _ Hl).
    + by rewrite (delete_absent _ _ Hl).
Qed.

Lemma run_counters c ops :
  0 <= hits c -> 0 <= misses c ->
  0 <= hits (run c ops) /\ 0 <= misses (run c ops).
Proof.
  revert c. induction ops as [|o ops IH]; intros c Hh Hm; simpl; [done|].
  destruct (apply_counters c o Hh Hm). by apply IH.
Qed.

Lemma run_max_size c ops : max_size (run c ops) = max_size c.
Proof.
  revert c. induction ops as [|o ops IH]; intros c; simpl; [done|].
  by rewrite IH, apply_max_size.
Qed.

Lemma overflows_small x : (0 <= x)%Q -> (x <= 100)%Q -> overflows x = false.
Proof.
  intros H0 H100. unfold overflows.
  destruct (Qle_bool (inject_Z (2 ^ 1024)) (Qabs x)) eqn:E; [|done].
  apply Qle_bool_iff in E. rewrite Qabs_pos in E by done.
  assert (Hp : 2 ^ 7 <= 2 ^ 1024) by (apply Z.pow_le_mono_r; lia).
  assert (Hq : (inject_Z (2 ^ 7) <= inject_Z (2 ^ 1024))%Q).
  { by rewrite <- Zle_Qle. }
  change (inject_Z (2 ^ 7)) with 128%Q in Hq. lra.
Qed.

Lemma b64_100 : b64 100%Q = 100%Q.
Proof. vm_compute. reflexivity. Qed.

Lemma b64_1 : b64 1%Q = 1%Q.
Proof. vm_compute. reflexivity. Qed.

Lemma round_100 : round 100%Q 2 = 100%Q.
Proof. vm_compute. reflexivity. Qed.

(** On a cache used since its creation, [get_stats] returns, and its hit
    rate is a finite float between 0 and 100, equal to 0 while no [get] has
    been counted; the other fields are those of the cache. *)
Theorem get_stats_hit_rate_in_range (m t : Z) (ops : list (op V)) :
  let c := run (init m t) ops in
  exists s r,
    get_stats c = Py.Ok s /\
    stats_hit_rate s = Finite r /\
    (0 <= r <= 100)%Q /\
    (hits c + misses c = 0 -> r = 0%Q) /\
    stats_size s = len (cache c) /\
    stats_hits s = hits c /\ stats_misses s = misses c /\
    stats_max_size s = m /\ stats_ttl s = ttl c.
Proof.
  intros c.
  destruct (run_counters (init m t) ops) as [Hh Hm]; [done|done|].
  fold c in Hh, Hm.
  assert (Hmax : max_size c = m) by apply run_max_size.
  unfold get_stats.
  destruct (Z.gtb_spec (hits c + misses c) 0) as [Hpos|Hzero].
  - set (total := hits c + misses c) in *.
    assert (Hq0 : (0 <= hits c # Z.to_pos total)%Q).
    { unfold Qle. simpl. lia. }
    assert (Hq1 : (hits c # Z.to_pos total <= 1)%Q).
    { unfold Qle. simpl. rewrite Z2Pos.id by lia. lia. }
    assert (Hb0 : (0 <= b64 (hits c # Z.to_pos total))%Q) by by apply b64_nonneg.
    assert (Hb1 : (b64 (hits c # Z.to_pos total) <= 1)%Q).
    { rewrite <- b64_1. by apply b64_mono. }
    assert (Hdiv : int_truediv (hits c) total
                   = Py.Ok (b64 (hits c # Z.to_pos total))).
    { unfold int_truediv, checked.
      destruct (Z.eqb_spec total 0) as [|_]; [lia|].
      rewrite Z.sgn_pos, Z.mul_1_r, Z.abs_eq by lia.
      rewrite overflows_small; [done|done|lra]. }
    rewrite Hdiv. cbn [Py.bind Py.Ok].
    set (q := b64 (hits c # Z.to_pos total)) in *.
    assert (Hp0 : (0 <= b64 (q * inject_Z 100))%Q).
    { apply b64_nonneg. change (inject_Z 100) with 100%Q. lra. }
    assert (Hp1 : (b64 (q * inject_Z 100) <= 100)%Q).
    { rewrite <- b64_100. apply b64_mono. change (inject_Z 100) with 100%Q. lra. }
    unfold mul_int, or_infinity. rewrite overflows_small by done.
    eexists _, _. split; [reflexivity|]. cbn.
    split; [reflexivity|]. split.
    + split; [by apply round_nonneg|].
      rewrite <- round_100. by apply round_mono.
    + split; [lia|]. done.
  - cbn [Py.bind Py.Ok]. eexists _, _. split; [reflexivity|]. cbn.
    split; [reflexivity|]. rewrite round_zero.
    repeat split; try done; lra.
Qed.

End Extras.

Lemma delete_removes_only_its_key_witness :
  exists c',
    delete (mkLRU [(Py.str "a", (1%nat, 0%Q)); (Py.str "b", (2%nat, 0%Q))]
              2 3600 0 0) (Py.str "a") = Py.Ok c' /\
    lookup (cache c') (Py.str "a") = None.
Proof.
  destruct (delete_removes_only_its_key
              (mkLRU [(Py.str "a", (1%nat, 0%Q)); (Py.str "b", (2%nat, 0%Q))]
                 2 3600 0 0) (Py.str "a")) as (c' & H1 & H2 & _).
  - simpl. repeat constructor; rewrite ?elem_of_cons, ?elem_of_nil;
      vm_compute; intros H; repeat destruct H as [H|H]; try discriminate H;
      exact H.
  - exists c'. split; [exact H1 | exact H2].
Defined.

Lemma set_keeps_other_entries_witness :
  lookup (cache (mkLRU [(Py.str "a", (1%nat, 0%Q)); (Py.str "b", (9%nat, 1%Q))]
                   2 3600 0 0)) (Py.str "a")
  = Some (1%nat, 0%Q).
Proof.
  destruct (set_keeps_other_entries
              (mkLRU [(Py.str "a", (1%nat, 0%Q))] 2 3600 0 0)
              (Py.str "b") 9%nat 1%Q
              (mkLRU [(Py.str "a", (1%nat, 0%Q)); (Py.str "b", (9%nat, 1%Q))]
                 2 3600 0 0)
              eq_refl (Py.str "a")) as [H|[_ [_ H]]].
  - intros H. vm_compute in H. discriminate H.
  - rewrite H. reflexivity.
  - vm_compute in H. exfalso. apply H. reflexivity.
Defined.

(** *** The language cache *)

(** After [LanguageCache.set] at a time [t0] other than 0, a [get] returns
    the stored list while the computed age [now - t0] does not exceed the
    TTL and leaves the cache as it is; once the age exceeds the TTL it
    returns [None] and empties the slot, so that every later [get] returns
    [None] until the next [set].  A list stored at [t0 = 0.0] never
    expires, because the code tests the truth of the timestamp. *)
Theorem language_cache_get_after_set (lc : LanguageCache)
    (l : list Py.pystr) (t0 now : float) :
  let lc1 := lc_set lc l t0 in
  (~ (t0 == 0)%Q ->
     ((sub now t0 <= inject_Z (lc_ttl lc))%Q -> lc_get lc1 now = (Some l, lc1)) /\
     ((inject_Z (lc_ttl lc) < sub now t0)%Q ->
        lc_get lc1 now = (None, lc_clear lc1) /\
        forall later, lc_get (lc_clear lc1) later = (None, lc_clear lc1))) /\
  ((t0 == 0)%Q -> lc_get lc1 now = (Some l, lc1)).
Proof.
  intros lc1. unfold lc_get, lc1, lc_set. cbn [languages timestamp lc_ttl].
  split.
  - intros Hne.
    assert (Hz : Qeq_bool t0 0 = false).
    { destruct (Qeq_bool t0 0) eqn:E; [|done]. by apply Qeq_bool_iff in E. }
    rewrite Hz. simpl negb. rewrite andb_true_l. unfold gt_int. split.
    + intros Hage. apply Qle_bool_iff in Hage. by rewrite Hage.
    + intros Hage.
      destruct (Qle_bool (sub now t0) (inject_Z (lc_ttl lc))) eqn:E.
      * apply Qle_bool_iff in E. lra.
      * done.
  - intros Hz. apply Qeq_bool_iff in Hz. by rewrite Hz.
Qed.

Lemma language_cache_get_after_set_witness :
  lc_get (lc_set (lc_init 86400) [Py.str "eng_Latn"] 10%Q) 20%Q
  = (Some [Py.str "eng_Latn"], lc_set (lc_init 86400) [Py.str "eng_Latn"] 10%Q).
Proof.
  refine (proj1 (proj1 (language_cache_get_after_set (lc_init 86400)
            [Py.str "eng_Latn"] 10%Q 20%Q) _) _).
  - intros H. vm_compute in H. discriminate H.
  - vm_compute. intros H. discriminate H.
Defined.

(** *** The key of the transcription cache *)

Lemma split_at_separator (c : N) (a a' r r' : list N) :
  c ∉ a -> c ∉ a' -> a ++ c :: r = a' ++ c :: r' -> a = a' /\ r = r'.
Proof.
  revert a'. induction a as [|x a IH]; intros [|x' a'] Ha Ha' Heq; simpl in *.
  - by injection Heq as <-.
  - injection Heq as <- _. exfalso. apply Ha'. left.
  - injection Heq as -> _. exfalso. apply Ha. left.
  - injection Heq as <- Heq.
    apply not_elem_of_cons in Ha as [_ Ha].
    apply not_elem_of_cons in Ha' as [_ Ha'].
    destruct (IH a' Ha Ha' Heq) as [-> ->]. done.
Qed.

(** Two requests whose modes and languages contain no colon get the same
    cache key only if they have the same mode, the same language and the
    same content hash. *)
Theorem generate_key_injective (sha256_hexdigest : Py.bytes -> Py.pystr)
    (audio audio' : Py.bytes) (language language' mode mode' : Py.pystr) :
  58%N ∉ mode -> 58%N ∉ mode' -> 58%N ∉ language -> 58%N ∉ language' ->
  _generate_key sha256_hexdigest audio language mode
  = _generate_key sha256_hexdigest audio' language' mode' ->
  mode = mode' /\ language = language' /\
  sha256_hexdigest audio = sha256_hexdigest audio'.
Proof.
  intros Hm Hm' Hl Hl' Heq. unfold _generate_key in Heq.
  change (Py.str ":") with [58%N] in Heq. simpl in Heq.
  apply split_at_separator in Heq as [-> Heq]; [|done|done].
  apply split_at_separator in Heq as [-> Heq]; done.
Qed.

Lemma generate_key_injective_witness :
  Py.str "large" = Py.str "large" /\ Py.str "eng_Latn" = Py.str "eng_Latn" /\
  Py.str "ab" = Py.str "ab".
Proof.
  apply (generate_key_injective (fun _ => Py.str "ab") [] []
           (Py.str "eng_Latn") (Py.str "eng_Latn")
           (Py.str "large") (Py.str "large"));
    try (vm_compute; intros H; repeat (inversion H; subst; clear H;
           match goal with H' : _ ∈ _ |- _ => rename H' into H end));
    try reflexivity.
Defined.

End CacheExtras.

Module MonitoringExtras.
Import Float64 Monitoring.

Lemma slice_from_last {A} (l : list A) (limit : Z) :
  1 <= limit ->
  Py.slice_from l (- limit) = drop (length l - Z.to_nat limit) l.
Proof.
  intros Hl. unfold Py.slice_from, Py.slice_index.
  destruct (Z.ltb_spec (- limit) 0) as [_|]; [|lia].
  f_equal. lia.
Qed.

(** For a limit of at least 1, [get_recent_metrics] returns the last
    [min(limit, n)] of the [n] records of the kind, oldest first: the
    records split into the older ones and the returned ones.  A kind with
    no record gives the empty list. *)
Theorem get_recent_metrics_returns_last (mc : MetricsCollector)
    (metric_type : Py.pystr) (limit : Z) :
  1 <= limit ->
  let all := recorded mc metric_type in
  let recent := get_recent_metrics mc metric_type limit in
  recent = drop (length all - Z.to_nat limit) all /\
  all = take (length all - Z.to_nat limit) all ++ recent /\
  Z.of_nat (length recent) = Z.min limit (Z.of_nat (length all)) /\
  (metrics mc !! metric_type = None -> recent = []).
Proof.
  intros Hl all recent.
  assert (Hr : recent = drop (length all - Z.to_nat limit) all).
  { unfold recent, get_recent_metrics. by apply slice_from_last. }
  split; [exact Hr|]. split; [by rewrite Hr, take_drop|]. split.
  - rewrite Hr, length_drop. lia.
  - intros Hn. rewrite Hr. unfold all, recorded. rewrite Hn. done.
Qed.

Lemma get_recent_metrics_returns_last_witness :
  get_recent_metrics
    (record_request (record_request (init 0%Q) (Py.str "t1") (Py.str "/a")
                       (Py.str "GET") 200 1%Q)
       (Py.str "t2") (Py.str "/b") (Py.str "GET") 404 1%Q)
    (Py.str "requests") 1
  = [RequestMetric (Py.str "t2") (Py.str "/b") (Py.str "GET") 404 1%Q].
Proof.
  rewrite (proj1 (get_recent_metrics_returns_last _ (Py.str "requests") 1
                    ltac:(lia))).
  vm_compute. reflexivity.
Defined.

Lemma counter_increment_eq mc name :
  counter (increment mc name) name = counter mc name + 1.
Proof. unfold counter, increment. cbn [counters]. by rewrite lookup_insert_eq. Qed.

Lemma counter_increment_ne mc name name' :
  name <> name' -> counter (increment mc name) name' = counter mc name'.
Proof.
  intros Hne. unfold counter, increment. cbn [counters].
  by rewrite lookup_insert_ne.
Qed.

Lemma recorded_increment mc name kind :
  recorded (increment mc name) kind = recorded mc kind.
Proof. reflexivity. Qed.

Lemma recorded_append_eq mc kind m :
  recorded (append_metric mc kind m) kind = recorded mc kind ++ [m].
Proof. unfold recorded, append_metric. cbn [metrics]. by rewrite lookup_insert_eq. Qed.

Lemma recorded_append_ne mc kind kind' m :
  kind <> kind' -> recorded (append_metric mc kind m) kind' = recorded mc kind'.
Proof.
  intros Hne. unfold recorded, append_metric. cbn [metrics].
  by rewrite lookup_insert_ne.
Qed.

Lemma counter_append mc kind m name :
  counter (append_metric mc kind m) name = counter mc name.
Proof. reflexivity. Qed.

(** [record_transcription] appends exactly one record, after the records
    already there, and touches the records of no other kind; its real-time
    factor is 0 when the duration is not positive (no division by zero).
    For a mode other than "success" and "failed" it adds 1 to the counter
    of the mode and 1 to the counter of the outcome, and leaves the counter
    of the other outcome alone. *)
Theorem record_transcription_effect (mc : MetricsCollector)
    (timestamp request_id language : Py.pystr)
    (audio_duration processing_time : float) (segments_count : Z)
    (mode : Py.pystr) (success : bool) (error : option Py.pystr) :
  mode <> Py.str "success" -> mode <> Py.str "failed" ->
  let mc' := record_transcription mc timestamp request_id language
               audio_duration processing_time segments_count mode success
               error in
  (exists rtf,
     recorded mc' (Py.str "transcriptions")
     = recorded mc (Py.str "transcriptions") ++
       [TranscriptionMetric timestamp request_id language audio_duration
          processing_time segments_count mode success error rtf] /\
     ((audio_duration <= 0)%Q -> rtf = Finite 0%Q)) /\
  (forall kind, kind <> Py.str "transcriptions" ->
     recorded mc' kind = recorded mc kind) /\
  counter mc' (Py.str "transcriptions_" ++ mode)
  = counter mc (Py.str "transcriptions_" ++ mode) + 1 /\
  counter mc' (Py.str "transcriptions_success")
  = counter mc (Py.str "transcriptions_success") + (if success then 1 else 0) /\
  counter mc' (Py.str "transcriptions_failed")
  = counter mc (Py.str "transcriptions_failed") + (if success then 0 else 1).
Proof.
  intros Hs Hf mc'.
  assert (Hms : Py.str "transcriptions_" ++ mode <> Py.str "transcriptions_success").
  { change (Py.str "transcriptions_success")
      with (Py.str "transcriptions_" ++ Py.str "success").
    intros H. by apply app_inv_head in H. }
  assert (Hmf : Py.str "transcriptions_" ++ mode <> Py.str "transcriptions_failed").
  { change (Py.str "transcriptions_failed")
      with (Py.str "transcriptions_" ++ Py.str "failed").
    intros H. by apply app_inv_head in H. }
  assert (Hsf : Py.str "transcriptions_success" <> Py.str "transcriptions_failed")
    by (intros H; vm_compute in H; discriminate H).
  unfold mc', record_transcription.
  set (rtf := if gt_int audio_duration 0 then _ else _).
  set (m := TranscriptionMetric _ _ _ _ _ _ _ _ _ _).
  split; [|split].
  - exists rtf. split.
    + destruct success; rewrite !recorded_increment; apply recorded_append_eq.
    + intros Hd. unfold rtf, gt_int.
      assert (E : Qle_bool audio_duration (inject_Z 0) = true)
        by (by apply Qle_bool_iff).
      by rewrite E.
  - intros kind Hk.
    destruct success; rewrite !recorded_increment;
      by apply recorded_append_ne.
  - destruct success.
    + rewrite counter_increment_ne, counter_increment_eq by done.
      rewrite counter_increment_eq.
      rewrite (counter_increment_ne _ _ (Py.str "transcriptions_success")) by done.
      rewrite (counter_increment_ne _ (Py.str "transcriptions_success")
                 (Py.str "transcriptions_failed")) by done.
      rewrite (counter_increment_ne _ _ (Py.str "transcriptions_failed")) by done.
      rewrite !counter_append. repeat split; lia.
    + rewrite counter_increment_ne, counter_increment_eq by done.
      rewrite counter_increment_eq.
      rewrite (counter_increment_ne _ (Py.str "transcriptions_failed")
                 (Py.str "transcriptions_success")) by done.
      rewrite (counter_increment_ne _ _ (Py.str "transcriptions_success")) by done.
      rewrite (counter_increment_ne _ _ (Py.str "transcriptions_failed")) by done.
      rewrite !counter_append. repeat split; lia.
Qed.

Lemma record_transcription_effect_witness :
  counter (record_transcription (init 0%Q) (Py.str "t") (Py.str "id")
             (Py.str "eng_Latn") 5%Q 1%Q 1 (Py.str "large") true None)
    (Py.str "transcriptions_success")
  = counter (init 0%Q) (Py.str "transcriptions_success") + 1.
Proof.
  refine (proj1 (proj2 (proj2 (proj2
    (record_transcription_effect (init 0%Q) (Py.str "t") (Py.str "id")
       (Py.str "eng_Latn") 5%Q 1%Q 1 (Py.str "large") true None _ _))))).
  - intros H. vm_compute in H. discriminate H.
  - intros H. vm_compute in H. discriminate H.
Defined.

(** With the mode "success" the counter of the mode is the counter of the
    outcome: one successful transcription counts twice. *)
Theorem record_transcription_mode_collision (mc : MetricsCollector)
    (timestamp request_id language : Py.pystr)
    (audio_duration processing_time : float) (segments_count : Z)
    (error : option Py.pystr) :
  counter (record_transcription mc timestamp request_id language
             audio_duration processing_time segments_count
             (Py.str "success") true error)
    (Py.str "transcriptions_success")
  = counter mc (Py.str "transcriptions_success") + 2.
Proof.
  unfold record_transcription.
  change (Py.str "transcriptions_" ++ Py.str "success")
    with (Py.str "transcriptions_success").
  rewrite !counter_increment_eq, counter_append. lia.
Qed.

End MonitoringExtras.

Module OmniExtras.
Import Float64 Float64Facts Omni OmniFacts EndpointFacts.

Section Extras.
Context {World sample wav : Type}.
Variable E : Collaborators World sample wav.
Implicit Types (w : World).

(** *** Validation *)

(** [validate_file_type] never reports the MIME type: an upload is accepted
    when [magic] finds an allowed type or, whatever [magic] found or
    raised, when the lower-cased extension of the file name is allowed;
    otherwise the error is the 400 about the extension. *)
Theorem validate_file_type_falls_back_to_extension (file_bytes : Py.bytes)
    (filename : Py.pystr) :
  let ext := str_lower E (Py.splitext_ext filename) in
  let mime_allowed :=
    match magic_from_buffer E file_bytes with
    | inr mime => Py.in_list mime ALLOWED_MIME_TYPES
    | inl _ => false
    end in
  validate_file_type E file_bytes filename =
  if mime_allowed || Py.in_list ext ALLOWED_EXTENSIONS then Py.Ok tt
  else Py.Raise (Py.HTTPException 400 (Py.str "Invalid file extension: " ++ ext)).
Proof.
  intros ext mime_allowed. unfold validate_file_type, mime_allowed.
  fold ext.
  destruct (magic_from_buffer E file_bytes) as [msg|mime]; simpl.
  - by destruct (Py.in_list ext ALLOWED_EXTENSIONS).
  - destruct (Py.in_list mime ALLOWED_MIME_TYPES); simpl; [done|].
    by destruct (Py.in_list ext ALLOWED_EXTENSIONS).
Qed.

(** The checks of the upload, which both POST endpoints make before they
    contact the model. *)
Lemma upload_checks_raise_http (content : Py.bytes) (name : Py.pystr) e :
  (let! _ := validate_file_size (Z.of_nat (length content)) in
   validate_file_type E content name) = Py.Raise e ->
  exists status detail,
    e = Py.HTTPException status detail /\ (status = 400 \/ status = 413).
Proof.
  unfold Py.bind.
  destruct (validate_file_size _) as [e1|[]] eqn:H1.
  { intros [= <-]. unfold validate_file_size in H1.
    destruct (_ >? _); [injection H1 as <-; eauto|].
    destruct (_ =? _); [injection H1 as <-; eauto|discriminate H1]. }
  unfold validate_file_type.
  destruct (magic_from_buffer E content) as [msg|mime]; simpl.
  - destruct (Py.in_list _ ALLOWED_EXTENSIONS); simpl; [discriminate|].
    intros [= <-]. eauto.
  - destruct (Py.in_list mime ALLOWED_MIME_TYPES); simpl; [discriminate|].
    destruct (Py.in_list _ ALLOWED_EXTENSIONS); simpl; [discriminate|].
    intros [= <-]. eauto.
Qed.

Lemma validate_request_refuses_upload content filename lang w rid e :
  generate_request_id E content w = (w, inr rid) ->
  (let! _ := validate_file_size (Z.of_nat (length content)) in
   validate_file_type E content (Py.or_default filename (Py.str "audio")))
  = Py.Raise e ->
  validate_request E content filename lang w = (w, inl e).
Proof.
  intros Hid Hup.
  unfold validate_request. rewrite (mbind_ok _ _ _ _ _ Hid).
  unfold Py.bind in Hup.
  destruct (validate_file_size _) as [e1|[]] eqn:H1.
  { injection Hup as <-. by apply mbind_raise. }
  rewrite (mbind_ok _ _ w w tt) by (by apply lift_ok).
  apply mbind_raise. unfold lift. by rewrite Hup.
Qed.

(** A request whose upload fails the check of its size or of its type is
    refused before the model is contacted: both POST endpoints raise the
    error of the check (an [HTTPException] with status 400 or 413) from the
    world as the limiter left it, so that no remote call, decoder, VAD or
    engine was reached.  A request whose upload passes but whose language
    the model does not list is refused with a 400 after that one remote
    call. *)
Theorem invalid_request_reaches_no_engine (x_api_key : option Py.pystr)
    (content : Py.bytes) (filename : option Py.pystr) (lang : Py.pystr)
    (b : bool) :
  verify_api_key E x_api_key = Py.Ok b ->
  let upload_checks :=
    let! _ := validate_file_size (Z.of_nat (length content)) in
    validate_file_type E content (Py.or_default filename (Py.str "audio")) in
  (forall e, upload_checks = Py.Raise e ->
     (exists status detail,
        e = Py.HTTPException status detail /\ (status = 400 \/ status = 413)) /\
     (forall w w1 rid,
        limiter_hit E w (Py.str "20/minute") = (w1, inr tt) ->
        generate_request_id E content w1 = (w1, inr rid) ->
        transcribe_endpoint E x_api_key content filename lang w = (w1, inl e)) /\
     (forall w w1 rid,
        limiter_hit E w (Py.str "10/minute") = (w1, inr tt) ->
        generate_request_id E content w1 = (w1, inr rid) ->
        transcribe_large_file E x_api_key content filename lang w
        = (w1, inl e))) /\
  (upload_checks = Py.Ok tt ->
   validate_language E lang = false ->
   let e := Py.HTTPException 400
              (Py.str "Unsupported language: " ++ lang ++
               Py.str ". Use /languages endpoint to get supported languages.") in
   forall w1 w2 rid,
     generate_request_id E content w1 = (w1, inr rid) ->
     modal_remote E w1 = (w2, inr tt) ->
     (forall w,
        limiter_hit E w (Py.str "20/minute") = (w1, inr tt) ->
        transcribe_endpoint E x_api_key content filename lang w = (w2, inl e)) /\
     (forall w,
        limiter_hit E w (Py.str "10/minute") = (w1, inr tt) ->
        transcribe_large_file E x_api_key content filename lang w
        = (w2, inl e))).
Proof.
  intros Hk upload_checks. split.
  - intros e Hup. split; [by eapply upload_checks_raise_http|].
    split; intros w w1 rid Hl Hid.
    + unfold transcribe_endpoint. rewrite (route_ok E _ _ _ _ _ _ Hk Hl).
      apply mbind_raise. by eapply validate_request_refuses_upload.
    + unfold transcribe_large_file. rewrite (route_ok E _ _ _ _ _ _ Hk Hl).
      apply mbind_raise. by eapply validate_request_refuses_upload.
  - intros Hup Hlang e w1 w2 rid Hid Hrem.
    assert (Hval : validate_request E content filename lang w1 = (w2, inl e)).
    { unfold validate_request. rewrite (mbind_ok _ _ _ _ _ Hid).
      unfold upload_checks, Py.bind in Hup.
      destruct (validate_file_size _) as [e1|[]] eqn:H1; [discriminate Hup|].
      rewrite (mbind_ok _ _ w1 w1 tt) by (by apply lift_ok).
      rewrite (mbind_ok _ _ w1 w1 tt) by (by apply lift_ok).
      rewrite (mbind_ok _ _ w1 w2 false).
      2:{ rewrite (remote_ok E _ _ _ Hrem). unfold ret. by rewrite Hlang. }
      reflexivity. }
    split; intros w Hl.
    + unfold transcribe_endpoint. rewrite (route_ok E _ _ _ _ _ _ Hk Hl).
      by apply mbind_raise.
    + unfold transcribe_large_file. rewrite (route_ok E _ _ _ _ _ _ Hk Hl).
      by apply mbind_raise.
Qed.

(** *** Segmentation *)

(** The times of a chunk depend on its span only: whatever the decoded
    frames and the native rate, they are the span bounds divided by 16000. *)
Theorem chunk_times_ignore_native_rate (data data' : list sample)
    (samplerate samplerate' : Z) (ts : SpeechTimestamp)
    (c c' : audio_input sample * ChunkMeta) :
  cut_chunk data samplerate ts = Py.Ok c ->
  cut_chunk data' samplerate' ts = Py.Ok c' ->
  snd c = snd c' /\
  Py.Ok (md_start (snd c)) = int_truediv (ts_start ts) 16000 /\
  Py.Ok (md_end (snd c)) = int_truediv (ts_end ts) 16000.
Proof.
  intros H H'.
  rewrite (cut_chunk_meta _ _ _ _ H), (cut_chunk_meta _ _ _ _ H').
  split; [done|].
  unfold cut_chunk, Py.bind in H.
  destruct (int_truediv (ts_start ts) 16000) as [|s] eqn:Hs; [discriminate H|].
  destruct (int_truediv (ts_end ts) 16000) as [|e] eqn:He; [discriminate H|].
  by rewrite (int_truediv_16000 _ _ Hs), (int_truediv_16000 _ _ He).
Qed.

(** *** What the paths raise *)













(** [POST /transcribe] answers with the result of the whole-file path
    when its audio duration is at most 45 seconds, and with a 400 that
    names the duration when it is longer; so every result that leaves the
    endpoint has a duration of at most 45 seconds and is the result the
    model produced for the upload. *)
Theorem transcribe_endpoint_bounds_duration (x_api_key : option Py.pystr)
    (content : Py.bytes) (filename : option Py.pystr) (lang : Py.pystr)
    (w : World) :
  let name := Py.or_default filename (Py.str "audio.wav") in
  (forall b w1 w2 w3 w4 rid r,
     verify_api_key E x_api_key = Py.Ok b ->
     limiter_hit E w (Py.str "20/minute") = (w1, inr tt) ->
     validate_request E content filename lang w1 = (w2, inr rid) ->
     modal_remote E w2 = (w3, inr tt) ->
     transcribe E content name lang rid w3 = (w4, inr r) ->
     transcribe_endpoint E x_api_key content filename lang w
     = (w4,
        if gt (audio_duration r) 45%Q then
          inl (Py.HTTPException 400
                 (Py.str "File too long (" ++
                  str_of_float E (audio_duration r) ++
                  Py.str "s). Please use /transcribe_large for files > 40s."))
        else inr r)) /\
  (forall w' r,
     transcribe_endpoint E x_api_key content filename lang w = (w', inr r) ->
     (audio_duration r <= 45)%Q /\
     exists b w1 w2 w3 rid,
       verify_api_key E x_api_key = Py.Ok b /\
       limiter_hit E w (Py.str "20/minute") = (w1, inr tt) /\
       validate_request E content filename lang w1 = (w2, inr rid) /\
       modal_remote E w2 = (w3, inr tt) /\
       transcribe E content name lang rid w3 = (w', inr r)).
Proof.
  intros name. split.
  - intros b w1 w2 w3 w4 rid r Hk Hl Hval Hrem Ht.
    unfold transcribe_endpoint. rewrite (route_ok E _ _ _ _ _ _ Hk Hl).
    rewrite (mbind_ok _ _ _ _ _ Hval). fold name.
    destruct (gt (audio_duration r) 45%Q) eqn:Hg.
    + erewrite try_except_raise.
      2:{ rewrite (mbind_ok _ _ w2 w4 r).
          2:{ by rewrite (remote_ok E _ _ _ Hrem). }
          rewrite Hg. reflexivity. }
      reflexivity.
    + apply try_except_ok. rewrite (mbind_ok _ _ w2 w4 r).
      2:{ by rewrite (remote_ok E _ _ _ Hrem). }
      by rewrite Hg.
  - intros w' r H. unfold transcribe_endpoint in H.
    apply route_inv in H as (b & w1 & Hk & Hl & H).
    apply mbind_inv in H as (w2 & rid & Hval & H).
    apply try_except_inv in H.
    apply mbind_inv in H as (w3 & r0 & Ht & H).
    apply remote_inv in Ht as (w4 & Hrem & Ht).
    destruct (gt (audio_duration r0) 45%Q) eqn:Hg; [discriminate H|].
    apply ret_inv in H as [-> ->].
    split.
    + unfold gt in Hg. apply negb_false_iff in Hg. by apply Qle_bool_iff in Hg.
    + exists b, w1, w2, w4, rid. repeat split; assumption.
Qed.

(** The whole-file path, outcome by outcome.  A decoder failure is a 400
    and the engine is not called; an engine failure is a 500; an engine
    that answers no text makes [transcriptions[0]] raise [IndexError];
    otherwise the result has the first text as transcription and as the
    text of its single segment, which runs from 0.0 to the rounded
    duration, and the processing time is the time around the engine call
    only. *)
Theorem transcribe_outcomes (audio : Py.bytes) (filename lang rid : Py.pystr)
    (w : World) :
  let tmp := TempFile (Py.splitext_ext filename) audio in
  transcribe E audio filename lang rid w =
  match librosa_get_duration E w tmp with
  | (w1, inl msg) =>
      (w1, inl (Py.HTTPException 400 (Py.str "Invalid audio file: " ++ msg)))
  | (w1, inr duration) =>
      match pipeline_transcribe E w1 [tmp] [lang] None with
      | (w2, inl msg) =>
          (w2, inl (Py.HTTPException 500
                      (Py.str "Transcription failed: " ++ msg)))
      | (w2, inr []) => (w2, inl Py.IndexError)
      | (w2, inr (text :: _)) =>
          (w2, inr {| transcription := text;
                      language := lang;
                      processing_time :=
                        round (sub (time_time E w2) (time_time E w1)) 3;
                      audio_duration := round duration 2;
                      segments_count := 1;
                      segments := [ {| seg_start := 0%Q;
                                       seg_end := round duration 2;
                                       seg_text := text |} ];
                      request_id := rid |})
      end
  end.
Proof.
  intros tmp. unfold transcribe. fold tmp.
  destruct (librosa_get_duration E w tmp) as [w1 [msg|d]] eqn:Hd.
  { rewrite (mbind_raise _ _ w w1 (invalid_audio (Py.External msg)));
      [reflexivity|].
    apply try_except_raise. by apply call_raise. }
  rewrite (mbind_ok _ _ w w1 d) by (by apply try_except_ok, call_ok).
  rewrite (mbind_ok _ _ w1 w1 (time_time E w1)) by reflexivity.
  destruct (pipeline_transcribe E w1 [tmp] [lang] None) as [w2 [msg|texts]] eqn:Hp.
  { rewrite (mbind_raise _ _ w1 w2 (transcription_failed (Py.External msg)));
      [reflexivity|].
    apply try_except_raise. apply mbind_raise. by apply call_raise. }
  rewrite (mbind_ok _ _ w1 w2 (texts, sub (time_time E w2) (time_time E w1))).
  2:{ apply try_except_ok.
      rewrite (mbind_ok _ _ w1 w2 texts) by (by apply call_ok).
      by rewrite (mbind_ok _ _ w2 w2 (time_time E w2)). }
  destruct texts as [|text rest]; reflexivity.
Qed.

(** *** The loop over the engine's texts, off the contract *)

Lemma combine_results_app metas ts surplus i segs parts :
  combine_results metas i (ts ++ surplus) segs parts =
  match combine_results metas i ts segs parts with
  | inl e => inl e
  | inr (s1, p1) => combine_results metas (i + length ts) surplus s1 p1
  end.
Proof.
  revert i segs parts. induction ts as [|t ts IH]; intros i segs parts; simpl.
  - by rewrite Nat.add_0_r.
  - destruct (Py.strip t) as [|c s].
    + rewrite IH. destruct (combine_results metas (S i) ts segs parts)
        as [|[s1 p1]]; [done|]. f_equal. lia.
    + destruct (metas !! i); [|done]. rewrite IH.
      destruct (combine_results _ _ ts _ _) as [|[s1 p1]]; [done|].
      f_equal. lia.
Qed.

Lemma combine_results_beyond metas surplus i segs parts :
  Exists (fun t => Py.strip t <> []) surplus ->
  (length metas <= i)%nat ->
  combine_results metas i surplus segs parts = Py.Raise Py.IndexError.
Proof.
  intros Hex. revert i segs parts.
  induction Hex as [t surplus Ht|t surplus Hex IH]; intros i segs parts Hi;
    simpl.
  - destruct (Py.strip t) as [|c s]; [done|].
    by rewrite (proj2 (lookup_ge_None metas i)).
  - destruct (Py.strip t) as [|c s]; [apply IH; lia|].
    by rewrite (proj2 (lookup_ge_None metas i)).
Qed.

(** When the engine answers fewer texts than there are chunks, the chunks
    without a text are silently left out; when it answers more and one of
    the surplus texts is not blank, [chunk_metadata[i]] raises
    [IndexError]. *)
Theorem combine_results_off_contract (metas : list ChunkMeta)
    (texts : list Py.pystr) :
  ((length texts <= length metas)%nat ->
   combine_results metas 0 texts [] []
   = Py.Ok (map segment_of (retained (take (length texts) metas) texts),
            map snd (retained (take (length texts) metas) texts))) /\
  (forall surplus,
     Exists (fun t => Py.strip t <> []) surplus ->
     length texts = length metas ->
     combine_results metas 0 (texts ++ surplus) [] [] = Py.Raise Py.IndexError).
Proof.
  split.
  - intros Hle. rewrite combine_results_spec by (rewrite drop_0; lia).
    rewrite drop_0. unfold retained.
    assert (Hz : zip metas (map Py.strip texts)
                 = zip (take (length texts) metas) (map Py.strip texts)).
    { rewrite <- (length_map Py.strip texts).
      generalize (map Py.strip texts). clear. intros xs.
      revert xs. induction metas as [|m metas IH]; intros [|x xs]; simpl;
        try done. by rewrite <- IH. }
    by rewrite Hz.
  - intros surplus Hex Hlen. rewrite combine_results_app.
    rewrite combine_results_spec by (rewrite drop_0; lia).
    apply combine_results_beyond; [done|]. simpl. lia.
Qed.

(** *** The list of languages *)



End Extras.

(** *** Runs on the fixture *)


Lemma invalid_request_reaches_no_engine_witness :
  let E := Fixture.collaborators 1%Q [] 16 16 [Py.str "x"] in
  transcribe_large_file E None [] (Some (Py.str "a.wav")) (Py.str "eng_Latn")
    0%nat
  = (0%nat, inl (Py.HTTPException 400 (Py.str "Empty file uploaded"))) /\
  transcribe_endpoint E None [Byte.x52] (Some (Py.str "a.wav")) (Py.str "xx")
    0%nat
  = (0%nat,
     inl (Py.HTTPException 400
            (Py.str "Unsupported language: xx. Use /languages endpoint to get supported languages."))).
Proof.
  intros E. split.
  - assert (Hid : { rid | generate_request_id E [] 0%nat = (0%nat, inr rid) }).
    { eexists. vm_compute. reflexivity. }
    destruct Hid as [rid Hid].
    refine (proj2 (proj2 (proj1
              (invalid_request_reaches_no_engine E None []
                 (Some (Py.str "a.wav")) (Py.str "eng_Latn") true _) _ _))
              0%nat 0%nat rid _ Hid).
    + reflexivity.
    + reflexivity.
    + reflexivity.
  - assert (Hid : { rid | generate_request_id E [Byte.x52] 0%nat
                          = (0%nat, inr rid) }).
    { eexists. vm_compute. reflexivity. }
    destruct Hid as [rid Hid].
    refine (proj1 (proj2
              (invalid_request_reaches_no_engine E None [Byte.x52]
                 (Some (Py.str "a.wav")) (Py.str "xx") true _) _ _
              0%nat 0%nat rid Hid _) 0%nat _).
    + reflexivity.
    + vm_compute. reflexivity.
    + vm_compute. reflexivity.
    + reflexivity.
    + reflexivity.
Defined.


Lemma transcribe_endpoint_bounds_duration_witness :
  let E := Fixture.collaborators 60%Q [] 16 16 [Py.str "hello world"] in
  exists rid r,
    transcribe E [Byte.x52] (Py.str "a.wav") (Py.str "eng_Latn") rid 0%nat
    = (1%nat, inr r) /\
    audio_duration r = 60%Q /\
    transcribe_endpoint E None [Byte.x52] (Some (Py.str "a.wav"))
      (Py.str "eng_Latn") 0%nat
    = (1%nat,
       inl (Py.HTTPException 400
              (Py.str "File too long (" ++ str_of_float E (audio_duration r) ++
               Py.str "s). Please use /transcribe_large for files > 40s."))).
Proof.
  intros E.
  assert (Hval : { rid | validate_request E [Byte.x52] (Some (Py.str "a.wav"))
                           (Py.str "eng_Latn") 0%nat = (0%nat, inr rid) }).
  { eexists. vm_compute. reflexivity. }
  destruct Hval as [rid Hval].
  assert (Hrun : { r | transcribe E [Byte.x52] (Py.str "a.wav")
                         (Py.str "eng_Latn") rid 0%nat = (1%nat, inr r) /\
                       audio_duration r = 60%Q /\
                       gt (audio_duration r) 45%Q = true }).
  { eexists. split; [vm_compute; reflexivity|].
    split; vm_compute; reflexivity. }
  destruct Hrun as (r & Hrun & Hd & Hlong).
  exists rid, r. split; [exact Hrun|]. split; [exact Hd|].
  pose proof (proj1 (transcribe_endpoint_bounds_duration E None [Byte.x52]
                       (Some (Py.str "a.wav")) (Py.str "eng_Latn") 0%nat)
                true 0%nat 0%nat 0%nat 1%nat rid r
                eq_refl eq_refl Hval eq_refl Hrun) as H.
  rewrite Hlong in H. exact H.
Defined.

Lemma chunk_times_ignore_native_rate_witness :
  exists c c',
    cut_chunk (seq 0 100) 16000 (mkTs 0 8000) = Py.Ok c /\
    cut_chunk (seq 0 300) 44100 (mkTs 0 8000) = Py.Ok c' /\
    snd c = snd c'.
Proof.
  assert (H1 : { c | cut_chunk (seq 0 100) 16000 (mkTs 0 8000) = Py.Ok c }).
  { eexists. vm_compute. reflexivity. }
  assert (H2 : { c | cut_chunk (seq 0 300) 44100 (mkTs 0 8000) = Py.Ok c }).
  { eexists. vm_compute. reflexivity. }
  destruct H1 as [c H1], H2 as [c' H2]. exists c, c'.
  split; [exact H1|]. split; [exact H2|].
  exact (proj1 (chunk_times_ignore_native_rate _ _ _ _ _ _ _ H1 H2)).
Defined.

End OmniExtras.

Module PathExtras.
Import Float64 Float64Facts Omni OmniFacts OmniExtras.

(** *** The suffix of the temporary file *)

Lemma rfind_from_spec (c : N) (s : Py.pystr) (i acc : Z) :
  acc < i ->
  let r := Py.rfind_from c s i acc in
  (r = acc /\ (c ∉ s)) \/
  (i <= r < i + Z.of_nat (length s) /\
   s !! Z.to_nat (r - i) = Some c /\
   c ∉ drop (S (Z.to_nat (r - i))) s).
Proof.
  revert i acc. induction s as [|x s IH]; intros i acc Hacc; simpl.
  - left. split; [done|]. apply not_elem_of_nil.
  - destruct (N.eqb_spec x c) as [->|Hne].
    + destruct (IH (i + 1) i ltac:(lia)) as [[Hr Hn]|(Hr & Hl & Hd)].
      * right. rewrite Hr. replace (i - i) with 0 by lia. simpl.
        split; [lia|]. split; [done|]. by rewrite drop_0.
      * right. split; [lia|].
        replace (Z.to_nat (Py.rfind_from c s (i + 1) i - i))
          with (S (Z.to_nat (Py.rfind_from c s (i + 1) i - (i + 1)))) by lia.
        simpl. done.
    + destruct (IH (i + 1) acc ltac:(lia)) as [[Hr Hn]|(Hr & Hl & Hd)].
      * left. split; [done|]. apply not_elem_of_cons. split; [congruence|done].
      * right. split; [lia|].
        replace (Z.to_nat (Py.rfind_from c s (i + 1) acc - i))
          with (S (Z.to_nat (Py.rfind_from c s (i + 1) acc - (i + 1)))) by lia.
        simpl. done.
Qed.

Lemma rfind_spec (c : N) (s : Py.pystr) :
  (Py.rfind c s = -1 /\ (c ∉ s)) \/
  (0 <= Py.rfind c s < Z.of_nat (length s) /\
   s !! Z.to_nat (Py.rfind c s) = Some c /\
   c ∉ drop (S (Z.to_nat (Py.rfind c s))) s).
Proof.
  destruct (rfind_from_spec c s 0 (-1) ltac:(lia)) as [H|(H1 & H2 & H3)].
  - by left.
  - right. fold (Py.rfind c s) in *. rewrite Z.sub_0_r in *.
    repeat split; try done; lia.
Qed.

(** The suffix given to the temporary files, [os.path.splitext(filename)[1]],
    is the end of the file name, and is either empty or a dot followed by
    characters among which there is neither a dot nor a slash. *)
Theorem splitext_ext_shape (filename : Py.pystr) :
  Py.splitext_ext filename `suffix_of` filename /\
  (Py.splitext_ext filename = [] \/
   exists rest,
     Py.splitext_ext filename = 46%N :: rest /\
     (46%N ∉ rest) /\ (47%N ∉ rest)).
Proof.
  unfold Py.splitext_ext.
  destruct (Z.ltb_spec (Py.rfind 47 filename) (Py.rfind 46 filename))
    as [Hlt|Hge]; [|split; [apply suffix_nil | by left]].
  destruct (forallb _ _); [split; [apply suffix_nil | by left]|].
  split; [apply suffix_drop|]. right.
  destruct (rfind_spec 46 filename) as [[Hd _]|(Hd & Hl & Hn)].
  { destruct (rfind_spec 47 filename) as [[Hs _]|(Hs & _)]; lia. }
  exists (drop (S (Z.to_nat (Py.rfind 46 filename))) filename).
  split; [by apply drop_S|]. split; [done|].
  destruct (rfind_spec 47 filename) as [[_ Hs]|(Hs & _ & Hsn)].
  - intros Hin. apply Hs. eapply elem_of_sublist; [exact Hin|].
    apply sublist_drop.
  - intros Hin. apply Hsn.
    replace (S (Z.to_nat (Py.rfind 46 filename)))
      with (S (Z.to_nat (Py.rfind 47 filename))
            + (S (Z.to_nat (Py.rfind 46 filename))
               - S (Z.to_nat (Py.rfind 47 filename))))%nat in Hin by lia.
    rewrite <- drop_drop in Hin.
    eapply elem_of_sublist; [exact Hin|]. apply sublist_drop.
Qed.

Section Paths.
Context {World sample wav : Type}.
Variable E : Collaborators World sample wav.
Implicit Types (w : World).

(** *** The chunks *)

Lemma cut_chunks_acc (data : list sample) sr tss paths metas paths' metas' :
  cut_chunks data sr tss paths metas = Py.Ok (paths', metas') ->
  exists ps ms,
    paths' = paths ++ ps /\ metas' = metas ++ ms /\
    Forall2 (fun ts c => cut_chunk data sr ts = Py.Ok c) tss (zip ps ms) /\
    length ps = length tss /\ length ms = length tss.
Proof.
  revert paths metas. induction tss as [|ts tss IH]; intros paths metas; simpl.
  - intros [= <- <-]. exists [], []. rewrite !app_nil_r. repeat split.
    constructor.
  - unfold Py.bind at 1.
    destruct (cut_chunk data sr ts) as [|[p m]] eqn:Hc; [intros [=]|].
    intros H. apply IH in H as (ps & ms & -> & -> & Hf & Hlp & Hlm).
    exists (p :: ps), (m :: ms). simpl. rewrite <- !app_assoc. simpl.
    repeat split; try lia. by constructor.
Qed.

(** The loop over the spans keeps their order and their number: the i-th
    chunk file and the i-th entry of [chunk_metadata] are the cut of the
    i-th span, so that the engine receives one chunk per span, in the order
    of the spans. *)
Theorem cut_chunks_positional (data : list sample) (sr : Z)
    (tss : list SpeechTimestamp) (paths : list (audio_input sample))
    (metas : list ChunkMeta) :
  cut_chunks data sr tss [] [] = Py.Ok (paths, metas) ->
  length paths = length tss /\ length metas = length tss /\
  Forall2 (fun ts c => cut_chunk data sr ts = Py.Ok c) tss (zip paths metas).
Proof.
  intros H. apply cut_chunks_acc in H as (ps & ms & -> & -> & Hf & Hp & Hm).
  simpl. done.
Qed.

(** *** Early failures of the chunked path *)


End Paths.

Lemma cut_chunks_positional_witness :
  exists paths metas,
    cut_chunks (seq 0 40) 16 [mkTs 0 8000; mkTs 24000 40000] [] []
    = Py.Ok (paths, metas) /\
    length paths = 2%nat /\ length metas = 2%nat.
Proof.
  assert (H : { out | cut_chunks (seq 0 40) 16 [mkTs 0 8000; mkTs 24000 40000]
                        [] [] = Py.Ok (fst out, snd out) }).
  { eexists (_, _). vm_compute. reflexivity. }
  destruct H as [[paths metas] H]. cbn [fst snd] in H.
  exists paths, metas. split; [exact H|].
  destruct (cut_chunks_positional _ _ _ _ _ H) as (H1 & H2 & _).
  split; [exact H1 | exact H2].
Defined.

End PathExtras.

Module ExactRates.
Import Float64 Float64Facts Omni OmniFacts.

(** *** Integers below [2^53] are floats *)

Lemma round_mag_integer (n S : Z) :
  0 <= n < 2 ^ 53 -> S = 2 ^ 1074 -> round_mag (n * S) 1 = n * S.
Proof.
  intros [Hn0 Hn] ->.
  destruct (Z.eq_dec n 0) as [->|Hnz]; [reflexivity|].
  unfold round_mag. rewrite Z.div_1_r, Z.mul_1_l.
  assert (Hlog : Z.log2 (n * 2 ^ 1074) = Z.log2 n + 1074).
  { rewrite <- Z.shiftl_mul_pow2 by lia. apply Z.log2_shiftl; lia. }
  assert (Hl : 0 <= Z.log2 n < 53).
  { split; [apply Z.log2_nonneg|]. apply Z.log2_lt_pow2; lia. }
  rewrite Hlog. rewrite Z.max_r by lia.
  set (k := Z.log2 n + 1074 - 52).
  assert (Hsplit : 2 ^ 1074 = 2 ^ (1074 - k) * 2 ^ k).
  { rewrite <- Z.pow_add_r by lia. f_equal. lia. }
  rewrite Hsplit at 1. rewrite Z.mul_assoc.
  rewrite rne_div_exact by (apply Z.pow_pos_nonneg; lia).
  rewrite Hsplit. lia.
Qed.

Lemma b64_integer (n : Z) : 0 <= n < 2 ^ 53 -> b64 (inject_Z n) = inject_Z n.
Proof.
  intros Hn. unfold b64, inject_Z. cbn [Qnum Qden].
  rewrite Z.abs_eq by lia.
  rewrite round_mag_integer by (done || reflexivity).
  destruct (Z.eq_dec n 0) as [->|Hnz]; [vm_compute; reflexivity|].
  rewrite Z.sgn_pos, Z.mul_1_l by lia.
  rewrite <- (Qred_complete (n # 1) (n * 2 ^ 1074 # 2 ^ 1074)).
  - unfold Qred. replace (snd (Z.ggcd n 1)) with (n, 1).
    + reflexivity.
    + pose proof (Z.ggcd_correct_divisors n 1) as Hd.
      pose proof (Z.ggcd_gcd n 1) as Hg. rewrite Z.gcd_1_r in Hg.
      destruct (Z.ggcd n 1) as [g [a b]]. simpl in *. subst g.
      destruct Hd as [-> Hb]. f_equal; lia.
  - unfold Qeq. cbn [Qnum Qden].
    assert (Hp : Z.pos (2 ^ 1074) = 2 ^ 1074).
    { rewrite Pos2Z.inj_pow. reflexivity. }
    rewrite Hp. lia.
Qed.

Lemma overflows_below_2_53 (n : Z) :
  0 <= n < 2 ^ 53 -> overflows (inject_Z n) = false.
Proof.
  intros Hn. unfold overflows.
  destruct (Qle_bool _ _) eqn:E; [|done].
  apply Qle_bool_iff in E. rewrite Qabs_pos in E.
  - rewrite <- Zle_Qle in E.
    assert (2 ^ 53 <= 2 ^ 1024) by (apply Z.pow_le_mono_r; lia). lia.
  - rewrite <- (Zle_Qle 0). lia.
Qed.

Lemma of_int_exact (n : Z) : 0 <= n < 2 ^ 53 -> of_int n = Py.Ok (inject_Z n).
Proof.
  intros Hn. unfold of_int, checked.
  by rewrite b64_integer, overflows_below_2_53.
Qed.

Lemma int_of_mul_exact (a m : Z) :
  0 <= a -> 0 <= m -> a * m < 2 ^ 53 -> m < 2 ^ 53 -> a < 2 ^ 53 ->
  int_of_mul a (inject_Z m) = Py.Ok (a * m).
Proof.
  intros Ha Hm Ham Hm53 Ha53. unfold int_of_mul.
  rewrite of_int_exact by lia. cbn [Py.bind Py.Ok].
  assert (Hprod : b64 (inject_Z a * inject_Z m) = inject_Z (a * m)).
  { rewrite <- (b64_integer (a * m)) by nia. apply b64_proper.
    by rewrite inject_Z_mult. }
  rewrite Hprod. unfold checked. rewrite overflows_below_2_53 by nia.
  cbn [Py.bind Py.Ok]. unfold inject_Z. cbn [Qnum Qden].
  by rewrite Z.quot_1_r.
Qed.

(** For a native rate that is a multiple [m] of 16000 Hz (16, 32, 48,
    96 kHz), the chunk of a span is cut exactly at the span bounds times
    [m], which is [floor(span_bound * native_rate / 16000)], as long as
    these bounds stay below [2^53]. *)
Theorem cut_chunk_exact_at_multiples {sample : Type} (data : list sample)
    (m : Z) (ts : SpeechTimestamp) :
  1 <= m < 2 ^ 53 ->
  0 <= ts_start ts <= ts_end ts ->
  ts_end ts * m < 2 ^ 53 ->
  cut_chunk data (16000 * m) ts
  = Py.Ok (ChunkFile (Py.slice data (ts_start ts * m) (ts_end ts * m))
             (16000 * m),
           meta_of ts) /\
  ts_start ts * m = ts_start ts * (16000 * m) / 16000 /\
  ts_end ts * m = ts_end ts * (16000 * m) / 16000.
Proof.
  intros Hm Hts Hbound.
  assert (Hs : 0 <= ts_start ts < 2 ^ 53) by nia.
  assert (He : 0 <= ts_end ts < 2 ^ 53) by nia.
  split; [|split].
  2,3: apply Z.div_unique_exact; lia.
  assert (Hdiv : forall a, 0 <= a < 2 ^ 53 ->
            int_truediv a 16000 = Py.Ok (b64 (a # 16000))).
  { intros a Ha. unfold int_truediv, checked.
    change (16000 =? 0) with false. cbv iota.
    change (Z.sgn 16000) with 1. change (Z.to_pos (Z.abs 16000)) with 16000%positive.
    rewrite Z.mul_1_r.
    assert (Hov : overflows (b64 (a # 16000)) = false).
    { unfold overflows. destruct (Qle_bool _ _) eqn:E; [|done].
      apply Qle_bool_iff in E.
      assert (H0 : (0 <= b64 (a # 16000))%Q).
      { apply b64_nonneg. unfold Qle. simpl. lia. }
      rewrite Qabs_pos in E by done.
      assert (H1 : (b64 (a # 16000) <= inject_Z a)%Q).
      { rewrite <- (b64_integer a) by done. apply b64_mono.
        unfold Qle, inject_Z. simpl. lia. }
      assert (H2 : (inject_Z (2 ^ 1024) <= inject_Z a)%Q)
        by (eapply Qle_trans; eauto).
      rewrite <- Zle_Qle in H2.
      assert (2 ^ 53 <= 2 ^ 1024) by (apply Z.pow_le_mono_r; lia). lia. }
    by rewrite Hov. }
  assert (Hratio : int_truediv (16000 * m) 16000 = Py.Ok (inject_Z m)).
  { unfold int_truediv, checked.
    change (16000 =? 0) with false. cbv iota.
    change (Z.sgn 16000) with 1. change (Z.to_pos (Z.abs 16000)) with 16000%positive.
    rewrite Z.mul_1_r.
    assert (Hb : b64 (16000 * m # 16000) = inject_Z m).
    { rewrite <- (b64_integer m) by lia. apply b64_proper.
      unfold Qeq, inject_Z. simpl. lia. }
    rewrite Hb. by rewrite overflows_below_2_53 by lia. }
  unfold cut_chunk.
  rewrite (Hdiv _ Hs), (Hdiv _ He), Hratio. cbn [Py.bind Py.Ok].
  rewrite !int_of_mul_exact by nia. reflexivity.
Qed.

Lemma cut_chunk_exact_at_multiples_witness :
  cut_chunk (seq 0 10) 48000 (mkTs 400 800)
  = Py.Ok (ChunkFile (Py.slice (seq 0 10) 1200 2400) 48000,
           meta_of (mkTs 400 800)).
Proof.
  refine (proj1 (cut_chunk_exact_at_multiples (seq 0 10) 3 (mkTs 400 800) _ _ _)).
  - lia.
  - simpl. lia.
  - simpl. lia.
Defined.

End ExactRates.

Module RouteExtras.
Import Float64 Float64Facts Omni OmniFacts EndpointFacts.

Section Auth.
Context {World sample wav : Type}.
Variable E : Collaborators World sample wav.

Lemma split_nonempty sep s : Py.split sep s <> [].
Proof.
  destruct s as [|x r]; simpl; [done|].
  destruct (x =? sep)%N; [done|]. by destruct (Py.split sep r).
Qed.

Lemma list_to_set_nil_inv (items : list Py.pystr) :
  (list_to_set items : gset Py.pystr) = ∅ -> items = [].
Proof.
  destruct items as [|k items]; [done|]. simpl. intros H.
  assert (Hk : k ∈ ({[k]} ∪ list_to_set items : gset Py.pystr)) by set_solver.
  rewrite H in Hk. set_solver.
Qed.

Lemma all_empty_singleton (items : list Py.pystr) :
  items <> [] ->
  forallb (fun k => bool_decide (k = [])) items = true ->
  (list_to_set items : gset Py.pystr) = {[ [] ]}.
Proof.
  intros Hne Hall. apply set_eq. intros k.
  rewrite elem_of_list_to_set, elem_of_singleton.
  rewrite forallb_forall in Hall. split.
  - intros Hk. apply list_elem_of_In, Hall in Hk. by apply bool_decide_eq_true in Hk.
  - intros ->. destruct items as [|k items]; [done|].
    assert (Hk : k = []).
    { apply (bool_decide_eq_true_1 (k = [])), Hall. by left. }
    subst. by left.
Qed.

Lemma singleton_all_empty (items : list Py.pystr) :
  size (list_to_set items : gset Py.pystr) = 1%nat ->
  [] ∈ (list_to_set items : gset Py.pystr) ->
  forallb (fun k => bool_decide (k = [])) items = true.
Proof.
  intros Hsz Hin. apply size_1_elem_of in Hsz as [x Hx].
  apply leibniz_equiv in Hx. rewrite Hx in Hin.
  apply elem_of_singleton in Hin. subst x.
  apply forallb_forall. intros k Hk. apply bool_decide_eq_true_2.
  apply list_elem_of_In in Hk.
  assert (Hk' : k ∈ (list_to_set items : gset Py.pystr))
    by (by apply elem_of_list_to_set).
  rewrite Hx in Hk'. by apply elem_of_singleton in Hk'.
Qed.

(** [verify_api_key], by the value of the environment variable.  The
    check is off, and every request passes, when the variable is unset or
    empty and also when all its comma-separated items are empty (a value
    made of commas only).  Otherwise a request without the header, or with
    an empty one, is refused with a 401; a key that is not one of the
    items is refused with a 403; a key that is one of them passes. *)
Theorem verify_api_key_outcomes (x_api_key : option Py.pystr) :
  let items :=
    match getenv_API_KEYS E with
    | Some (c :: r) => Py.split 44 (c :: r)
    | _ => []
    end in
  verify_api_key E x_api_key =
  if forallb (fun k => bool_decide (k = [])) items then Py.Ok true
  else
    match x_api_key with
    | None | Some [] =>
        Py.Raise (Py.HTTPException 401
                    (Py.str "API key required. Provide X-API-Key header."))
    | Some key =>
        if bool_decide (key ∈ items) then Py.Ok true
        else Py.Raise (Py.HTTPException 403 (Py.str "Invalid API key"))
    end.
Proof.
  intros items.
  assert (Hkeys : API_KEYS E = list_to_set items).
  { unfold API_KEYS, items. by destruct (getenv_API_KEYS E) as [[|c r]|]. }
  unfold verify_api_key. rewrite Hkeys. clear Hkeys. clearbody items.
  match goal with
  | |- context [forallb ?f items] => destruct (forallb f items) eqn:Hall
  end.
  - destruct (decide (items = [])) as [->|Hne].
    { by rewrite (bool_decide_eq_true_2
                    (list_to_set [] = (∅ : gset Py.pystr))) by reflexivity. }
    rewrite (all_empty_singleton items Hne Hall).
    rewrite size_singleton.
    rewrite (bool_decide_eq_true_2 ([] ∈ ({[ [] ]} : gset Py.pystr)))
      by set_solver.
    cbn [Nat.eqb andb]. by rewrite orb_true_r.
  - assert (Hne : (list_to_set items : gset Py.pystr) <> ∅).
    { intros H. apply list_to_set_nil_inv in H. subst. discriminate Hall. }
    rewrite (bool_decide_eq_false_2
               ((list_to_set items : gset Py.pystr) = ∅)) by done.
    assert (Hsz : (size (list_to_set items : gset Py.pystr) =? 0)%nat = false).
    { apply Nat.eqb_neq. intros H. by apply size_empty_inv, leibniz_equiv in H. }
    rewrite Hsz. cbn [orb].
    assert (Hone : (size (list_to_set items : gset Py.pystr) =? 1)%nat
                   && bool_decide ([] ∈ (list_to_set items : gset Py.pystr))
                   = false).
    { apply andb_false_iff.
      destruct (size _ =? 1)%nat eqn:H1; [|by left]. right.
      apply bool_decide_eq_false_2. intros Hin.
      apply Nat.eqb_eq in H1.
      rewrite (singleton_all_empty items H1 Hin) in Hall. discriminate Hall. }
    rewrite Hone.
    destruct x_api_key as [[|c k]|]; try done.
    destruct (decide ((c :: k) ∈ items)) as [Hin|Hout].
    + rewrite bool_decide_eq_false_2 by (rewrite elem_of_list_to_set; tauto).
      by rewrite bool_decide_eq_true_2.
    + rewrite bool_decide_eq_true_2 by (by rewrite elem_of_list_to_set).
      by rewrite bool_decide_eq_false_2.
Qed.

End Auth.

Section WholeFile.
Context {World sample wav : Type}.
Variable E : Collaborators World sample wav.

Lemma rne_scaled_above_half d : (1 # 200 < d)%Q -> 1 <= rne_scaled d 2.
Proof.
  intros H. unfold rne_scaled, Qlt in *. cbn [Qnum Qden] in H.
  change (10 ^ Z.of_nat 2) with 100.
  set (n := Qnum d * 100). set (den := Z.pos (Qden d)).
  assert (Hden : 0 < den) by (unfold den; lia).
  assert (H2 : den < 2 * n) by (unfold n, den; lia).
  pose proof (rne_div_bounds n den Hden) as Hb.
  destruct (Z_lt_le_dec n den) as [Hlt|Hge].
  - unfold rne_div. rewrite Z.mod_small, Z.div_small by lia.
    destruct (Z.compare_spec (2 * n) den); lia.
  - assert (1 <= n / den) by (apply Z.div_le_lower_bound; lia). lia.
Qed.

Lemma round_above_half_positive d : (1 # 200 < d)%Q -> (0 < round d 2)%Q.
Proof.
  intros H. apply rne_scaled_above_half in H.
  assert (Hlow : (b64 (1 # 100) <= round d 2)%Q).
  { unfold round. apply b64_mono. change (Z.to_pos (10 ^ Z.of_nat 2)) with 100%positive.
    by apply Qmake_le_same. }
  assert (Hpos : (0 < b64 (1 # 100))%Q) by (vm_compute; reflexivity).
  eapply Qlt_le_trans; eauto.
Qed.

(** On the whole-file path the single segment has [end > start] exactly
    when the decoded duration is above 5 ms: up to 5 ms the duration
    rounds to 0.0, the start of the segment. *)
Theorem whole_file_segment_positive_iff (audio : Py.bytes)
    (filename lang rid : Py.pystr) (w w1 w' : World) (d : float)
    (r : TranscriptionResult) :
  librosa_get_duration E w (TempFile (Py.splitext_ext filename) audio)
  = (w1, inr d) ->
  (0 <= d)%Q ->
  transcribe E audio filename lang rid w = (w', inr r) ->
  segments_positive (segments r) <-> (1 # 200 < d)%Q.
Proof.
  intros Hd H0 H.
  apply transcribe_inv in H as (w2 & d' & texts & text & Hd' & _ & _ & ->).
  rewrite Hd in Hd'. injection Hd' as <- <-.
  unfold segments_positive. cbn [segments]. split.
  - intros Hp. apply Forall_cons in Hp as [Hp _]. cbn [seg_start seg_end] in Hp.
    destruct (Qlt_le_dec (1 # 200) d) as [|Hle]; [done|].
    rewrite (OmniProperties.round_small_is_zero d H0 Hle) in Hp.
    by apply Qlt_irrefl in Hp.
  - intros Hlt. repeat constructor. cbn [seg_start seg_end].
    by apply round_above_half_positive.
Qed.

End WholeFile.

Lemma whole_file_segment_positive_iff_witness :
  let E := Fixture.collaborators 5%Q [] 16 16 [Py.str "hello world"] in
  exists w r,
    transcribe E [Byte.x52] (Py.str "a.wav") (Py.str "eng_Latn")
      (Py.str "id") 0%nat = (w, inr r) /\
    segments_positive (segments r).
Proof.
  intros E.
  assert (Hrun : { out | transcribe E [Byte.x52] (Py.str "a.wav")
                           (Py.str "eng_Latn") (Py.str "id") 0%nat
                         = (fst out, inr (snd out)) }).
  { eexists (_, _). vm_compute. reflexivity. }
  destruct Hrun as [[w r] Hrun]. simpl in Hrun.
  exists w, r. split; [exact Hrun|].
  refine (proj2 (whole_file_segment_positive_iff E [Byte.x52] (Py.str "a.wav")
                   (Py.str "eng_Latn") (Py.str "id") 0%nat 0%nat w 5%Q r
                   _ _ Hrun) _).
  all: first [reflexivity | unfold Qle; simpl; lia | unfold Qlt; simpl; lia].
Defined.

Lemma verify_api_key_outcomes_witness :
  let E := Fixture.logging (Some (Py.str "alpha,,beta")) 1%Q [] 16 16 [] in
  verify_api_key E (Some (Py.str "beta")) = Py.Ok true /\
  verify_api_key E (Some (Py.str "gamma"))
  = Py.Raise (Py.HTTPException 403 (Py.str "Invalid API key")) /\
  verify_api_key E (Some [])
  = Py.Raise (Py.HTTPException 401
                (Py.str "API key required. Provide X-API-Key header.")) /\
  verify_api_key (Fixture.logging (Some (Py.str ",,")) 1%Q [] 16 16 []) None
  = Py.Ok true.
Proof.
  intros E. split; [|split; [|split]].
  - exact (verify_api_key_outcomes E (Some (Py.str "beta"))).
  - exact (verify_api_key_outcomes E (Some (Py.str "gamma"))).
  - exact (verify_api_key_outcomes E (Some [])).
  - exact (verify_api_key_outcomes
             (Fixture.logging (Some (Py.str ",,")) 1%Q [] 16 16 []) None).
Defined.

End RouteExtras.
